(** * Obsidian Crypto Trader: signal and decision engine

    A shallow embedding of the decision logic of [src/App.tsx]: the
    R-multiple computation, the entry-quality classifier, the structure
    engine, the activity scorer, the persisted day records, the session
    guard and the refresh merge; with them the scanner desk, the banner,
    the position sizing, the clock and the candle proxy of
    [netlify/functions].

    JavaScript numbers are IEEE 754 binary64 values.  They are modelled by
    the standard library's [spec_float] at precision 53 and maximal
    exponent 1024, with its correctly rounded operations, so NaN, the
    infinities and the two zeros behave as they do in the program. *)

From Stdlib Require Import ZArith Lia Bool List Sorting.Sorted Sorting.Permutation.
From Stdlib Require Import SpecFloat.
From stdpp Require Import gmap strings pretty.

Import ListNotations.
Local Open Scope Z_scope.
Set Warnings "-register-all".

(** ** JavaScript numbers *)

Module Num.

Definition prec : Z := 53.
Definition emax : Z := 1024.

Abbreviation number := spec_float.

Definition NaN : number := S754_nan.
Definition Infinity : number := S754_infinity false.
Definition NegInfinity : number := S754_infinity true.
Definition zero : number := S754_zero false.

Definition add : number -> number -> number := SFadd prec emax.
Definition sub : number -> number -> number := SFsub prec emax.
Definition mul : number -> number -> number := SFmul prec emax.
Definition div : number -> number -> number := SFdiv prec emax.
Definition neg : number -> number := SFopp.
Definition abs : number -> number := SFabs.

(** An integer literal, and a decimal literal [n/d] (both parts exactly
    representable, so the correctly rounded quotient is the double the
    literal denotes: [dec 55 100] is the literal 0.55). *)
Definition ofZ (z : Z) : number := binary_normalize prec emax z 0 false.
Definition dec (n d : Z) : number := div (ofZ n) (ofZ d).

(** The relational operators; every comparison with NaN is false. *)
Definition lt (a b : number) : bool := SFltb a b.
Definition le (a b : number) : bool := SFleb a b.
Definition gt (a b : number) : bool := SFltb b a.
Definition ge (a b : number) : bool := SFleb b a.

Definition isNaN (x : number) : bool :=
  match x with S754_nan => true | _ => false end.

(** [isFinite(x)] *)
Definition isFinite (x : number) : bool :=
  match x with
  | S754_zero _ | S754_finite _ _ _ => true
  | _ => false
  end.

(** [Math.max(a, b)] and [Math.min(a, b)]: NaN if either argument is,
    and +0 is larger than -0. *)
Definition max2 (a b : number) : number :=
  match SFcompare a b with
  | None => NaN
  | Some Lt => b
  | Some Gt => a
  | Some Eq => match a with S754_zero true => b | _ => a end
  end.

Definition min2 (a b : number) : number :=
  match SFcompare a b with
  | None => NaN
  | Some Lt => a
  | Some Gt => b
  | Some Eq => match a with S754_zero false => b | _ => a end
  end.

(** [Math.max(...xs)] and [Math.min(...xs)] *)
Definition maxOf (xs : list number) : number := fold_left max2 xs NegInfinity.
Definition minOf (xs : list number) : number := fold_left min2 xs Infinity.

(** The binary64 values: every finite one is in canonical form. *)
Definition valid (x : number) : bool := valid_binary prec emax x.

(** [Math.floor(x)]: the largest integer not above [x]; NaN, the infinities
    and the zeros are returned unchanged.  A finite [x] is [m * 2^e] up to
    sign, so it is an integer already when [e >= 0]; otherwise the floor of
    the signed mantissa shifted right is exact. *)
Definition floor (x : number) : number :=
  match x with
  | S754_finite s m e =>
      if 0 <=? e then x
      else binary_normalize prec emax (Z.shiftr (cond_Zopp s (Zpos m)) (- e)) 0 false
  | _ => x
  end.

(** [Math.round(x)]: the nearest integer, ties towards +Infinity; a value
    in [-0.5, 0) rounds to -0. *)
Definition round (x : number) : number :=
  match x with
  | S754_finite s m e =>
      if 0 <=? e then x
      else binary_normalize prec emax
             (Z.shiftr (2 * cond_Zopp s (Zpos m) + 2 ^ (- e)) (1 - e)) 0 s
  | _ => x
  end.

(** [x === 0] on numbers: both zeros. *)
Definition isZero (x : number) : bool :=
  match x with S754_zero _ => true | _ => false end.

(** Truthiness of a number: neither a zero nor NaN. *)
Definition truthy (x : number) : bool := negb (isZero x || isNaN x).

(** The key a [Map] files a number under (SameValueZero): -0 is stored as
    +0, and NaN equals itself. *)
Definition mapKey (x : number) : number :=
  match x with S754_zero _ => zero | _ => x end.

Definition sameValueZero (a b : number) : bool :=
  (isNaN a && isNaN b) || SFeqb a b.

End Num.

Import Num.

(** ** Data model *)

(** JSON values, as [JSON.parse] returns them. *)
Inductive json :=
| JNull
| JBool (b : bool)
| JNumber (n : number)
| JString (s : string)
| JArray (items : list json)
| JObject (fields : list (string * json)).

Inductive Side := LONG | SHORT.

Inductive EntryQuality := VALID | EXTENDED | NO_EDGE.

(** The labels ["OK" | "WAIT" | "NO_EDGE"]; the prefix keeps them apart from
    the entry-quality and session literals of the same spelling. *)
Inductive StructureLabel := S_OK | S_WAIT | S_NO_EDGE.
Inductive StructureSource := BINANCE_1H | MISSING.

Inductive SessionStatus := TRADE | SELECTIVE | WAIT.

Record MarketRow := {
  symbol : string;
  cgId : option string;
  name : option string;
  priceUsd : option number;
  change24h : option number;
  volume24hUsd : option number
}.

Record MicroMetrics := {
  ret1h : number;
  ret4h : number;
  dropFromHigh6h : number;
  spikeFromLow6h : number;
  entryQuality : EntryQuality;
  whyNot : list string
}.

(** What [scoreSetup] returns. *)
Record Score := {
  combinedScore : number;
  score15m : number;
  score1h : number;
  volFactor : number;
  why : list string
}.

Record Candle1h := { h : number; l : number }.

(** A pivot zone: a rounded price and its touch count. *)
Record Zone := { price : number; strength : number }.

Record Levels := { supports : list Zone; resistances : list Zone }.

Record StructureResult := {
  ok : bool;
  label : StructureLabel;
  reasons : list string;
  support : option number;
  resistance : option number;
  roomTo2R : option number;
  source : StructureSource
}.

(** The part of [SetupRow] the guard reads. *)
Module SetupRow.
Record t := {
  symbol : string;
  score : Score;
  entryQuality : EntryQuality;
  whyNot : list string;
  structureLabel : StructureLabel;
  structureWhy : list string;
  structureSource : StructureSource
}.
End SetupRow.

(** [session], [status] and [note] of [SessionInfo]; the colour and the
    countdown are presentation. *)
Record SessionInfo := {
  session : string;
  status : SessionStatus;
  note : string
}.

Record CommitConfig := {
  dayKey : string;
  committedAtIso : string;
  maxTrades : number;
  maxDailyLossR : number;
  maxConsecutiveLosses : number;
  riskPct : number;
  allowAsia : bool;
  allowEurope : bool;
  allowUS : bool;
  allowOverlap : bool;
  allowOffPeak : bool
}.

Module TradeRecord.
Record t := {
  id : string;
  tsIso : string;
  symbol : string;
  side : Side;
  entry : number;
  stop : number;
  exit : number;
  r : number;
  rulesFollowed : bool;
  note : option string
}.
End TradeRecord.

Module DayState.
Record t := {
  dayKey : string;
  locked : bool;
  lockedReason : option string;
  trades : list TradeRecord.t
}.
(** [{ ...s, locked: true, lockedReason }] *)
Definition lock (reason : string) (s : t) : t :=
  {| dayKey := dayKey s; locked := true; lockedReason := Some reason;
     trades := trades s |}.
(** [{ ...s, trades: [...s.trades, trade] }] *)
Definition append (trade : TradeRecord.t) (s : t) : t :=
  {| dayKey := dayKey s; locked := locked s; lockedReason := lockedReason s;
     trades := trades s ++ [trade] |}.
(** [{ dayKey, locked: false, trades: [] }] *)
Definition fresh (dayKey : string) : t :=
  {| dayKey := dayKey; locked := false; lockedReason := None; trades := [] |}.
End DayState.

(** An entry of the watchlist table [COINS]. *)
Module Coin.
Record t := { symbol : string; cgId : option string; name : option string }.
End Coin.

(** A row of the market snapshot, as the proxy returns it. *)
Module CgRow.
Record t := {
  id : string;
  symbol : string;
  name : option string;
  current_price : option number;
  price_change_percentage_24h : option number;
  total_volume : option number
}.
End CgRow.

(** The state cells of the component that the engine reads and writes. *)
Module LogForm.
Record t := {
  logOpen : bool;
  logSide : Side;
  logEntry : number;
  logStop : number;
  logExit : number;
  logRulesFollowed : bool;
  logNote : string
}.
Definition set_logOpen (b : bool) (f : t) : t :=
  {| logOpen := b; logSide := logSide f; logEntry := logEntry f;
     logStop := logStop f; logExit := logExit f;
     logRulesFollowed := logRulesFollowed f; logNote := logNote f |}.
End LogForm.

Module Scan.
Record t := {
  market : list MarketRow;
  microMap : gmap string MicroMetrics;
  structMap : gmap string StructureResult;
  error : option string
}.
Definition set_market (m : list MarketRow) (s : t) : t :=
  {| market := m; microMap := microMap s; structMap := structMap s; error := error s |}.
Definition set_microMap (m : gmap string MicroMetrics) (s : t) : t :=
  {| market := market s; microMap := m; structMap := structMap s; error := error s |}.
Definition set_structMap (m : gmap string StructureResult) (s : t) : t :=
  {| market := market s; microMap := microMap s; structMap := m; error := error s |}.
Definition set_error (e : option string) (s : t) : t :=
  {| market := market s; microMap := microMap s; structMap := structMap s; error := e |}.
End Scan.

Module Sizing.
Record t := {
  focusSymbol : string;
  riskPct : number;
  entryPrice : number;
  stopPrice : number
}.
Definition set_riskPct (x : number) (s : t) : t :=
  {| focusSymbol := focusSymbol s; riskPct := x;
     entryPrice := entryPrice s; stopPrice := stopPrice s |}.
Definition set_entryPrice (x : number) (s : t) : t :=
  {| focusSymbol := focusSymbol s; riskPct := riskPct s;
     entryPrice := x; stopPrice := stopPrice s |}.
Definition set_stopPrice (x : number) (s : t) : t :=
  {| focusSymbol := focusSymbol s; riskPct := riskPct s;
     entryPrice := entryPrice s; stopPrice := x |}.
End Sizing.

Module App.
Record t := {
  todayKey : string;
  sessionInfo : SessionInfo;
  overrideGuard : bool;
  commit : option CommitConfig;
  dayState : DayState.t;
  commitDraft : CommitConfig;
  log : LogForm.t;
  sizing : Sizing.t;
  scan : Scan.t;
  localStorage : gmap string string
}.
Definition set_overrideGuard (b : bool) (a : t) : t :=
  {| todayKey := todayKey a; sessionInfo := sessionInfo a; overrideGuard := b;
     commit := commit a; dayState := dayState a; commitDraft := commitDraft a;
     log := log a; sizing := sizing a; scan := scan a;
     localStorage := localStorage a |}.
Definition set_commit (c : option CommitConfig) (a : t) : t :=
  {| todayKey := todayKey a; sessionInfo := sessionInfo a;
     overrideGuard := overrideGuard a;
     commit := c; dayState := dayState a; commitDraft := commitDraft a;
     log := log a; sizing := sizing a; scan := scan a;
     localStorage := localStorage a |}.
Definition set_dayState (d : DayState.t) (a : t) : t :=
  {| todayKey := todayKey a; sessionInfo := sessionInfo a;
     overrideGuard := overrideGuard a;
     commit := commit a; dayState := d; commitDraft := commitDraft a;
     log := log a; sizing := sizing a; scan := scan a;
     localStorage := localStorage a |}.
Definition set_log (f : LogForm.t) (a : t) : t :=
  {| todayKey := todayKey a; sessionInfo := sessionInfo a;
     overrideGuard := overrideGuard a;
     commit := commit a; dayState := dayState a; commitDraft := commitDraft a;
     log := f; sizing := sizing a; scan := scan a;
     localStorage := localStorage a |}.
Definition set_sizing (z : Sizing.t) (a : t) : t :=
  {| todayKey := todayKey a; sessionInfo := sessionInfo a;
     overrideGuard := overrideGuard a;
     commit := commit a; dayState := dayState a; commitDraft := commitDraft a;
     log := log a; sizing := z; scan := scan a;
     localStorage := localStorage a |}.
Definition set_scan (x : Scan.t) (a : t) : t :=
  {| todayKey := todayKey a; sessionInfo := sessionInfo a;
     overrideGuard := overrideGuard a;
     commit := commit a; dayState := dayState a; commitDraft := commitDraft a;
     log := log a; sizing := sizing a; scan := x;
     localStorage := localStorage a |}.
Definition set_localStorage (st : gmap string string) (a : t) : t :=
  {| todayKey := todayKey a; sessionInfo := sessionInfo a;
     overrideGuard := overrideGuard a;
     commit := commit a; dayState := dayState a; commitDraft := commitDraft a;
     log := log a; sizing := sizing a; scan := scan a;
     localStorage := st |}.
End App.

(** What one refresh cycle receives from the three data sources.  The
    snapshot is the rows or the message of the error thrown; for the two
    candle sources [None] is a failed request. *)
Module Ranked.
Record t := { symbol : string; cgId : option string; combined : number }.
End Ranked.

Module Upstream.
Record t := {
  markets : list CgRow.t + string;
  hourly : string -> option (list number);
  candles1h : string -> option (list Candle1h)
}.
End Upstream.

(** ** The host functions the program calls

    [Number.prototype.toFixed], [Math.log10], [String(n)], [String.trim],
    [String.toUpperCase], [JSON.parse] and the serialisers behind
    [JSON.stringify] belong to the JavaScript runtime; the watchlist
    [COINS] is a constant table.  They are parameters of the development. *)

Section Engine.

Variable toFixed : number -> nat -> string.
Variable log10 : number -> number.
Variable numToString : number -> string.
Variable trim : string -> string.
Variable toUpperCase : string -> string.
(** [None] stands for a thrown [SyntaxError]. *)
Variable JSON_parse : string -> option json.
Variable stringifyCommit : CommitConfig -> string.
Variable stringifyDayState : DayState.t -> string.
Variable COINS : list Coin.t.

(** [const clamp = (n, a, b) => Math.max(a, Math.min(b, n))] *)
Definition clamp (n a b : number) : number := max2 a (min2 b n).

(** ** Trade ledger: the R multiple *)

Definition computeR (side : Side) (entry stop exit : number) : number :=
  if negb (forallb isFinite [entry; stop; exit]) then NaN
  else
    match side with
    | LONG =>
        let risk := sub entry stop in
        if le risk zero then NaN else div (sub exit entry) risk
    | SHORT =>
        let risk := sub stop entry in
        if le risk zero then NaN else div (sub entry exit) risk
    end.

(** ** Entry-quality classifier *)

(** [prices[i] ?? NaN] for an index computed by the program; a negative
    index names no element. *)
Definition at_or_NaN (prices : list number) (i : Z) : number :=
  if i <? 0 then NaN else nth (Z.to_nat i) prices NaN.

(** [prices.slice(start)] for [start >= 0]. *)
Definition slice_from (start : Z) (prices : list number) : list number :=
  skipn (Z.to_nat start) prices.

(** [((a - b) / b) * 100] *)
Definition pctFrom (a b : number) : number := mul (div (sub a b) b) (ofZ 100).

Definition computeMicro (prices : list number) : MicroMetrics :=
  let n := Z.of_nat (length prices) in
  let last := at_or_NaN prices (n - 1) in
  let p1h := at_or_NaN prices (Z.max 0 (n - 2)) in
  let p4h := at_or_NaN prices (Z.max 0 (n - 5)) in
  let window6h := slice_from (Z.max 0 (n - 7)) prices in
  let high6h := maxOf window6h in
  let low6h := minOf window6h in
  let ret1h := pctFrom last p1h in
  let ret4h := pctFrom last p4h in
  let dropFromHigh6h := pctFrom last high6h in
  let spikeFromLow6h := pctFrom last low6h in
  if le ret1h (ofZ (-3)) then
    {| ret1h := ret1h; ret4h := ret4h;
       dropFromHigh6h := dropFromHigh6h; spikeFromLow6h := spikeFromLow6h;
       entryQuality := NO_EDGE;
       whyNot := ["Fast dump: " +:+ toFixed ret1h 2 +:+ "% in ~1h";
                  "Wait for base or reclaim before considering entry."] |}
  else if le dropFromHigh6h (ofZ (-4)) then
    {| ret1h := ret1h; ret4h := ret4h;
       dropFromHigh6h := dropFromHigh6h; spikeFromLow6h := spikeFromLow6h;
       entryQuality := EXTENDED;
       whyNot := ["Pullback: " +:+ toFixed dropFromHigh6h 2 +:+ "% from 6h high";
                  "WAIT for base / reclaim — avoid guessing."] |}
  else if ge spikeFromLow6h (ofZ 6) then
    {| ret1h := ret1h; ret4h := ret4h;
       dropFromHigh6h := dropFromHigh6h; spikeFromLow6h := spikeFromLow6h;
       entryQuality := EXTENDED;
       whyNot := ["Extended: +" +:+ toFixed spikeFromLow6h 2 +:+ "% from 6h low";
                  "Don’t chase. Wait for pullback + retest."] |}
  else
    {| ret1h := ret1h; ret4h := ret4h;
       dropFromHigh6h := dropFromHigh6h; spikeFromLow6h := spikeFromLow6h;
       entryQuality := VALID;
       whyNot := [] |}.

(** ** Activity scorer *)

(** The two intermediate scores of [scoreSetup]. *)
Definition changeScore (ch : number) : number :=
  clamp (add (ofZ 50) (mul ch (ofZ 4))) zero (ofZ 100).

Definition volScore (volFactor : number) : number :=
  clamp (add (ofZ 50) (mul (log10 (max2 (ofZ 1) volFactor)) (ofZ 25)))
        zero (ofZ 100).

Definition scoreSetup (row : MarketRow) (baselineVol : number) : Score :=
  let ch := default zero (change24h row) in
  let vol := default zero (volume24hUsd row) in
  let volFactor := if gt baselineVol zero then div vol baselineVol else ofZ 1 in
  let changeScore := changeScore ch in
  let volScore := volScore volFactor in
  let score15m :=
    clamp (add (add (mul changeScore (dec 55 100)) (mul volScore (dec 45 100)))
               (ofZ 4)) zero (ofZ 100) in
  let score1h :=
    clamp (add (mul changeScore (dec 65 100)) (mul volScore (dec 35 100)))
          zero (ofZ 100) in
  let combined :=
    clamp (add (mul score15m (dec 48 100)) (mul score1h (dec 52 100)))
          zero (ofZ 100) in
  let why :=
    (if ge combined (ofZ 80) then ["High participation + strong tape"] else [])
    ++ (if ge combined (ofZ 65) && lt combined (ofZ 80)
        then ["Tradable activity"] else [])
    ++ (if ge volFactor (dec 13 10) then ["Volume elevated vs baseline"] else [])
    ++ (if ge ch (ofZ 3) then ["Positive 24h trend"] else [])
    ++ (if lt ch zero then ["24h negative — be selective"] else []) in
  {| combinedScore := combined; score15m := score15m; score1h := score1h;
     volFactor := volFactor; why := why |}.

(** ** Structure engine *)

(** The rounding that merges nearby pivots into one level. *)
Definition zone (x : number) : number :=
  if ge x (ofZ 1000) then mul (round (div x (ofZ 10))) (ofZ 10)
  else if ge x (ofZ 100) then mul (round (div x (ofZ 1))) (ofZ 1)
  else if ge x (ofZ 1) then mul (round (div x (dec 1 100))) (dec 1 100)
  else mul (round (div x (dec 1 1000000))) (dec 1 1000000).

(** A [Map<number, number>] in insertion order. *)
Definition mapGet (k : number) (m : list (number * number)) : option number :=
  snd <$> find (fun kv => sameValueZero (fst kv) k) m.

Fixpoint mapSet (k v : number) (m : list (number * number))
  : list (number * number) :=
  match m with
  | [] => [(mapKey k, v)]
  | (k', v') :: m' =>
      if sameValueZero k' k then (k', v) :: m' else (k', v') :: mapSet k v m'
  end.

Definition countZones (arr : list number) : list Zone :=
  let map :=
    fold_left
      (fun map p => mapSet (zone p) (add (default zero (mapGet (zone p) map)) (ofZ 1)) map)
      arr [] in
  List.map (fun kv => {| price := fst kv; strength := snd kv |}) map.

Definition noCandle : Candle1h := {| h := NaN; l := NaN |}.

Definition computePivotLevels1h (candles : list Candle1h) : Levels :=
  let idx := seq 2 (length candles - 4) in
  let at_ (i : nat) := nth i candles noCandle in
  let resist :=
    flat_map (fun i =>
      if gt (h (at_ i)) (h (at_ (i - 1)%nat)) && gt (h (at_ i)) (h (at_ (i + 1)%nat))
      then [h (at_ i)] else []) idx in
  let supp :=
    flat_map (fun i =>
      if lt (l (at_ i)) (l (at_ (i - 1)%nat)) && lt (l (at_ i)) (l (at_ (i + 1)%nat))
      then [l (at_ i)] else []) idx in
  {| supports := countZones supp; resistances := countZones resist |}.

(** [Array.prototype.sort(cmp)]: the stable sort.  An element moves behind
    another only when the comparator is positive; a NaN comparison counts
    as 0, as the language prescribes.  For a comparator that orders the
    elements consistently this is the order every engine gives.  For one
    that does not (a NaN key makes [a - b] NaN against every other
    element) the language leaves the order to the engine, and this is the
    order of the insertion sort. *)
Fixpoint insertSorted {A} (cmp : A -> A -> number) (x : A) (xs : list A) : list A :=
  match xs with
  | [] => [x]
  | y :: xs' =>
      if gt (cmp x y) zero then y :: insertSorted cmp x xs' else x :: y :: xs'
  end.

Definition sortBy {A} (cmp : A -> A -> number) (xs : list A) : list A :=
  fold_right (insertSorted cmp) [] xs.

Definition supportsBelow (lastPrice : number) (levels : Levels) : list Zone :=
  sortBy (fun a b => sub (price b) (price a))
         (List.filter (fun x => lt (price x) lastPrice) (supports levels)).

Definition resistAbove (lastPrice : number) (levels : Levels) : list Zone :=
  sortBy (fun a b => sub (price a) (price b))
         (List.filter (fun x => gt (price x) lastPrice) (resistances levels)).

(** The resistances within reach: [r.price - lastPrice <= lastPrice * 0.15]. *)
Definition candidates (lastPrice : number) (levels : Levels) : list Zone :=
  let maxTargetDistance := mul lastPrice (dec 15 100) in
  List.filter (fun r => le (sub (price r) lastPrice) maxTargetDistance)
              (resistAbove lastPrice levels).

(** [candidates.find(r => (r.price - lastPrice) / risk >= 2) ?? candidates[0]] *)
Definition chooseTarget (lastPrice risk : number) (cands : list Zone) : option Zone :=
  match find (fun r => ge (div (sub (price r) lastPrice) risk) (ofZ 2)) cands with
  | Some r => Some r
  | None => head cands
  end.

Definition weakLevels : string :=
  "Levels are weak (low touches). Be extra selective.".

Definition evaluateStructure (lastPrice : number) (levels : Levels) : StructureResult :=
  match supportsBelow lastPrice levels with
  | [] =>
      {| ok := false; label := S_WAIT;
         reasons := ["No support below — stop is guesswork."];
         support := None; resistance := None; roomTo2R := None;
         source := BINANCE_1H |}
  | s0 :: _ =>
      let support := price s0 in
      let risk := sub lastPrice support in
      if negb (gt risk zero) then
        {| ok := false; label := S_NO_EDGE;
           reasons := ["Invalid structure: support not below price."];
           support := Some support; resistance := None; roomTo2R := None;
           source := BINANCE_1H |}
      else
        match chooseTarget lastPrice risk (candidates lastPrice levels) with
        | None =>
            {| ok := false; label := S_WAIT;
               reasons := ["No resistance above — target unclear."];
               support := Some support; resistance := None; roomTo2R := None;
               source := BINANCE_1H |}
        | Some chosen =>
            let resistance := price chosen in
            let roomTo2R := div (sub resistance lastPrice) risk in
            if lt roomTo2R (ofZ 2) then
              {| ok := false; label := S_NO_EDGE;
                 reasons := ["Room-to-2R fails: only " +:+ toFixed roomTo2R 2
                             +:+ "R available."];
                 support := Some support; resistance := Some resistance;
                 roomTo2R := Some roomTo2R; source := BINANCE_1H |}
            else
              let strengthS := strength s0 in
              let strengthR := strength chosen in
              {| ok := true; label := S_OK;
                 reasons := if lt strengthS (ofZ 2) || lt strengthR (ofZ 2)
                            then [weakLevels] else [];
                 support := Some support; resistance := Some resistance;
                 roomTo2R := Some roomTo2R; source := BINANCE_1H |}
        end
  end.

(** ** Local persistence *)

Definition LS_COMMIT : string := "ob:commit".
Definition LS_DAYSTATE : string := "ob:daystate".

(** [localStorage.getItem(k)]; [None] is [null]. *)
Definition getItem (k : string) (store : gmap string string) : option string :=
  store !! k.

(** Truthiness of a string ([!raw] is its negation). *)
Definition truthyString (raw : string) : bool := negb (String.eqb raw "").

(** Truthiness of a parsed value. *)
Definition truthyJson (v : json) : bool :=
  match v with
  | JNull => false
  | JBool b => b
  | JNumber n => truthy n
  | JString s => truthyString s
  | JArray _ | JObject _ => true
  end.

(** [v.k] for a parsed value [v] that is not [null]: the property of an
    object, [None] ([undefined]) when it has none; numbers, strings,
    booleans and arrays have no property of the names read here. *)
Definition getProp (v : json) (k : string) : option json :=
  match v with
  | JObject fields => snd <$> find (fun kv => String.eqb (fst kv) k) fields
  | _ => None
  end.

(** [v === s] for a string [s]. *)
Definition strictEqString (v : option json) (s : string) : bool :=
  match v with
  | Some (JString s') => String.eqb s' s
  | _ => false
  end.

(** [loadCommit]; the result [None] is [null]. *)
Definition loadCommit (store : gmap string string) (dayKey : string) : option json :=
  match getItem LS_COMMIT store with
  | None => None
  | Some raw =>
      if negb (truthyString raw) then None
      else
        match JSON_parse raw with
        | None => None
        | Some parsed =>
            if strictEqString (getProp parsed "dayKey") dayKey
            then Some parsed else None
        end
  end.

(** The literal [{ dayKey, locked: false, trades: [] }]. *)
Definition freshDayState (dayKey : string) : json :=
  JObject [("dayKey", JString dayKey); ("locked", JBool false); ("trades", JArray [])].

Definition loadDayState (store : gmap string string) (dayKey : string) : json :=
  match getItem LS_DAYSTATE store with
  | None => freshDayState dayKey
  | Some raw =>
      if negb (truthyString raw) then freshDayState dayKey
      else
        match JSON_parse raw with
        | None => freshDayState dayKey
        | Some parsed =>
            if negb (truthyJson parsed)
               || negb (strictEqString (getProp parsed "dayKey") dayKey)
            then freshDayState dayKey
            else parsed
        end
  end.

Definition saveCommit (cfg : CommitConfig) (store : gmap string string)
  : gmap string string :=
  <[LS_COMMIT := stringifyCommit cfg]> store.

Definition saveDayState (st : DayState.t) (store : gmap string string)
  : gmap string string :=
  <[LS_DAYSTATE := stringifyDayState st]> store.

(** ** Session clock *)

(** [computeSession] from the local hour and minute of [now]. *)
Definition computeSession (hours minutes : Z) : SessionInfo :=
  let curMinutes := hours * 60 + minutes in
  let B_ASIA := 7 * 60 in
  let B_EU := 16 * 60 in
  let B_OVERLAP := 21 * 60 in
  let B_0100 := 1 * 60 in
  let B_US_END := 6 * 60 in
  let B_OFF_END := 7 * 60 in
  if (B_ASIA <=? curMinutes) && (curMinutes <? B_EU) then
    {| session := "ASIA"; status := SELECTIVE;
       note := "Decent for some alts/scalps. Be picky (A+ only)." |}
  else if (B_EU <=? curMinutes) && (curMinutes <? B_OVERLAP) then
    {| session := "EUROPE"; status := TRADE;
       note := "Good activity. Trade A+ setups only." |}
  else if (B_OVERLAP <=? curMinutes) || (curMinutes <? B_0100) then
    {| session := "EUROPE + US OVERLAP"; status := TRADE;
       note := "Best liquidity/volatility. Highest quality breakouts often occur here." |}
  else if (B_0100 <=? curMinutes) && (curMinutes <? B_US_END) then
    {| session := "US"; status := TRADE;
       note := "Strong activity. Don’t overtrade." |}
  else if (B_US_END <=? curMinutes) && (curMinutes <? B_OFF_END) then
    {| session := "OFF-PEAK"; status := WAIT;
       note := "Thin/awkward window. Avoid forcing trades; wait for Asia/Europe." |}
  else
    {| session := "OFF-PEAK"; status := WAIT;
       note := "Low quality window. Prefer waiting for Europe/US activity." |}.

(** ** Session guard *)

Definition commitRequired (a : App.t) : bool :=
  match App.commit a with
  | None => true
  | Some c => negb (String.eqb (dayKey c) (App.todayKey a))
  end.

Definition tradesToday (a : App.t) : number :=
  ofZ (Z.of_nat (length (DayState.trades (App.dayState a)))).

Definition rToday (a : App.t) : number :=
  fold_left
    (fun acc t => add acc (if isFinite (TradeRecord.r t) then TradeRecord.r t else zero))
    (DayState.trades (App.dayState a)) zero.

(** The losses at the end of the ledger, counted from the last trade back. *)
Fixpoint trailingLosses (newestFirst : list TradeRecord.t) : Z :=
  match newestFirst with
  | t :: older => if lt (TradeRecord.r t) zero then 1 + trailingLosses older else 0
  | [] => 0
  end.

Definition consecutiveLosses (a : App.t) : number :=
  ofZ (trailingLosses (rev (DayState.trades (App.dayState a)))).

Definition sessionAllowedByCommit (a : App.t) : bool :=
  match App.commit a with
  | None => false
  | Some c =>
      let s := session (App.sessionInfo a) in
      if String.eqb s "ASIA" then allowAsia c
      else if String.eqb s "EUROPE" then allowEurope c
      else if String.eqb s "US" then allowUS c
      else if String.eqb s "EUROPE + US OVERLAP" then allowOverlap c
      else allowOffPeak c
  end.

Definition isWait (s : SessionStatus) : bool :=
  match s with WAIT => true | _ => false end.

Definition tradingAllowed (a : App.t) : bool :=
  if commitRequired a then false
  else if DayState.locked (App.dayState a) then false
  else
    let waitBlocks := isWait (status (App.sessionInfo a)) && negb (App.overrideGuard a) in
    let commitBlocks := negb (sessionAllowedByCommit a) && negb (App.overrideGuard a) in
    if waitBlocks then false
    else if commitBlocks then false
    else true.

Definition isNoEdge (q : EntryQuality) : bool :=
  match q with NO_EDGE => true | _ => false end.

Definition isOk (lb : StructureLabel) : bool :=
  match lb with S_OK => true | _ => false end.

Definition coinActionAllowed (a : App.t) (s : SetupRow.t) : bool :=
  if negb (tradingAllowed a) then false
  else if App.overrideGuard a then true
  else if isNoEdge (SetupRow.entryQuality s) then false
  else if negb (isOk (SetupRow.structureLabel s)) then false
  else true.

(** ** Operator commands and effects *)

Definition fmtR (r : number) : string :=
  if isFinite r
  then (if ge r zero then "+" else "") +:+ toFixed r 2 +:+ "R"
  else "—".

(** The auto-lock effect, run after every change of the ledger, the
    commitment or the lock. *)
Definition autoLock (a : App.t) : App.t :=
  if commitRequired a then a
  else if DayState.locked (App.dayState a) then a
  else
    match App.commit a with
    | None => a
    | Some commit =>
        if ge (tradesToday a) (maxTrades commit) then
          App.set_dayState
            (DayState.lock
               ("Max trades reached (" +:+ numToString (maxTrades commit)
                +:+ "). Session complete.")
               (App.dayState a)) a
        else if le (rToday a) (neg (abs (maxDailyLossR commit))) then
          App.set_dayState
            (DayState.lock
               ("Daily loss limit hit (" +:+ fmtR (rToday a) +:+ " ≤ -"
                +:+ numToString (abs (maxDailyLossR commit))
                +:+ "R). Stop trading.")
               (App.dayState a)) a
        else if ge (consecutiveLosses a) (maxConsecutiveLosses commit) then
          App.set_dayState
            (DayState.lock
               ("Consecutive losses hit (" +:+ numToString (consecutiveLosses a)
                +:+ "). Stop trading.")
               (App.dayState a)) a
        else a
    end.

(** The effect [saveDayState(dayState)], run after every change of
    [dayState]. *)
Definition persistDayState (a : App.t) : App.t :=
  App.set_localStorage (saveDayState (App.dayState a) (App.localStorage a)) a.

Definition openLogFromCurrent (a : App.t) : App.t :=
  App.set_log
    {| LogForm.logOpen := true; LogForm.logSide := LONG;
       LogForm.logEntry := Sizing.entryPrice (App.sizing a);
       LogForm.logStop := Sizing.stopPrice (App.sizing a);
       LogForm.logExit := Sizing.entryPrice (App.sizing a);
       LogForm.logRulesFollowed := true; LogForm.logNote := "" |} a.

(** The "Log trade" button: [disabled={!tradingAllowed}]. *)
Definition clickLogTrade (a : App.t) : App.t :=
  if tradingAllowed a then openLogFromCurrent a else a.

(** [addTrade]; [newId] and [nowIso] are the values of [uuid()] and of
    [new Date().toISOString()]. *)
Definition addTrade (newId nowIso : string) (a : App.t) : App.t :=
  let f := App.log a in
  let r := computeR (LogForm.logSide f) (LogForm.logEntry f)
                    (LogForm.logStop f) (LogForm.logExit f) in
  if negb (isFinite r) then a
  else
    let trade :=
      {| TradeRecord.id := newId; TradeRecord.tsIso := nowIso;
         TradeRecord.symbol := Sizing.focusSymbol (App.sizing a);
         TradeRecord.side := LogForm.logSide f;
         TradeRecord.entry := LogForm.logEntry f;
         TradeRecord.stop := LogForm.logStop f;
         TradeRecord.exit := LogForm.logExit f;
         TradeRecord.r := r;
         TradeRecord.rulesFollowed := LogForm.logRulesFollowed f;
         TradeRecord.note :=
           if truthyString (trim (LogForm.logNote f))
           then Some (trim (LogForm.logNote f)) else None |} in
    App.set_log (LogForm.set_logOpen false f)
      (App.set_dayState (DayState.append trade (App.dayState a)) a).

(** The "Save Trade" button lives in the log dialog, which is rendered
    only while [logOpen] holds. *)
Definition clickSaveTrade (newId nowIso : string) (a : App.t) : App.t :=
  if LogForm.logOpen (App.log a) then addTrade newId nowIso a else a.

Definition endSessionNow (a : App.t) : App.t :=
  App.set_dayState
    (DayState.lock "Manual END SESSION — you chose capital protection."
                   (App.dayState a)) a.

(** The "End session" button: [disabled={dayState.locked}]. *)
Definition clickEndSession (a : App.t) : App.t :=
  if DayState.locked (App.dayState a) then a else endSessionNow a.

(** The contract [commitToday] builds from the draft. *)
Definition normalizedCommit (todayKey nowIso : string) (commitDraft : CommitConfig)
  : CommitConfig :=
  {| dayKey := todayKey;
     committedAtIso := nowIso;
     maxTrades := max2 (ofZ 1) (floor (maxTrades commitDraft));
     maxDailyLossR := max2 (dec 1 2) (maxDailyLossR commitDraft);
     maxConsecutiveLosses := max2 (ofZ 1) (floor (maxConsecutiveLosses commitDraft));
     riskPct := clamp (riskPct commitDraft) (dec 1 10) (ofZ 5);
     allowAsia := allowAsia commitDraft;
     allowEurope := allowEurope commitDraft;
     allowUS := allowUS commitDraft;
     allowOverlap := allowOverlap commitDraft;
     allowOffPeak := allowOffPeak commitDraft |}.

Definition commitToday (nowIso : string) (a : App.t) : App.t :=
  let c := normalizedCommit (App.todayKey a) nowIso (App.commitDraft a) in
  App.set_sizing (Sizing.set_riskPct (riskPct c) (App.sizing a))
    (App.set_commit (Some c)
       (App.set_localStorage (saveCommit c (App.localStorage a)) a)).

(** The "Re-commit" button. *)
Definition recommit (a : App.t) : App.t :=
  App.set_localStorage (delete LS_COMMIT (App.localStorage a))
    (App.set_commit None a).

(** [clearToday]; [confirmed] is the answer to the confirmation dialog. *)
Definition clearToday (confirmed : bool) (a : App.t) : App.t :=
  if negb confirmed then a
  else
    let fresh := DayState.fresh (App.todayKey a) in
    App.set_localStorage (saveDayState fresh (App.localStorage a))
      (App.set_dayState fresh a).

(** The operator commands and the effects that touch the day's record,
    within one calendar day. *)
Inductive Command :=
| CmdLogTradeClick
| CmdSaveTrade (newId nowIso : string)
| CmdCloseLog
| CmdEndSession
| CmdCommitToday (nowIso : string)
| CmdRecommit
| CmdSetOverride (b : bool)
| CmdResetDay (confirmed : bool)
| EffAutoLock
| EffPersistDayState.

Definition run (c : Command) (a : App.t) : App.t :=
  match c with
  | CmdLogTradeClick => clickLogTrade a
  | CmdSaveTrade newId nowIso => clickSaveTrade newId nowIso a
  | CmdCloseLog => App.set_log (LogForm.set_logOpen false (App.log a)) a
  | CmdEndSession => clickEndSession a
  | CmdCommitToday nowIso => commitToday nowIso a
  | CmdRecommit => recommit a
  | CmdSetOverride b => App.set_overrideGuard b a
  | CmdResetDay confirmed => clearToday confirmed a
  | EffAutoLock => autoLock a
  | EffPersistDayState => persistDayState a
  end.

Definition isResetDay (c : Command) : bool :=
  match c with CmdResetDay true => true | _ => false end.

(** ** The refresh pipeline *)

(** [new Map(rows.map((r) => [r.id, r])).get(id)]: the last row of that id. *)
Definition byId (rows : list CgRow.t) (id : string) : option CgRow.t :=
  find (fun r => String.eqb (CgRow.id r) id) (rev rows).

Definition truthyId (i : option string) : bool :=
  match i with Some s => truthyString s | None => false end.

Definition mergeRow (rows : list CgRow.t) (c : Coin.t) : MarketRow :=
  let r := if truthyId (Coin.cgId c) then Coin.cgId c ≫= byId rows else None in
  {| symbol := toUpperCase (Coin.symbol c);
     cgId := Coin.cgId c;
     name := match Coin.name c with Some n => Some n | None => r ≫= CgRow.name end;
     priceUsd := r ≫= CgRow.current_price;
     change24h := r ≫= CgRow.price_change_percentage_24h;
     volume24hUsd := r ≫= CgRow.total_volume |}.

(** The median 24h volume over the rows with a positive volume, 1 if none. *)
Definition baselineVolTemp (merged : list MarketRow) : number :=
  let vols :=
    sortBy (fun a b => sub a b)
           (List.filter (fun v => gt v zero)
                        (List.map (fun m => default zero (volume24hUsd m)) merged)) in
  match vols with
  | [] => ofZ 1
  | _ => nth (Nat.div (length vols) 2) vols NaN
  end.

(** The candidates of a cycle.  Their ranking is the engine's own only
    when no score is NaN, see [insertSorted]. *)
Definition rankedTemp (merged : list MarketRow) : list Ranked.t :=
  firstn 10
    (sortBy (fun a b => sub (Ranked.combined b) (Ranked.combined a))
       (List.filter (fun x => truthyId (Ranked.cgId x))
          (List.map
             (fun m =>
                {| Ranked.symbol := symbol m; Ranked.cgId := cgId m;
                   Ranked.combined :=
                     combinedScore (scoreSetup m (baselineVolTemp merged)) |})
             merged))).

Definition fetchCoinGeckoHourly24h (up : Upstream.t) (coinId : string)
  : option (list number) :=
  List.filter isFinite <$> Upstream.hourly up coinId.

Definition fetchCoinbase1hCandles (up : Upstream.t) (symbol : string)
  : option (list Candle1h) :=
  match Upstream.candles1h up (toUpperCase symbol) with
  | Some (c :: cs) => Some (c :: cs)
  | _ => None
  end.

(** The entry-quality results of one cycle; [None] when any request of
    the batch failed. *)
Definition microPairs (up : Upstream.t) (ranked : list Ranked.t)
  : option (list (string * MicroMetrics)) :=
  mapM (fun x =>
          prices ← fetchCoinGeckoHourly24h up (default "" (Ranked.cgId x));
          Some (Ranked.symbol x, computeMicro prices))
       ranked.

Definition missingStructure (reason : string) : StructureResult :=
  {| ok := false; label := S_WAIT; reasons := [reason];
     support := None; resistance := None; roomTo2R := None; source := MISSING |}.

Definition structPair (up : Upstream.t) (merged : list MarketRow) (x : Ranked.t)
  : string * StructureResult :=
  let price :=
    find (fun mm => String.eqb (symbol mm) (Ranked.symbol x)) merged ≫= priceUsd in
  match price with
  | Some p =>
      if negb (truthy p) || negb (isFinite p)
      then (Ranked.symbol x, missingStructure "No price for structure calc.")
      else
        match fetchCoinbase1hCandles up (Ranked.symbol x) with
        | Some candles =>
            (Ranked.symbol x, evaluateStructure p (computePivotLevels1h candles))
        | None =>
            (Ranked.symbol x,
             missingStructure "Structure unavailable (Binance pair missing).")
        end
  | None => (Ranked.symbol x, missingStructure "No price for structure calc.")
  end.

(** [for (const [sym, v] of pairs) next[sym] = v] *)
Definition fromPairs {V} (pairs : list (string * V)) : gmap string V :=
  fold_left (fun next kv => <[fst kv := snd kv]> next) pairs ∅.

(** [{ ...prev, ...next }] *)
Definition spread {V} (prev next : gmap string V) : gmap string V := next ∪ prev.

(** The results one cycle merges into the two maps, from the snapshot rows. *)
Definition nextMicro (up : Upstream.t) (rows : list CgRow.t)
  : option (gmap string MicroMetrics) :=
  fromPairs <$> microPairs up (rankedTemp (List.map (mergeRow rows) COINS)).

Definition nextStruct (up : Upstream.t) (rows : list CgRow.t)
  : gmap string StructureResult :=
  let merged := List.map (mergeRow rows) COINS in
  fromPairs (List.map (structPair up merged) (rankedTemp merged)).

(** The autofill of entry and stop from the focused row. *)
Definition autofill (merged : list MarketRow) (z : Sizing.t) : Sizing.t :=
  let picked :=
    find (fun m => String.eqb (symbol m) (Sizing.focusSymbol z)) merged ≫= priceUsd in
  match picked with
  | Some p =>
      if truthy p then
        let z1 := if isZero (Sizing.entryPrice z) then Sizing.set_entryPrice p z else z in
        if isZero (Sizing.stopPrice z)
        then Sizing.set_stopPrice (mul p (dec 985 1000)) z1 else z1
      else z
  | None => z
  end.

(** One cycle that nothing interrupts: the state its setters find is the
    state of the render that started it. *)
Definition refresh (up : Upstream.t) (a : App.t) : App.t :=
  match Upstream.markets up with
  | inr message => App.set_scan (Scan.set_error (Some message) (App.scan a)) a
  | inl rows =>
      let merged := List.map (mergeRow rows) COINS in
      let s0 := Scan.set_market merged (Scan.set_error None (App.scan a)) in
      let s1 :=
        match nextMicro up rows with
        | Some next => Scan.set_microMap (spread (Scan.microMap s0) next) s0
        | None => s0
        end in
      let s2 := Scan.set_structMap (spread (Scan.structMap s1) (nextStruct up rows)) s1 in
      App.set_scan s2 (App.set_sizing (autofill merged (App.sizing a)) a)
  end.

(** *** The cycle as it runs

    [refresh] is asynchronous.  It waits three times, for the snapshot,
    for the hourly batch and for the candle batch, and anything may happen
    to the state meanwhile.  The tests of the autofill read [focusSymbol],
    [entryPrice] and [stopPrice] of the render that started the cycle; the
    setters act on the state they find.  These are its four steps;
    [refresh] above is the cycle that runs with nothing in between. *)

(** [setError(null)], before the first request. *)
Definition refreshStart (a : App.t) : App.t :=
  App.set_scan (Scan.set_error None (App.scan a)) a.

(** The autofill with the values of the render that started the cycle. *)
Definition autofillFrom (merged : list MarketRow) (started z : Sizing.t) : Sizing.t :=
  let picked :=
    find (fun m => String.eqb (symbol m) (Sizing.focusSymbol started)) merged
      ≫= priceUsd in
  match picked with
  | Some p =>
      if truthy p then
        let z1 :=
          if isZero (Sizing.entryPrice started) then Sizing.set_entryPrice p z else z in
        if isZero (Sizing.stopPrice started)
        then Sizing.set_stopPrice (mul p (dec 985 1000)) z1 else z1
      else z
  | None => z
  end.

(** When the snapshot has arrived: [setMarket] and the autofill, or
    [setError] with the message of the failure. *)
Definition refreshSnapshot (up : Upstream.t) (started : Sizing.t) (a : App.t) : App.t :=
  match Upstream.markets up with
  | inr message => App.set_scan (Scan.set_error (Some message) (App.scan a)) a
  | inl rows =>
      let merged := List.map (mergeRow rows) COINS in
      App.set_scan (Scan.set_market merged (App.scan a))
        (App.set_sizing (autofillFrom merged started (App.sizing a)) a)
  end.

(** When the hourly batch has settled:
    [setMicroMap((prev) => ({ ...prev, ...next }))], or nothing. *)
Definition refreshMicro (up : Upstream.t) (a : App.t) : App.t :=
  match Upstream.markets up with
  | inr _ => a
  | inl rows =>
      match nextMicro up rows with
      | Some next =>
          App.set_scan
            (Scan.set_microMap (spread (Scan.microMap (App.scan a)) next) (App.scan a)) a
      | None => a
      end
  end.

(** When the candle batch has settled:
    [setStructMap((prev) => ({ ...prev, ...nextStruct }))]. *)
Definition refreshStruct (up : Upstream.t) (a : App.t) : App.t :=
  match Upstream.markets up with
  | inr _ => a
  | inl rows =>
      App.set_scan
        (Scan.set_structMap (spread (Scan.structMap (App.scan a)) (nextStruct up rows))
           (App.scan a)) a
  end.

(** The steps in order; other events come in between. *)
Definition refreshSteps (up : Upstream.t) (started : Sizing.t) : list (App.t -> App.t) :=
  [refreshStart; refreshSnapshot up started; refreshMicro up; refreshStruct up].

(** The row of the scanner for one market row, from the two maps. *)
Definition setupOf (a : App.t) (baselineVol : number) (m : MarketRow) : SetupRow.t :=
  let micro := Scan.microMap (App.scan a) !! symbol m in
  let st := Scan.structMap (App.scan a) !! symbol m in
  {| SetupRow.symbol := symbol m;
     SetupRow.score := scoreSetup m (if truthy baselineVol then baselineVol else ofZ 1);
     SetupRow.entryQuality := default VALID (entryQuality <$> micro);
     SetupRow.whyNot := default [] (whyNot <$> micro);
     SetupRow.structureLabel := default S_WAIT (label <$> st);
     SetupRow.structureWhy :=
       match st with Some x => reasons x | None => ["Structure not loaded yet."] end;
     SetupRow.structureSource := default MISSING (source <$> st) |}.

End Engine.

(** ** The scanner desk *)

Section Desk.

Variable log10 : number -> number.

(** The positive 24h volumes of a list of rows, ascending. *)
Definition positiveVolumes (rows : list MarketRow) : list number :=
  sortBy (fun a b => sub a b)
         (List.filter (fun v => gt v zero)
                      (List.map (fun m => default zero (volume24hUsd m)) rows)).

(** The [baselineVol] memo: the median volume of the filtered market, 0
    if no row has a positive volume. *)
Definition baselineVol (filteredMarket : list MarketRow) : number :=
  let vols := positiveVolumes filteredMarket in
  match vols with
  | [] => zero
  | _ => nth (Nat.div (length vols) 2) vols NaN
  end.

(** The [setups] memo, best combined score first; the order is the
    engine's own only when no score is NaN, see [insertSorted]. *)
Definition setups (a : App.t) (filteredMarket : list MarketRow) : list SetupRow.t :=
  sortBy (fun x y => sub (combinedScore (SetupRow.score y))
                         (combinedScore (SetupRow.score x)))
         (List.map (setupOf log10 a (baselineVol filteredMarket)) filteredMarket).

Definition isValid (q : EntryQuality) : bool :=
  match q with VALID => true | _ => false end.

Definition scannerBest (a : App.t) (filteredMarket : list MarketRow) : list SetupRow.t :=
  firstn 8
    (List.filter
       (fun s => ge (combinedScore (SetupRow.score s)) (ofZ 70)
                 && ge (score1h (SetupRow.score s)) (ofZ 65)
                 && ge (volFactor (SetupRow.score s)) (dec 13 10))
       (List.filter (fun s => isOk (SetupRow.structureLabel s))
          (List.filter (fun s => isValid (SetupRow.entryQuality s))
             (setups a filteredMarket)))).

(** [scannerBest[0] ?? setups[0]] *)
Definition bestSetup (a : App.t) (filteredMarket : list MarketRow) : option SetupRow.t :=
  match scannerBest a filteredMarket with
  | s :: _ => Some s
  | [] => head (setups a filteredMarket)
  end.

End Desk.

(** ** The banner *)

Definition toneRed : string := "#ffb6b6".
Definition toneAmber : string := "#f2e7cd".
Definition toneGreen : string := "#82f0b9".

Definition isSelective (s : SessionStatus) : bool :=
  match s with SELECTIVE => true | _ => false end.

(** [processMessage]: the colour and the text of the banner. *)
Definition processMessage (a : App.t) : string * string :=
  if commitRequired a then (toneRed, "Commit today’s rules before you trade.")
  else if DayState.locked (App.dayState a) then
    (toneRed, default "Session locked — stop trading."
                      (DayState.lockedReason (App.dayState a)))
  else if isWait (status (App.sessionInfo a)) && negb (App.overrideGuard a) then
    (toneRed, "WAIT window — protect capital. Don’t force entries.")
  else if negb (sessionAllowedByCommit a) && negb (App.overrideGuard a) then
    (toneRed, "This session isn’t in your plan. Wait for your allowed window.")
  else if isSelective (status (App.sessionInfo a)) then
    (toneAmber, "Selective window — A+ only. One clean setup beats five weak ones.")
  else (toneGreen, "Trade window — execute your rules, not your emotions.").

(** ** Position sizing *)

Definition riskAmount (accountUsd riskPct : number) : number :=
  div (mul accountUsd riskPct) (ofZ 100).

Definition stopDistanceLong (entryPrice stopPrice : number) : number :=
  max2 zero (sub entryPrice stopPrice).

Definition stopDistanceShort (entryPrice stopPrice : number) : number :=
  max2 zero (sub stopPrice entryPrice).

Definition positionSizeLong (accountUsd riskPct entryPrice stopPrice : number) : number :=
  if le (stopDistanceLong entryPrice stopPrice) zero then zero
  else div (riskAmount accountUsd riskPct) (stopDistanceLong entryPrice stopPrice).

Definition positionSizeShort (accountUsd riskPct entryPrice stopPrice : number) : number :=
  if le (stopDistanceShort entryPrice stopPrice) zero then zero
  else div (riskAmount accountUsd riskPct) (stopDistanceShort entryPrice stopPrice).

Definition tp1Long (entryPrice stopPrice : number) : number :=
  if gt (stopDistanceLong entryPrice stopPrice) zero
  then add entryPrice (mul (stopDistanceLong entryPrice stopPrice) (ofZ 1)) else zero.

Definition tp2Long (entryPrice stopPrice : number) : number :=
  if gt (stopDistanceLong entryPrice stopPrice) zero
  then add entryPrice (mul (stopDistanceLong entryPrice stopPrice) (ofZ 2)) else zero.

Definition tp1Short (entryPrice stopPrice : number) : number :=
  if gt (stopDistanceShort entryPrice stopPrice) zero
  then sub entryPrice (mul (stopDistanceShort entryPrice stopPrice) (ofZ 1)) else zero.

Definition tp2Short (entryPrice stopPrice : number) : number :=
  if gt (stopDistanceShort entryPrice stopPrice) zero
  then sub entryPrice (mul (stopDistanceShort entryPrice stopPrice) (ofZ 2)) else zero.

(** ** The clock: day keys and the countdown

    Hours, minutes, seconds and milliseconds are whole numbers, and so
    is a difference of two [Date.getTime()] values; on them the
    arithmetic of the program is exact. *)

(** [`${n}`] for a whole number [n]. *)
Definition showInt (n : Z) : string := pretty n.

Definition pad2 (n : Z) : string :=
  if n <? 10 then "0" +:+ showInt n else showInt n.

Definition msToCountdown (ms : Z) : string :=
  if ms <=? 0 then "00:00:00"
  else
    let totalSec := ms / 1000 in
    let h := totalSec / 3600 in
    let m := (totalSec mod 3600) / 60 in
    let s := totalSec mod 60 in
    pad2 h +:+ ":" +:+ pad2 m +:+ ":" +:+ pad2 s.

(** [dayKeyLocal] from [getFullYear()], [getMonth()] and [getDate()]. *)
Definition dayKeyLocal (fullYear month date : Z) : string :=
  showInt fullYear +:+ "-" +:+ pad2 (month + 1) +:+ "-" +:+ pad2 date.

(** The arguments of the [makeNext] call that sets [nextChangeAt]: the
    local time of day and the days added to today. *)
Record NextChange := { targetHour : Z; targetMin : Z; addDays : Z }.

Definition makeNext (targetHour targetMin addDays : Z) : NextChange :=
  {| targetHour := targetHour; targetMin := targetMin; addDays := addDays |}.

(** [nextChangeAt] of [computeSession], from the local hour and minute. *)
Definition nextChangeAt (hours minutes : Z) : NextChange :=
  let curMinutes := hours * 60 + minutes in
  let B_ASIA := 7 * 60 in
  let B_EU := 16 * 60 in
  let B_OVERLAP := 21 * 60 in
  let B_0100 := 1 * 60 in
  let B_US_END := 6 * 60 in
  let B_OFF_END := 7 * 60 in
  if (B_ASIA <=? curMinutes) && (curMinutes <? B_EU) then makeNext 16 0 0
  else if (B_EU <=? curMinutes) && (curMinutes <? B_OVERLAP) then makeNext 21 0 0
  else if (B_OVERLAP <=? curMinutes) || (curMinutes <? B_0100) then
    if B_OVERLAP <=? curMinutes then makeNext 1 0 1 else makeNext 1 0 0
  else if (B_0100 <=? curMinutes) && (curMinutes <? B_US_END) then makeNext 6 0 0
  else if (B_US_END <=? curMinutes) && (curMinutes <? B_OFF_END) then makeNext 7 0 0
  else if curMinutes <? B_ASIA then makeNext 7 0 0 else makeNext 16 0 0.

(** [nextChangeAt.getTime() - now.getTime()], for [now] at the local time
    [hours:minutes:seconds.millis], on days of 24 hours. *)
Definition msToNextChange (hours minutes seconds millis : Z) : Z :=
  let nc := nextChangeAt hours minutes in
  ((addDays nc * 24 + targetHour nc) * 60 + targetMin nc) * 60000
  - (((hours * 60 + minutes) * 60 + seconds) * 1000 + millis).

(** The [countdown] of [computeSession]. *)
Definition countdown (hours minutes seconds millis : Z) : string :=
  msToCountdown (msToNextChange hours minutes seconds millis).

(** ** The candle proxy

    The serverless function behind [fetchCoinbase1hCandles]. *)

Module Proxy.

Record Query := { symbol : option string; limit : option string }.

(** The text of a response that is not ok, as the UTF-16 code units of
    the JavaScript string: the units that [slice] counts. *)
Definition CodeUnits := list N.

(** What [fetch] and [res.json()] give: an exception, a response that is
    not ok, or the rows, each with its [Number(r?.[1])] and
    [Number(r?.[2])]. *)
Inductive Fetched :=
| Throws (message : option string)
| NotOk (status : Z) (text : CodeUnits)
| Rows (rows : list (number * number)).

Inductive Body :=
| ErrorBody (error : string)
| UpstreamErrorBody (error : string) (details : CodeUnits) (productId : string)
| NoDataBody (error productId : string)
| CandlesBody (symbol productId : string) (candles : list Candle1h).

Record Reply := { statusCode : Z; body : Body }.

Definition json (statusCode : Z) (body : Body) : Reply :=
  {| statusCode := statusCode; body := body |}.

Definition isUpperOrDigit (c : Ascii.ascii) : bool :=
  let n := Ascii.nat_of_ascii c in
  ((65 <=? n)%nat && (n <=? 90)%nat) || ((48 <=? n)%nat && (n <=? 57)%nat).

(** [/^[A-Z0-9]{2,15}$/.test(s)] *)
Definition symbolPattern (s : string) : bool :=
  (2 <=? String.length s)%nat && (String.length s <=? 15)%nat
  && forallb isUpperOrDigit (String.list_ascii_of_string s).

(** [Math.max(10, Math.min(isFinite(limitRaw) ? limitRaw : 240, 300))] *)
Definition requestLimit (limitRaw : number) : number :=
  max2 (ofZ 10) (min2 (if isFinite limitRaw then limitRaw else ofZ 240) (ofZ 300)).

Definition finiteCandle (c : Candle1h) : bool := isFinite (h c) && isFinite (l c).

(** The rows as candles, the rows without a finite high and low left
    out, oldest first. *)
Definition normalize (rows : list (number * number)) : list Candle1h :=
  rev (List.filter finiteCandle
         (List.map (fun r => {| l := fst r; h := snd r |}) rows)).

Section Handler.

Variable toUpperCase : string -> string.
Variable trim : string -> string.
(** [Number(s)] on a string. *)
Variable Number_ : string -> number.
(** The request to the exchange, by product and limit. *)
Variable fetch : string -> number -> Fetched.

Definition symbolRaw (q : Query) : string := trim (toUpperCase (default "" (symbol q))).

(** [Number(event.queryStringParameters?.limit ?? 240)] *)
Definition limitRaw (q : Query) : number :=
  match limit q with Some s => Number_ s | None => ofZ 240 end.

(** The [details] of a failed answer are [text.slice(0, 300)], its first
    300 code units. *)
Definition handler (q : Query) : Reply :=
  if negb (truthyString (symbolRaw q)) || negb (symbolPattern (symbolRaw q)) then
    json 400 (ErrorBody "Missing/invalid symbol")
  else
    let limit := requestLimit (limitRaw q) in
    let productId := symbolRaw q +:+ "-USD" in
    match fetch productId limit with
    | Throws message => json 500 (ErrorBody (default "Unhandled error" message))
    | NotOk status text =>
        json 502 (UpstreamErrorBody ("Coinbase candles error " +:+ showInt status)
                                    (firstn 300 text) productId)
    | Rows rows =>
        let candles := normalize rows in
        match candles with
        | [] => json 404 (NoDataBody "No candle data returned" productId)
        | _ => json 200 (CandlesBody (symbolRaw q) productId candles)
        end
    end.

End Handler.

End Proxy.

(** ** Commands with the effect they trigger *)

Section Stepping.

Variable toFixed : number -> nat -> string.
Variable numToString : number -> string.
Variable trim : string -> string.
Variable stringifyCommit : CommitConfig -> string.
Variable stringifyDayState : DayState.t -> string.

(** A command followed by the auto-lock effect, which runs after every
    change of the ledger, the commitment or the lock. *)
Definition step (c : Command) (a : App.t) : App.t :=
  autoLock toFixed numToString
    (run toFixed numToString trim stringifyCommit stringifyDayState c a).

End Stepping.

Definition isCommitToday (c : Command) : bool :=
  match c with CmdCommitToday _ => true | _ => false end.

(** ** Specification vocabulary *)

(** The least exponent of the format, -1074. *)
Definition emin : Z := SpecFloat.emin prec emax.

(** The value of a number in units of [2^emin], the infinities lying
    beyond every finite value. *)
Definition units (x : number) : Z :=
  match x with
  | S754_zero _ | S754_nan => 0
  | S754_infinity s => cond_Zopp s (2 ^ 2098)
  | S754_finite s m e => cond_Zopp s (Zpos m * 2 ^ (e - emin))
  end.

(** A zero, or a number whose sign bit is clear. *)
Definition nonneg (x : number) : bool :=
  match x with
  | S754_zero _ => true
  | S754_infinity s | S754_finite s _ _ => negb s
  | S754_nan => false
  end.

(** The sign carried by a rounded result. *)
Definition signed (s : bool) (x : number) : Prop :=
  match x with
  | S754_zero s' | S754_infinity s' | S754_finite s' _ _ => s' = s
  | S754_nan => False
  end.

(** The sign carried by a rounded result that is not a zero. *)
Definition signedNonzero (s : bool) (x : number) : Prop :=
  match x with
  | S754_infinity s' | S754_finite s' _ _ => s' = s
  | _ => False
  end.

(** [lo <= x && x <= hi] *)
Definition within (lo hi x : number) : bool := le lo x && le x hi.

(** An integer-valued number. *)
Definition isInteger (x : number) : bool :=
  match x with
  | S754_zero _ => true
  | S754_finite _ m e => (0 <=? e) || (Zpos m mod 2 ^ (- e) =? 0)
  | _ => false
  end.

(** A comparator that orders a list as an integer rank does. *)
Definition ranked {A} (cmp : A -> A -> number) (rank : A -> Z) (xs : list A) : Prop :=
  forall x y, In x xs -> In y xs -> gt (cmp x y) zero = (rank y <? rank x).

Definition validZone (z : Zone) : Prop := valid (price z) = true.

(** A resistance above the price and at most 15% above it. *)
Definition inReach (lastPrice : number) (r : Zone) : bool :=
  gt (price r) lastPrice && le (sub (price r) lastPrice) (mul lastPrice (dec 15 100)).

(** [(r.price - lastPrice) / risk] *)
Definition ratio (lastPrice risk : number) (r : Zone) : number :=
  div (sub (price r) lastPrice) risk.

(** A recorded loss: a trade with a negative R. *)
Definition isLoss (t : TradeRecord.t) : bool := lt (TradeRecord.r t) zero.

(** Every recorded R multiple is a finite number. *)
Definition ledgerFinite (a : App.t) : Prop :=
  Forall (fun t => isFinite (TradeRecord.r t) = true) (DayState.trades (App.dayState a)).

(** The guard under a trade cap of [k] trades: no commitment, or today's
    with that cap; at most [k] trades are recorded, and fewer while the
    log dialog is open or the committed day is unlocked. *)
Definition underCap (k : Z) (a : App.t) : Prop :=
  (App.commit a = None \/
   exists c, App.commit a = Some c /\ maxTrades c = ofZ k /\ dayKey c = App.todayKey a) /\
  let n := Z.of_nat (length (DayState.trades (App.dayState a))) in
  n <= k /\
  (LogForm.logOpen (App.log a) = true -> n < k) /\
  (App.commit a <> None -> DayState.locked (App.dayState a) = false -> n < k).

(** [candles[i]] is a strict local maximum of the highs, a strict local
    minimum of the lows. *)
Definition pivotHigh (candles : list Candle1h) (i : nat) : bool :=
  gt (h (nth i candles noCandle)) (h (nth (i - 1) candles noCandle))
  && gt (h (nth i candles noCandle)) (h (nth (i + 1) candles noCandle)).

Definition pivotLow (candles : list Candle1h) (i : nat) : bool :=
  lt (l (nth i candles noCandle)) (l (nth (i - 1) candles noCandle))
  && lt (l (nth i candles noCandle)) (l (nth (i + 1) candles noCandle)).

(** The indices the pivot loop visits. *)
Definition interior (candles : list Candle1h) (i : nat) : Prop :=
  (2 <= i /\ i + 2 < length candles)%nat.

(** The zones of a list are pairwise different map keys. *)
Definition distinctZones (zs : list Zone) : Prop :=
  ForallOrdPairs (fun a b => sameValueZero (price a) (price b) = false) zs.

(** The keys of a [Map], and the map [countZones] builds from [init]. *)
Definition keysOf (m : list (number * number)) : list number := List.map fst m.

Definition zoneMap (arr : list number) (init : list (number * number))
  : list (number * number) :=
  fold_left
    (fun map p => mapSet (zone p) (add (default zero (mapGet (zone p) map)) (ofZ 1)) map)
    arr init.

(** The verdict without a support. *)
Definition waitNoSupport : StructureResult :=
  {| ok := false; label := S_WAIT;
     reasons := ["No support below — stop is guesswork."];
     support := None; resistance := None; roomTo2R := None;
     source := BINANCE_1H |}.

(** A quoted price: a positive finite binary64 value. *)
Definition quoted (p : number) : Prop :=
  valid p = true /\ isFinite p = true /\ gt p zero = true.

(** The session at a minute counted from a midnight. *)
Definition sessionAtMinute (t : Z) : SessionInfo :=
  computeSession ((t mod 1440) / 60) (t mod 60).

(** Two decimal digits. *)
Definition digit (n : Z) : Ascii.ascii := Ascii.ascii_of_nat (48 + Z.to_nat n).

Definition twoDigits (n : Z) : string :=
  String (digit (n / 10)) (String (digit (n mod 10)) "").

(** A row whose 24h change and volume are finite binary64 values (a
    missing one counts as 0). *)
Definition scorable (m : MarketRow) : Prop :=
  valid (default zero (change24h m)) = true /\
  isFinite (default zero (change24h m)) = true /\
  isFinite (default zero (volume24hUsd m)) = true.

(** A list in descending order of a score. *)
Definition bestFirst {A} (score : A -> number) (xs : list A) : Prop :=
  StronglySorted (fun x y => ge (score x) (score y) = true) xs.

(** ** Sample inputs *)

(** Stand-ins for the runtime's functions, to evaluate the engine on
    concrete inputs. *)
Definition toFixed_stub (x : number) (digits : nat) : string := "?".
Definition numToString_stub (x : number) : string := "?".
Definition trim_stub (s : string) : string := s.
Definition stringifyCommit_stub (c : CommitConfig) : string := dayKey c.
Definition stringifyDayState_stub (d : DayState.t) : string := DayState.dayKey d.

(** A series whose last step is a 3.5% drop, that stands 22.8% under its
    6h high and 114% over its 6h low. *)
Definition dumpSeries : list number := [ofZ 90; ofZ 250; ofZ 200; ofZ 193].

(** [defaultCommit(dayKey)], with the time of its creation. *)
Definition defaultCommit (dayKey nowIso : string) : CommitConfig :=
  {| dayKey := dayKey; committedAtIso := nowIso;
     maxTrades := ofZ 2; maxDailyLossR := ofZ 2; maxConsecutiveLosses := ofZ 2;
     riskPct := ofZ 2;
     allowAsia := false; allowEurope := true; allowUS := true;
     allowOverlap := true; allowOffPeak := false |}.

(** A committed day at 17:30 that was ended by hand while the log dialog
    stood open with a valid long trade: entry 100, stop 95, exit 110. *)
Definition lockedWithOpenLog : App.t :=
  {| App.todayKey := "2025-03-01";
     App.sessionInfo := computeSession 17 30;
     App.overrideGuard := false;
     App.commit := Some (defaultCommit "2025-03-01" "2025-03-01T08:00:00.000Z");
     App.dayState :=
       DayState.lock "Manual END SESSION — you chose capital protection."
                     (DayState.fresh "2025-03-01");
     App.commitDraft := defaultCommit "2025-03-01" "2025-03-01T08:00:00.000Z";
     App.log :=
       {| LogForm.logOpen := true; LogForm.logSide := LONG;
          LogForm.logEntry := ofZ 100; LogForm.logStop := ofZ 95;
          LogForm.logExit := ofZ 110;
          LogForm.logRulesFollowed := true; LogForm.logNote := "" |};
     App.sizing :=
       {| Sizing.focusSymbol := "SOL"; Sizing.riskPct := ofZ 2;
          Sizing.entryPrice := ofZ 100; Sizing.stopPrice := ofZ 95 |};
     App.scan :=
       {| Scan.market := []; Scan.microMap := ∅; Scan.structMap := ∅;
          Scan.error := None |};
     App.localStorage := ∅ |}.

(** A scanner row with a valid entry and an OK structure. *)
Definition cleanSetup : SetupRow.t :=
  {| SetupRow.symbol := "SOL";
     SetupRow.score :=
       {| combinedScore := ofZ 75; score15m := ofZ 75; score1h := ofZ 75;
          volFactor := ofZ 2; why := ["Tradable activity"] |};
     SetupRow.entryQuality := VALID; SetupRow.whyNot := [];
     SetupRow.structureLabel := S_OK; SetupRow.structureWhy := [];
     SetupRow.structureSource := BINANCE_1H |}.

(** A stored commitment of another day, and a parser that reads it. *)
Definition staleStore : gmap string string :=
  {[ LS_COMMIT := "{stale commit}"; LS_DAYSTATE := "{stale day}" ]}.

Definition staleRecord : json :=
  JObject [("dayKey", JString "2025-02-28"); ("locked", JBool true);
           ("trades", JArray [JNull])].

Definition JSON_parse_stub (raw : string) : option json :=
  if String.eqb raw "{stale commit}" || String.eqb raw "{stale day}"
  then Some staleRecord else None.

(** A row with an extreme fall and no volume. *)
Definition crashedRow : MarketRow :=
  {| symbol := "XYO"; cgId := Some "xyo-network"; name := None;
     priceUsd := Some (dec 1 1000); change24h := Some (ofZ (-250));
     volume24hUsd := Some zero |}.

(** A coarse stand-in for [Math.log10] on the positive numbers: the
    position of the leading bit, scaled by log10(2). *)
Definition log10_stub (x : number) : number :=
  match x with
  | S754_nan => NaN
  | S754_zero _ => NegInfinity
  | S754_infinity s => if s then NaN else Infinity
  | S754_finite s m e =>
      if s then NaN
      else mul (ofZ (Z.log2 (Zpos m) + e)) (dec 30103 100000)
  end.

(** The levels of the test of the specification: supports at 100 (two
    touches) and 99, resistances at 106 (two touches) and 101; the price
    stands at 100.5. *)
Definition sampleLevels : Levels :=
  {| supports := [{| price := ofZ 100; strength := ofZ 2 |};
                  {| price := ofZ 99; strength := ofZ 1 |}];
     resistances := [{| price := ofZ 106; strength := ofZ 2 |};
                     {| price := ofZ 101; strength := ofZ 1 |}] |}.

(** A draft with a zero trade cap, a negative loss cap and 2.7 losses. *)
Definition sloppyDraft : CommitConfig :=
  {| dayKey := "2025-02-28"; committedAtIso := "";
     maxTrades := zero; maxDailyLossR := ofZ (-3);
     maxConsecutiveLosses := dec 27 10; riskPct := ofZ 50;
     allowAsia := false; allowEurope := true; allowUS := true;
     allowOverlap := true; allowOffPeak := false |}.

Definition draftingApp (draft : CommitConfig) : App.t :=
  {| App.todayKey := "2025-03-01";
     App.sessionInfo := computeSession 17 30;
     App.overrideGuard := false;
     App.commit := None;
     App.dayState := DayState.fresh "2025-03-01";
     App.commitDraft := draft;
     App.log :=
       {| LogForm.logOpen := false; LogForm.logSide := LONG;
          LogForm.logEntry := zero; LogForm.logStop := zero;
          LogForm.logExit := zero;
          LogForm.logRulesFollowed := true; LogForm.logNote := "" |};
     App.sizing :=
       {| Sizing.focusSymbol := "SOL"; Sizing.riskPct := ofZ 2;
          Sizing.entryPrice := zero; Sizing.stopPrice := zero |};
     App.scan :=
       {| Scan.market := []; Scan.microMap := ∅; Scan.structMap := ∅;
          Scan.error := None |};
     App.localStorage := ∅ |}.

(** Seven candles of a steady rise. *)
Definition risingCandles : list Candle1h :=
  List.map (fun k => {| h := ofZ (k + 1); l := ofZ k |}) [10; 11; 12; 13; 14; 15; 16].

(** A scanned desk: SOL with a strong tape, an OK structure and no micro
    metrics yet; DOGE and XRP without a structure result. *)
Definition solRow : MarketRow :=
  {| symbol := "SOL"; cgId := Some "solana"; name := Some "Solana";
     priceUsd := Some (ofZ 150); change24h := Some (ofZ 9);
     volume24hUsd := Some (ofZ 4000) |}.

Definition dogeRow : MarketRow :=
  {| symbol := "DOGE"; cgId := Some "dogecoin"; name := None;
     priceUsd := Some (dec 1 10); change24h := Some (ofZ 1);
     volume24hUsd := Some (ofZ 1000) |}.

Definition xrpRow : MarketRow :=
  {| symbol := "XRP"; cgId := Some "ripple"; name := None;
     priceUsd := Some (dec 5 10); change24h := Some (ofZ (-2));
     volume24hUsd := Some (ofZ 500) |}.

Definition scannedDesk : App.t :=
  App.set_scan
    {| Scan.market := [solRow; dogeRow; xrpRow];
       Scan.microMap := ∅;
       Scan.structMap :=
         {[ "SOL" := {| ok := true; label := S_OK; reasons := [];
                        support := Some (ofZ 145); resistance := Some (ofZ 165);
                        roomTo2R := Some (ofZ 3); source := BINANCE_1H |} ]};
       Scan.error := None |}
    (draftingApp (defaultCommit "2025-03-01" "")).

(** A watchlist of two coins and a snapshot source whose hourly prices
    load for the first only. *)
Definition twoCoins : list Coin.t :=
  [ {| Coin.symbol := "SOL"; Coin.cgId := Some "solana"; Coin.name := Some "Solana" |};
    {| Coin.symbol := "DOGE"; Coin.cgId := Some "dogecoin"; Coin.name := None |} ].

Definition halfUpstream : Upstream.t :=
  {| Upstream.markets :=
       inl [ {| CgRow.id := "solana"; CgRow.symbol := "sol"; CgRow.name := Some "Solana";
                CgRow.current_price := Some (ofZ 150);
                CgRow.price_change_percentage_24h := Some (ofZ 9);
                CgRow.total_volume := Some (ofZ 4000) |};
             {| CgRow.id := "dogecoin"; CgRow.symbol := "doge"; CgRow.name := Some "Dogecoin";
                CgRow.current_price := Some (dec 1 10);
                CgRow.price_change_percentage_24h := Some (ofZ 1);
                CgRow.total_volume := Some (ofZ 1000) |} ];
     Upstream.hourly :=
       fun id => if String.eqb id "solana" then Some [ofZ 149; ofZ 150] else None;
     Upstream.candles1h := fun _ => None |}.

Definition toUpperCase_stub (s : string) : string := s.

(** An entry of 100 and a stop of 95 typed in the calculator. *)
Definition typePrices (a : App.t) : App.t :=
  App.set_sizing
    (Sizing.set_stopPrice (ofZ 95) (Sizing.set_entryPrice (ofZ 100) (App.sizing a))) a.

Definition Number_stub (s : string) : number :=
  if String.eqb s "240" then ofZ 240 else NaN.

(** An exchange that answers every request with three rows, the middle
    one without a usable low. *)
Definition threeRows (productId : string) (limit : number) : Proxy.Fetched :=
  Proxy.Rows [(ofZ 99, ofZ 103); (NaN, ofZ 102); (ofZ 97, ofZ 101)].

Definition solQuery : Proxy.Query :=
  {| Proxy.symbol := Some "SOL"; Proxy.limit := Some "240" |}.

(** A day of hourly prices standing at 150. *)
Definition flatDay : list number := repeat (ofZ 150) 24.

(** A parser that reads a record whose [dayKey] is the text itself: the
    inverse of the two stand-ins for [JSON.stringify]. *)
Definition JSON_parse_echo (raw : string) : option json :=
  Some (JObject [("dayKey", JString raw)]).

(** A committed, unlocked day at 17:30 with an empty ledger and the log
    dialog open on a long trade that lost: entry 100, stop 98, exit 95. *)
Definition tradingDay : App.t :=
  {| App.todayKey := "2025-03-01";
     App.sessionInfo := computeSession 17 30;
     App.overrideGuard := false;
     App.commit := Some (defaultCommit "2025-03-01" "2025-03-01T08:00:00.000Z");
     App.dayState := DayState.fresh "2025-03-01";
     App.commitDraft := defaultCommit "2025-03-01" "2025-03-01T08:00:00.000Z";
     App.log :=
       {| LogForm.logOpen := true; LogForm.logSide := LONG;
          LogForm.logEntry := ofZ 100; LogForm.logStop := ofZ 98;
          LogForm.logExit := ofZ 95;
          LogForm.logRulesFollowed := true; LogForm.logNote := "" |};
     App.sizing :=
       {| Sizing.focusSymbol := "SOL"; Sizing.riskPct := ofZ 2;
          Sizing.entryPrice := ofZ 100; Sizing.stopPrice := ofZ 98 |};
     App.scan :=
       {| Scan.market := []; Scan.microMap := ∅; Scan.structMap := ∅;
          Scan.error := None |};
     App.localStorage := ∅ |}.

(** Three attempts to log a trade in a row. *)
Definition threeSaves : list Command :=
  [CmdSaveTrade "t1" "2025-03-01T17:31:00.000Z"; CmdLogTradeClick;
   CmdSaveTrade "t2" "2025-03-01T17:35:00.000Z"; CmdLogTradeClick;
   CmdSaveTrade "t3" "2025-03-01T17:40:00.000Z"].

(** * Properties *)

(** ** Facts about binary64 arithmetic *)

(** *** Rounding never yields NaN and keeps the sign *)

Lemma iter_pos_inv {A} (P : A -> Prop) (f : A -> A) :
  (forall x, P x -> P (f x)) -> forall p x, P x -> P (SpecFloat.iter_pos f p x).
Proof.
  intros Hf. induction p as [p IH|p IH|]; intros x Hx; cbn; auto.
Qed.

Lemma shr_1_nonneg mrs : 0 <= shr_m mrs -> 0 <= shr_m (shr_1 mrs).
Proof.
  destruct mrs as [m r s]. cbn. destruct m as [|[p|p|]|[p|p|]]; cbn; lia.
Qed.

Lemma shr_nonneg mrs e n : 0 <= shr_m mrs -> 0 <= shr_m (fst (shr mrs e n)).
Proof.
  intros H. destruct n; cbn; auto.
  apply (iter_pos_inv (fun x => 0 <= shr_m x)); auto using shr_1_nonneg.
Qed.

Lemma shr_record_of_loc_m m l : shr_m (shr_record_of_loc m l) = m.
Proof. destruct l as [|[]]; reflexivity. Qed.

Lemma shr_fexp_nonneg m e l : 0 <= m -> 0 <= shr_m (fst (shr_fexp prec emax m e l)).
Proof.
  intros H. unfold shr_fexp. apply shr_nonneg. now rewrite shr_record_of_loc_m.
Qed.

Lemma round_nearest_even_nonneg m l : 0 <= m -> 0 <= round_nearest_even m l.
Proof.
  intros H. destruct l as [|[]]; cbn; try lia. destruct (Z.even m); lia.
Qed.

(** Rounding a mantissa that is not negative gives a zero, a finite
    number or an infinity of the sign asked for. *)
Lemma binary_round_aux_signed s m e l :
  0 <= m -> signed s (binary_round_aux prec emax s m e l).
Proof.
  intros H. unfold binary_round_aux.
  pose proof (shr_fexp_nonneg m e l H) as H1.
  destruct (shr_fexp prec emax m e l) as [mrs' e']. cbn [fst] in H1.
  pose proof (shr_fexp_nonneg _ e' loc_Exact
                (round_nearest_even_nonneg _ (loc_of_shr_record mrs') H1)) as H2.
  destruct (shr_fexp prec emax (round_nearest_even _ _) e' loc_Exact) as [mrs'' e''].
  cbn [fst] in H2.
  destruct (shr_m mrs''); [reflexivity| |lia].
  destruct (e'' <=? emax - prec)%Z; reflexivity.
Qed.

Lemma binary_round_signed s m e : signed s (binary_round prec emax s m e).
Proof.
  unfold binary_round. destruct (shl_align _ _ _) as [mz ez].
  apply binary_round_aux_signed. lia.
Qed.

Lemma signed_false_nonneg x : signed false x -> nonneg x = true.
Proof. destruct x; cbn; intros H; subst; auto. Qed.

Lemma signed_notNaN s x : signed s x -> isNaN x = false.
Proof. destruct x; cbn; intros H; auto; contradiction. Qed.

Lemma nonneg_notNaN x : nonneg x = true -> isNaN x = false.
Proof. destruct x; cbn; auto; discriminate. Qed.

Lemma binary_normalize_notNaN z e sz : isNaN (binary_normalize prec emax z e sz) = false.
Proof.
  destruct z; cbn; [reflexivity| |]; eapply signed_notNaN, binary_round_signed.
Qed.

Lemma mul_nonneg x y :
  isFinite x = true -> isFinite y = true -> nonneg x = true -> nonneg y = true ->
  nonneg (mul x y) = true.
Proof.
  destruct x as [sx|sx| |sx mx ex], y as [sy|sy| |sy my ey]; cbn;
    try discriminate; auto; intros _ _ Hx Hy.
  apply negb_true_iff in Hx, Hy. subst.
  apply signed_false_nonneg. apply binary_round_aux_signed. lia.
Qed.

Lemma add_nonneg x y : nonneg x = true -> nonneg y = true -> nonneg (add x y) = true.
Proof.
  destruct x as [sx|sx| |sx mx ex], y as [sy|sy| |sy my ey]; cbn;
    try discriminate; auto; intros Hx Hy;
    try (apply negb_true_iff in Hx); try (apply negb_true_iff in Hy); subst; auto.
  - destruct sx, sy; reflexivity.
  - cbn. 
    destruct (shl_align mx ex (Z.min ex ey)) as [a ?], (shl_align my ey (Z.min ex ey)) as [b ?].
    cbn. apply signed_false_nonneg, binary_round_signed.
Qed.

Lemma mul_finite_notNaN x y :
  isFinite x = true -> isFinite y = true -> isNaN (mul x y) = false.
Proof.
  destruct x as [sx|sx| |sx mx ex], y as [sy|sy| |sy my ey]; cbn;
    try discriminate; auto; intros _ _.
  eapply signed_notNaN, binary_round_aux_signed. lia.
Qed.

(** The product with a finite constant other than zero. *)
Lemma mul_const_notNaN x s m e :
  isNaN x = false -> isNaN (mul x (S754_finite s m e)) = false.
Proof.
  destruct x as [sx|sx| |sx mx ex]; cbn; try discriminate; auto; intros _.
  eapply signed_notNaN, binary_round_aux_signed. lia.
Qed.

Lemma add_finite_notNaN x y :
  isFinite x = true -> isNaN y = false -> isNaN (add x y) = false.
Proof.
  destruct x as [sx|sx| |sx mx ex], y as [sy|sy| |sy my ey]; cbn;
    try discriminate; auto; intros _ _.
  - destruct sx, sy; reflexivity.
  - apply binary_normalize_notNaN.
Qed.

Lemma div_eucl_nonneg a b : 0 <= a -> 0 < b -> 0 <= fst (Z.div_eucl a b).
Proof.
  intros Ha Hb. change (fst (Z.div_eucl a b)) with (a / b). apply Z.div_pos; lia.
Qed.

Lemma div_finite_pos_notNaN x y :
  isFinite x = true -> gt y zero = true -> isNaN (div x y) = false.
Proof.
  destruct x as [sx|sx| |sx mx ex], y as [sy|sy| |sy my ey]; cbn;
    try discriminate; auto; intros _ _.
  unfold SFdiv_core_binary.
  set (m' := match _ with Z0 => _ | Zpos _ => _ | Zneg _ => _ end).
  assert (Hm' : 0 <= m').
  { subst m'. destruct (_ - _ - _) eqn:E; try lia. apply Z.shiftl_nonneg. lia. }
  pose proof (div_eucl_nonneg m' (Zpos my) Hm' ltac:(lia)) as Hq.
  destruct (Z.div_eucl m' (Zpos my)) as [q r]. cbn [fst] in Hq.
  eapply signed_notNaN, binary_round_aux_signed. exact Hq.
Qed.

(** *** The order *)

Lemma compare_flip a b c : SFcompare a b = Some c -> SFcompare b a = Some (CompOpp c).
Proof.
  destruct a as [sa|sa| |sa ma ea], b as [sb|sb| |sb mb eb]; cbn;
    intros [= <-]; try (destruct sa); try (destruct sb); try reflexivity.
  - rewrite (Z.compare_antisym ea eb). destruct (ea ?= eb); cbn; try reflexivity.
    change (Pos.compare_cont Eq) with Pos.compare.
    now rewrite (Pos.compare_antisym ma mb), CompOpp_involutive.
  - rewrite (Z.compare_antisym ea eb). destruct (ea ?= eb); cbn; try reflexivity.
    change (Pos.compare_cont Eq) with Pos.compare.
    now rewrite (Pos.compare_antisym ma mb).
Qed.

Lemma compare_notNaN a b : isNaN a = false -> isNaN b = false ->
  exists c, SFcompare a b = Some c.
Proof.
  destruct a, b; cbn; try discriminate; eauto.
Qed.

Lemma compare_refl a : isNaN a = false -> SFcompare a a = Some Eq.
Proof.
  destruct a as [s|s| |s m e]; cbn; try discriminate; auto; destruct s; auto;
    intros _; rewrite Z.compare_refl, Pos.compare_cont_refl; reflexivity.
Qed.

Lemma min2_le_l hi x :
  isNaN hi = false -> isNaN x = false ->
  le (min2 hi x) hi = true /\ isNaN (min2 hi x) = false /\
  (min2 hi x = hi \/ min2 hi x = x).
Proof.
  intros Hh Hx. unfold min2, le, SFleb.
  destruct (compare_notNaN hi x Hh Hx) as [c Hc]. rewrite Hc.
  pose proof (compare_flip _ _ _ Hc) as Hf.
  pose proof (compare_refl hi Hh) as Hr.
  destruct c; cbn in Hf.
  - destruct hi as [[]| | |]; rewrite ?Hr, ?Hf; auto.
  - rewrite Hr. auto.
  - rewrite Hf. auto.
Qed.

Lemma max2_ge_l lo y :
  isNaN lo = false -> isNaN y = false ->
  le lo (max2 lo y) = true /\ isNaN (max2 lo y) = false /\
  (max2 lo y = lo \/ max2 lo y = y).
Proof.
  intros Hl Hy. unfold max2, le, SFleb.
  destruct (compare_notNaN lo y Hl Hy) as [c Hc]. rewrite Hc.
  pose proof (compare_refl lo Hl) as Hr.
  destruct c.
  - destruct lo as [[]| | |]; rewrite ?Hr, ?Hc; auto.
  - rewrite Hc. auto.
  - rewrite Hr. auto.
Qed.

(** [clamp] of a number that is not NaN lies between its bounds. *)
Lemma clamp_bounds x lo hi :
  isNaN x = false -> isNaN lo = false -> le lo hi = true ->
  le lo (clamp x lo hi) = true /\ le (clamp x lo hi) hi = true.
Proof.
  intros Hx Hl Hlh.
  assert (Hh : isNaN hi = false) by (destruct lo, hi; cbn in *; congruence).
  unfold clamp.
  destruct (min2_le_l hi x Hh Hx) as (Hm & Hmn & _).
  destruct (max2_ge_l lo (min2 hi x) Hl Hmn) as (HM & _ & [He | He]);
    rewrite He in *; split; assumption.
Qed.

Lemma between_finite_nonneg x hi :
  isFinite hi = true -> le zero x = true -> le x hi = true ->
  isFinite x = true /\ nonneg x = true.
Proof.
  destruct x as [s|s| |s m e], hi as [sh|sh| |sh mh eh]; cbn; try discriminate; auto;
   destruct s; cbn; try discriminate; auto.
Qed.

(** *** Comparison as comparison of exact values *)

(** A mantissa of [d] binary digits lies in [[2^(d-1), 2^d)]. *)
Lemma digits_bounds (m : positive) :
  2 ^ (Zpos (digits2_pos m) - 1) <= Zpos m < 2 ^ Zpos (digits2_pos m).
Proof.
  change (digits2_pos m) with (Pos.size m).
  pose proof (Pos.size_gt m) as Hg. pose proof (Pos.size_le m) as Hl.
  apply Pos2Z.pos_lt_pos in Hg. apply Pos2Z.pos_le_pos in Hl.
  rewrite Pos2Z.inj_pow in Hg, Hl.
  split; [|exact Hg].
  assert (H2 : 2 ^ Z.pos (Pos.size m) = 2 * 2 ^ (Z.pos (Pos.size m) - 1)).
  { rewrite <- Z.pow_succ_r by lia. f_equal. lia. }
  rewrite H2 in Hl. change (Z.pos m~0) with (2 * Z.pos m) in Hl. lia.
Qed.

(** A finite double: the exponent is in range, the mantissa has at most
    53 digits, and exactly 53 above the least exponent. *)
Lemma valid_finite_inv s m e :
  valid (S754_finite s m e) = true ->
  emin <= e <= emax - prec /\ Zpos (digits2_pos m) <= prec /\
  (emin < e -> Zpos (digits2_pos m) = prec).
Proof.
  unfold valid, valid_binary, bounded, canonical_mantissa, fexp, emin, SpecFloat.emin.
  intros H. apply andb_prop in H as [H1 H2].
  apply Z.eqb_eq in H1. apply Z.leb_le in H2. unfold prec, emax in *. lia.
Qed.

Lemma pow2_pos k : 0 < 2 ^ k \/ k < 0.
Proof. destruct (Z.le_gt_cases 0 k); [left; apply Z.pow_pos_nonneg; lia|right; lia]. Qed.

Lemma units_finite_bounds s m e :
  valid (S754_finite s m e) = true ->
  0 < Zpos m * 2 ^ (e - emin) < 2 ^ 2098.
Proof.
  intros H. apply valid_finite_inv in H as ((He1 & He2) & Hd & _).
  pose proof (digits_bounds m) as [_ Hm].
  assert (Hm53 : Zpos m < 2 ^ 53).
  { eapply Z.lt_le_trans; [exact Hm|]. apply Z.pow_le_mono_r; unfold prec in *; lia. }
  assert (Hk : 0 < 2 ^ (e - emin)) by (apply Z.pow_pos_nonneg; lia).
  assert (Hk2 : 2 ^ (e - emin) <= 2 ^ 2045).
  { apply Z.pow_le_mono_r; unfold emin, SpecFloat.emin, prec, emax in *; lia. }
  split; [lia|].
  replace (2 ^ 2098) with (2 ^ 53 * 2 ^ 2045) by (rewrite <- Z.pow_add_r by lia; reflexivity).
  assert (0 < 2 ^ 53) by reflexivity.
  nia.
Qed.

Lemma units_lt_exp m1 e1 m2 e2 :
  valid (S754_finite false m1 e1) = true -> valid (S754_finite false m2 e2) = true ->
  e1 < e2 -> Zpos m1 * 2 ^ (e1 - emin) < Zpos m2 * 2 ^ (e2 - emin).
Proof.
  intros H1 H2 Hlt.
  apply valid_finite_inv in H1 as ((He1 & _) & Hd1 & _).
  apply valid_finite_inv in H2 as ((He2 & _) & _ & Hd2).
  specialize (Hd2 ltac:(lia)).
  pose proof (digits_bounds m1) as [_ Hm1]. pose proof (digits_bounds m2) as [Hm2 _].
  rewrite Hd2 in Hm2.
  assert (Hm1' : Zpos m1 < 2 ^ prec).
  { eapply Z.lt_le_trans; [exact Hm1|]. apply Z.pow_le_mono_r; unfold prec in *; lia. }
  replace (e2 - emin) with ((e2 - e1) + (e1 - emin)) by lia.
  rewrite Z.pow_add_r by lia.
  assert (Hk : 0 < 2 ^ (e1 - emin)) by (apply Z.pow_pos_nonneg; lia).
  assert (Hj : 2 ^ 1 <= 2 ^ (e2 - e1)) by (apply Z.pow_le_mono_r; lia).
  change (2 ^ 1) with 2 in Hj.
  assert (Hp : 2 ^ prec = 2 * 2 ^ (prec - 1)) by reflexivity.
  assert (HP : 0 < 2 ^ (prec - 1)) by reflexivity.
  rewrite Hp in Hm1'.
  set (P := 2 ^ (prec - 1)) in *. set (K := 2 ^ (e1 - emin)) in *.
  set (J := 2 ^ (e2 - e1)) in *.
  apply Z.lt_le_trans with (2 * P * K).
  - apply Z.mul_lt_mono_pos_r; lia.
  - rewrite Z.mul_assoc. apply Z.mul_le_mono_nonneg_r; [lia|]. nia.
Qed.

Lemma compare_finite_same_sign m1 e1 m2 e2 :
  valid (S754_finite false m1 e1) = true -> valid (S754_finite false m2 e2) = true ->
  match e1 ?= e2 with
  | Lt => Lt
  | Gt => Gt
  | Eq => Pos.compare_cont Eq m1 m2
  end = (Zpos m1 * 2 ^ (e1 - emin) ?= Zpos m2 * 2 ^ (e2 - emin)).
Proof.
  intros H1 H2. symmetry.
  destruct (Z.compare_spec e1 e2) as [->|Hlt|Hgt].
  - change (Pos.compare_cont Eq m1 m2) with (Zpos m1 ?= Zpos m2).
    apply valid_finite_inv in H2 as ((He2 & _) & _).
    assert (Hk : 0 < 2 ^ (e2 - emin)) by (apply Z.pow_pos_nonneg; lia).
    destruct (Z.compare_spec (Zpos m1) (Zpos m2)) as [Heq|Hl|Hg].
    + rewrite Heq. apply Z.compare_refl.
    + apply Z.compare_lt_iff. nia.
    + apply Z.compare_gt_iff. nia.
  - apply Z.compare_lt_iff. now apply units_lt_exp.
  - apply Z.compare_gt_iff. now apply units_lt_exp.
Qed.

Ltac by_units :=
  f_equal; symmetry;
  first [apply Z.compare_refl
        |apply Z.compare_lt_iff; lia
        |apply Z.compare_gt_iff; lia].

(** On doubles the comparison of the format is the comparison of the
    exact values. *)
Lemma compare_units a b :
  valid a = true -> valid b = true -> isNaN a = false -> isNaN b = false ->
  SFcompare a b = Some (units a ?= units b).
Proof.
  assert (Hbig : 0 < 2 ^ 2098) by reflexivity.
  destruct a as [sa|sa| |sa ma ea], b as [sb|sb| |sb mb eb];
    intros Ha Hb Hna Hnb; try discriminate; cbn [SFcompare units];
    try pose proof (units_finite_bounds _ _ _ Ha);
    try pose proof (units_finite_bounds _ _ _ Hb);
    try (destruct sa); try (destruct sb); cbn [cond_Zopp]; try by_units.
  - f_equal. rewrite Z.compare_opp.
    rewrite <- (compare_finite_same_sign mb eb ma ea) by assumption.
    rewrite (Z.compare_antisym ea eb). destruct (ea ?= eb); cbn; try reflexivity.
    change (Pos.compare_cont Eq) with Pos.compare.
    now rewrite (Pos.compare_antisym ma mb).
  - f_equal. now apply compare_finite_same_sign.
Qed.

(** *** Shifts *)

Lemma iter_pos_eq {A} (f : A -> A) p x : SpecFloat.iter_pos f p x = Pos.iter f x p.
Proof.
  revert x. induction p as [p IH|p IH|]; intros x; cbn; auto.
  - rewrite !IH. now rewrite <- !Pos.iter_swap.
  - now rewrite !IH.
Qed.

Lemma shr_1_div2 mrs : 0 <= shr_m mrs -> shr_m (shr_1 mrs) = shr_m mrs / 2.
Proof.
  destruct mrs as [m r s]. cbn [shr_m]. intros H.
  rewrite <- Z.div2_div. destruct m as [|[p|p|]|p]; try reflexivity; lia.
Qed.

Lemma shr_m_iter q mrs :
  0 <= shr_m mrs ->
  shr_m (SpecFloat.iter_pos shr_1 q mrs) = shr_m mrs / 2 ^ Zpos q.
Proof.
  intros H. rewrite iter_pos_eq.
  induction q as [|q IH] using Pos.peano_ind.
  - cbn [Pos.iter]. now rewrite shr_1_div2.
  - rewrite Pos.iter_succ, shr_1_div2.
    + rewrite IH, Pos2Z.inj_succ, Z.pow_succ_r by lia.
      rewrite Z.div_div by (try apply Z.pow_pos_nonneg; lia).
      f_equal. lia.
    + rewrite IH. apply Z.div_pos; [lia|apply Z.pow_pos_nonneg; lia].
Qed.

(** A right shift to the format's exponent keeps a positive mantissa
    positive, provided the exponent is not below [emin]. *)
Lemma shr_fexp_pos m e l :
  1 <= m -> emin <= e ->
  1 <= shr_m (fst (shr_fexp prec emax m e l)) /\ emin <= snd (shr_fexp prec emax m e l).
Proof.
  intros Hm He. unfold shr_fexp, shr.
  destruct m as [|p|p]; try lia. cbn [Zdigits2].
  pose proof (digits_bounds p) as [Hlo _].
  set (d := Zpos (digits2_pos p)) in *.
  destruct (fexp prec emax (d + e) - e) as [|q|q] eqn:Hn; cbn [fst snd];
    rewrite ?shr_record_of_loc_m; try (split; lia).
  assert (Hq : Zpos q = d - prec).
  { unfold fexp in Hn. fold emin in Hn. lia. }
  split; [|lia].
  rewrite shr_m_iter by (rewrite shr_record_of_loc_m; lia).
  rewrite shr_record_of_loc_m.
  apply Z.div_le_lower_bound; [apply Z.pow_pos_nonneg; lia|].
  rewrite Z.mul_1_r. eapply Z.le_trans; [|exact Hlo].
  apply Z.pow_le_mono_r; unfold prec in *; lia.
Qed.

Lemma round_nearest_even_pos m l : 1 <= m -> 1 <= round_nearest_even m l.
Proof.
  intros H. destruct l as [|[]]; cbn; try lia. destruct (Z.even m); lia.
Qed.

Lemma binary_round_aux_nonzero s m e l :
  1 <= m -> emin <= e -> signedNonzero s (binary_round_aux prec emax s m e l).
Proof.
  intros Hm He. unfold binary_round_aux.
  pose proof (shr_fexp_pos m e l Hm He) as [H1 H1e].
  destruct (shr_fexp prec emax m e l) as [mrs' e']. cbn [fst snd] in H1, H1e.
  pose proof (shr_fexp_pos _ e' loc_Exact
                (round_nearest_even_pos _ (loc_of_shr_record mrs') H1) H1e) as [H2 _].
  destruct (shr_fexp prec emax (round_nearest_even _ _) e' loc_Exact) as [mrs'' e''].
  cbn [fst] in H2.
  destruct (shr_m mrs''); try lia.
  destruct (e'' <=? emax - prec)%Z; reflexivity.
Qed.

Lemma shl_align_spec m e e' :
  Zpos (fst (shl_align m e e')) = Zpos m * 2 ^ (e - Z.min e e') /\
  snd (shl_align m e e') = Z.min e e'.
Proof.
  unfold shl_align. destruct (e' - e) as [|d|d] eqn:Hd; cbn [fst snd].
  - replace (Z.min e e') with e by lia. rewrite Z.sub_diag. split; lia.
  - replace (Z.min e e') with e by lia. rewrite Z.sub_diag. split; lia.
  - replace (Z.min e e') with e' by lia. split; [|reflexivity].
    replace (e - e') with (Zpos d) by lia.
    rewrite (Pos.iter_swap_gen _ _ Zpos xO (Z.mul 2)) by reflexivity.
    clear. induction d as [|d IH] using Pos.peano_ind.
    + cbn [Pos.iter]. lia.
    + rewrite Pos.iter_succ, IH, Pos2Z.inj_succ, Z.pow_succ_r by lia. lia.
Qed.

Lemma binary_round_nonzero s m e :
  emin <= e -> signedNonzero s (binary_round prec emax s m e).
Proof.
  intros He. unfold binary_round.
  pose proof (shl_align_spec m e (fexp prec emax (Zpos (digits2_pos m) + e))) as [_ Hs].
  destruct (shl_align _ _ _) as [mz ez]. cbn [snd] in Hs.
  apply binary_round_aux_nonzero; [lia|].
  rewrite Hs. unfold fexp. fold emin. lia.
Qed.

(** The sign of a normalised integer. *)
Lemma binary_normalize_gt_zero z e :
  emin <= e -> gt (binary_normalize prec emax z e false) zero = (0 <? z).
Proof.
  intros He. destruct z as [|p|p]; cbn [binary_normalize].
  - reflexivity.
  - pose proof (binary_round_nonzero false p e He) as H.
    destruct (binary_round prec emax false p e); cbn in H; try contradiction; subst; reflexivity.
  - pose proof (binary_round_signed true p e) as H.
    destruct (binary_round prec emax true p e); cbn in H; try contradiction; subst; reflexivity.
Qed.

(** *** The sign of a difference *)

Lemma ltb_match x y : match x ?= y with Lt => true | _ => false end = (x <? y).
Proof. reflexivity. Qed.

(** A difference of doubles is positive exactly when the first operand
    is the larger: subtraction never rounds a non-zero difference to zero. *)
Lemma sub_gt_zero a b :
  valid a = true -> valid b = true ->
  gt (sub a b) zero = lt b a.
Proof.
  intros Ha Hb.
  destruct a as [sa|sa| |sa ma ea], b as [sb|sb| |sb mb eb];
    try (destruct sa); try (destruct sb); try reflexivity.
  all: unfold lt, SFltb; rewrite compare_units by (assumption || reflexivity).
  all: unfold sub; cbn [SFsub].
  all: pose proof (valid_finite_inv _ _ _ Ha) as ((Hea & _) & _).
  all: pose proof (valid_finite_inv _ _ _ Hb) as ((Heb & _) & _).
  all: rewrite binary_normalize_gt_zero by lia.
  all: pose proof (shl_align_spec ma ea (Z.min ea eb)) as [HA' _].
  all: pose proof (shl_align_spec mb eb (Z.min ea eb)) as [HB' _].
  all: replace (Z.min ea (Z.min ea eb)) with (Z.min ea eb) in HA' by lia.
  all: replace (Z.min eb (Z.min ea eb)) with (Z.min ea eb) in HB' by lia.
  all: rewrite HA', HB'; cbn [units cond_Zopp].
  all: set (ez := Z.min ea eb) in *.
  all: assert (Hez : emin <= ez) by lia.
  all: replace (ea - emin) with ((ea - ez) + (ez - emin)) by lia.
  all: replace (eb - emin) with ((eb - ez) + (ez - emin)) by lia.
  all: rewrite !Z.pow_add_r by lia.
  all: assert (HK : 0 < 2 ^ (ez - emin)) by (apply Z.pow_pos_nonneg; lia).
  all: assert (HJa : 0 < 2 ^ (ea - ez)) by (apply Z.pow_pos_nonneg; lia).
  all: assert (HJb : 0 < 2 ^ (eb - ez)) by (apply Z.pow_pos_nonneg; lia).
  all: set (K := 2 ^ (ez - emin)) in *; set (A := Zpos ma * 2 ^ (ea - ez)) in *;
       set (B := Zpos mb * 2 ^ (eb - ez)) in *.
  all: assert (HApos : 0 < A) by (subst A; lia).
  all: assert (HBpos : 0 < B) by (subst B; lia).
  all: rewrite !Z.mul_assoc.
  all: fold A B.
  all: rewrite ltb_match.
  all: match goal with
       | |- (0 <? ?D) = (?x <? ?y) =>
           destruct (Z.ltb_spec 0 D), (Z.ltb_spec x y); try reflexivity; nia
       end.
Qed.

Lemma lt_true_notNaN a b : lt a b = true -> isNaN a = false /\ isNaN b = false.
Proof. destruct a, b; cbn; try discriminate; auto. Qed.

Lemma le_true_notNaN a b : le a b = true -> isNaN a = false /\ isNaN b = false.
Proof. destruct a, b; cbn; try discriminate; auto. Qed.

Lemma lt_units a b :
  valid a = true -> valid b = true -> isNaN a = false -> isNaN b = false ->
  lt a b = (units a <? units b).
Proof.
  intros. unfold lt, SFltb. rewrite compare_units by assumption. apply ltb_match.
Qed.

Lemma le_units a b :
  valid a = true -> valid b = true -> isNaN a = false -> isNaN b = false ->
  le a b = (units a <=? units b).
Proof.
  intros. unfold le, SFleb. rewrite compare_units by assumption.
  unfold Z.leb. destruct (units a ?= units b); reflexivity.
Qed.

Lemma ge_not_lt a b : ge a b = true -> lt a b = false.
Proof.
  unfold ge, lt, SFleb, SFltb. destruct (SFcompare b a) as [c|] eqn:Hc; [|discriminate].
  rewrite (compare_flip _ _ _ Hc). destruct c; cbn; congruence.
Qed.

(** *** Integers *)

Lemma digits_unique (q : positive) (n : Z) :
  2 ^ (n - 1) <= Zpos q < 2 ^ n -> Zpos (digits2_pos q) = n.
Proof.
  intros [Hlo Hhi]. pose proof (digits_bounds q) as [Dlo Dhi].
  set (d := Zpos (digits2_pos q)) in *.
  assert (Hd : 0 < d) by (subst d; lia).
  destruct (Z.lt_trichotomy d n) as [Hlt|[Heq|Hgt]]; [|exact Heq|].
  - assert (2 ^ d <= 2 ^ (n - 1)) by (apply Z.pow_le_mono_r; lia). lia.
  - assert (0 <= n).
    { destruct (Z.le_gt_cases 0 n); [assumption|].
      rewrite (Z.pow_neg_r 2 n) in Hhi by lia. lia. }
    assert (2 ^ n <= 2 ^ (d - 1)) by (apply Z.pow_le_mono_r; lia). lia.
Qed.

Lemma shr_fexp_canonical m e l :
  canonical_mantissa prec emax m e = true ->
  shr_fexp prec emax (Zpos m) e l = (shr_record_of_loc (Zpos m) l, e).
Proof.
  unfold canonical_mantissa, shr_fexp. intros H. apply Z.eqb_eq in H.
  cbn [Zdigits2]. rewrite H, Z.sub_diag. reflexivity.
Qed.

Lemma binary_round_aux_canonical s m e :
  canonical_mantissa prec emax m e = true ->
  binary_round_aux prec emax s (Zpos m) e loc_Exact
  = if e <=? emax - prec then S754_finite s m e else S754_infinity s.
Proof.
  intros H. unfold binary_round_aux.
  rewrite (shr_fexp_canonical m e loc_Exact H). cbn [shr_record_of_loc shr_m].
  cbn [loc_of_shr_record round_nearest_even].
  rewrite (shr_fexp_canonical m e loc_Exact H). reflexivity.
Qed.

(** An integer below [2^53] in magnitude is represented exactly. *)
Lemma normalize_isInteger z sz :
  Z.abs z < 2 ^ prec -> isInteger (binary_normalize prec emax z 0 sz) = true.
Proof.
  assert (Hgen : forall s p, Zpos p < 2 ^ prec ->
                 isInteger (binary_round prec emax s p 0) = true).
  { intros s p Hp. unfold binary_round.
    pose proof (digits_bounds p) as [Dlo Dhi].
    set (d := Zpos (digits2_pos p)) in *.
    assert (Hd : 1 <= d <= prec).
    { split; [subst d; lia|].
      destruct (Z.le_gt_cases d prec); [assumption|].
      assert (2 ^ prec <= 2 ^ (d - 1)) by (apply Z.pow_le_mono_r; lia). lia. }
    assert (Hf : fexp prec emax (d + 0) = d - prec).
    { unfold fexp, SpecFloat.emin, prec, emax in *. lia. }
    rewrite Hf.
    pose proof (shl_align_spec p 0 (d - prec)) as [Hm He].
    destruct (shl_align p 0 (d - prec)) as [mz ez]. cbn [fst snd] in Hm, He.
    replace (Z.min 0 (d - prec)) with (d - prec) in * by lia.
    replace (0 - (d - prec)) with (prec - d) in Hm by lia.
    assert (Hdz : Zpos (digits2_pos mz) = prec).
    { apply digits_unique. rewrite Hm.
      assert (Hk : 0 < 2 ^ (prec - d)) by (apply Z.pow_pos_nonneg; lia).
      assert (E1 : 2 ^ (prec - 1) = 2 ^ (d - 1) * 2 ^ (prec - d)).
      { rewrite <- Z.pow_add_r by lia. f_equal. lia. }
      assert (E2 : 2 ^ prec = 2 ^ d * 2 ^ (prec - d)).
      { rewrite <- Z.pow_add_r by lia. f_equal. lia. }
      rewrite E1, E2. split; [apply Z.mul_le_mono_nonneg_r|apply Z.mul_lt_mono_pos_r]; lia. }
    assert (Hc : canonical_mantissa prec emax mz ez = true).
    { unfold canonical_mantissa. apply Z.eqb_eq. rewrite Hdz, He.
      unfold fexp, SpecFloat.emin, prec, emax in *. lia. }
    rewrite (binary_round_aux_canonical s mz ez Hc).
    assert (Hle : (ez <=? emax - prec) = true)
      by (apply Z.leb_le; unfold prec, emax in *; lia).
    rewrite Hle. cbn [isInteger]. apply orb_true_iff. right. apply Z.eqb_eq.
    rewrite Hm, He. replace (- (d - prec)) with (prec - d) by lia.
    apply Z.mod_mul. apply Z.pow_nonzero; lia. }
  intros Hz. destruct z as [|p|p]; cbn [binary_normalize]; [reflexivity| |];
    apply Hgen; lia.
Qed.

Lemma shiftr_abs_le a k : 0 <= k -> Z.abs (Z.shiftr a k) <= Z.abs a.
Proof.
  intros Hk. rewrite Z.shiftr_div_pow2 by lia.
  assert (Hp : 0 < 2 ^ k) by (apply Z.pow_pos_nonneg; lia).
  pose proof (Z.div_mod a (2 ^ k) ltac:(lia)) as Hdm.
  pose proof (Z.mod_pos_bound a (2 ^ k) Hp) as Hmod.
  set (q := a / 2 ^ k) in *. set (r := a mod 2 ^ k) in *. set (b := 2 ^ k) in *.
  nia.
Qed.

Lemma finite_mantissa_bound s m e :
  valid (S754_finite s m e) = true -> Zpos m < 2 ^ prec.
Proof.
  intros H. apply valid_finite_inv in H as (_ & Hd & _).
  pose proof (digits_bounds m) as [_ Hhi].
  eapply Z.lt_le_trans; [exact Hhi|]. apply Z.pow_le_mono_r; lia.
Qed.

Lemma floor_isInteger x :
  valid x = true -> isFinite x = true -> isInteger (floor x) = true.
Proof.
  destruct x as [s|s| |s m e]; try discriminate; [reflexivity|].
  intros Hv _. cbn [floor].
  destruct (Z.leb_spec 0 e) as [He|He].
  - cbn [isInteger]. apply orb_true_iff. left. now apply Z.leb_le.
  - apply normalize_isInteger.
    pose proof (finite_mantissa_bound s m e Hv) as Hm.
    eapply Z.le_lt_trans; [apply shiftr_abs_le; lia|].
    destruct s; cbn [cond_Zopp]; lia.
Qed.

Lemma floor_notNaN x : isNaN x = false -> isNaN (floor x) = false.
Proof.
  destruct x as [s|s| |s m e]; cbn [floor]; auto.
  intros _. destruct (0 <=? e); [reflexivity|apply binary_normalize_notNaN].
Qed.

Lemma max2_floor_spec x :
  isNaN x = false ->
  ge (max2 (ofZ 1) (floor x)) (ofZ 1) = true /\
  (valid x = true -> isFinite x = true -> isInteger (max2 (ofZ 1) (floor x)) = true).
Proof.
  intros Hx.
  destruct (max2_ge_l (ofZ 1) (floor x) eq_refl (floor_notNaN x Hx)) as (Hge & _ & Hor).
  split; [exact Hge|]. intros Hv Hf.
  destruct Hor as [-> | ->]; [reflexivity|now apply floor_isInteger].
Qed.

(** ** The stable sort *)

Section Sorting.
Context {A : Type} (cmp : A -> A -> number) (rank : A -> Z).

Lemma insertSorted_perm x xs : Permutation (x :: xs) (insertSorted cmp x xs).
Proof.
  induction xs as [|y xs IH]; cbn; [reflexivity|].
  destruct (gt (cmp x y) zero); [|reflexivity].
  rewrite perm_swap. now apply perm_skip.
Qed.

Lemma sortBy_perm xs : Permutation xs (sortBy cmp xs).
Proof.
  induction xs as [|x xs IH]; cbn; [reflexivity|].
  rewrite <- insertSorted_perm. now apply perm_skip.
Qed.

Lemma insertSorted_sorted x xs :
  ranked cmp rank (x :: xs) ->
  StronglySorted (fun a b => rank a <= rank b) xs ->
  StronglySorted (fun a b => rank a <= rank b) (insertSorted cmp x xs).
Proof.
  intros Hr Hs. induction Hs as [|y xs Hs IH Hy]; cbn.
  - repeat constructor.
  - rewrite (Hr x y) by (cbn; auto).
    destruct (Z.ltb_spec (rank y) (rank x)) as [Hlt|Hge].
    + constructor.
      * apply IH. intros a b Ha Hb. apply Hr; cbn in *; tauto.
      * rewrite <- (insertSorted_perm x xs). constructor; [lia|exact Hy].
    + constructor; [constructor; assumption|].
      constructor; [exact Hge|].
      rewrite List.Forall_forall in Hy |- *. intros z Hz. specialize (Hy z Hz). lia.
Qed.

(** Under a comparator that follows a rank, the sort returns its input
    in ascending rank. *)
Lemma sortBy_sorted xs :
  ranked cmp rank xs -> StronglySorted (fun a b => rank a <= rank b) (sortBy cmp xs).
Proof.
  induction xs as [|x xs IH]; intros Hr; cbn; [constructor|].
  apply insertSorted_sorted.
  - intros a b Ha Hb. apply Hr.
    + destruct Ha as [->|Ha]; [now left|right]. now rewrite (sortBy_perm xs).
    + destruct Hb as [->|Hb]; [now left|right]. now rewrite (sortBy_perm xs).
  - apply IH. intros a b Ha Hb. apply Hr; now right.
Qed.

Lemma sorted_filter (p : A -> bool) xs :
  StronglySorted (fun a b => rank a <= rank b) xs ->
  StronglySorted (fun a b => rank a <= rank b) (List.filter p xs).
Proof.
  induction 1 as [|y xs Hs IH Hy]; cbn; [constructor|].
  destruct (p y); [|exact IH]. constructor; [exact IH|].
  rewrite List.Forall_forall in Hy |- *. intros z Hz. apply filter_In in Hz as [Hz _]. auto.
Qed.

Lemma sorted_head_least x xs y :
  StronglySorted (fun a b => rank a <= rank b) (x :: xs) -> In y (x :: xs) -> rank x <= rank y.
Proof.
  intros Hs [->|Hy]; [lia|].
  apply StronglySorted_inv in Hs as [_ Hx]. rewrite List.Forall_forall in Hx. auto.
Qed.

(** [find] on a sorted list returns the least element that qualifies. *)
Lemma find_first_least (p : A -> bool) xs c :
  StronglySorted (fun a b => rank a <= rank b) xs ->
  find p xs = Some c ->
  In c xs /\ p c = true /\ forall y, In y xs -> p y = true -> rank c <= rank y.
Proof.
  induction 1 as [|x xs Hs IH Hx]; cbn; [discriminate|].
  destruct (p x) eqn:Hp.
  - intros [= <-]. repeat split; auto.
    intros y [->|Hy] _; [lia|]. rewrite List.Forall_forall in Hx. auto.
  - intros Hf. destruct (IH Hf) as (Hin & Hpc & Hleast). repeat split; auto.
    intros y [->|Hy] Hpy; [congruence|auto].
Qed.

End Sorting.

Section Properties.

Variable toFixed : number -> nat -> string.
Variable log10 : number -> number.
Variable numToString : number -> string.
Variable trim : string -> string.
Variable toUpperCase : string -> string.
Variable JSON_parse : string -> option json.
Variable stringifyCommit : CommitConfig -> string.
Variable stringifyDayState : DayState.t -> string.
Variable COINS : list Coin.t.

(** ** Comparisons *)

Lemma not_gt_zero_le_or_nan (x : number) :
  gt x zero = false -> le x zero = true \/ x = NaN.
Proof.
  destruct x as [s|s| |s m e]; try destruct s; cbn; intros H;
    try discriminate; auto.
Qed.

Lemma gt_zero_not_le (x : number) : gt x zero = true -> le x zero = false.
Proof.
  destruct x as [s|s| |s m e]; try destruct s; cbn; intros H;
    try discriminate; auto.
Qed.

Lemma div_NaN_r (x : number) : div x NaN = NaN.
Proof. destruct x; reflexivity. Qed.

Lemma le_NaN_l (x : number) : le NaN x = false.
Proof. reflexivity. Qed.

Lemma ge_NaN_l (x : number) : ge NaN x = false.
Proof. destruct x; reflexivity. Qed.

Lemma isNaN_eq (x : number) : isNaN x = true -> x = NaN.
Proof. destruct x; cbn; intros H; try discriminate; reflexivity. Qed.

(** ** The R multiple *)

(** C3: on finite inputs [computeR] is the quotient of the signed move by
    the risk whenever the risk is positive, and NaN whenever the risk is
    not positive; on any non-finite input it is NaN.  The four listed
    evaluations hold: 2, -2, 2 and NaN. *)
Theorem computeR_spec :
  (forall entry stop exit,
      isFinite entry && isFinite stop && isFinite exit = true ->
      (gt (sub entry stop) zero = true ->
       computeR LONG entry stop exit = div (sub exit entry) (sub entry stop)) /\
      (gt (sub stop entry) zero = true ->
       computeR SHORT entry stop exit = div (sub entry exit) (sub stop entry)) /\
      (gt (sub entry stop) zero = false ->
       computeR LONG entry stop exit = NaN) /\
      (gt (sub stop entry) zero = false ->
       computeR SHORT entry stop exit = NaN)) /\
  (forall side entry stop exit,
      isFinite entry && isFinite stop && isFinite exit = false ->
      computeR side entry stop exit = NaN) /\
  computeR LONG (ofZ 100) (ofZ 95) (ofZ 110) = ofZ 2 /\
  computeR LONG (ofZ 100) (ofZ 95) (ofZ 90) = ofZ (-2) /\
  computeR SHORT (ofZ 100) (ofZ 105) (ofZ 90) = ofZ 2 /\
  computeR LONG (ofZ 100) (ofZ 100) (ofZ 110) = NaN.
Proof.
  split; [|split].
  - intros entry stop exit Hfin.
    assert (Hall : forallb isFinite [entry; stop; exit] = true).
    { cbn [forallb]. rewrite andb_true_r, andb_assoc. exact Hfin. }
    unfold computeR. rewrite Hall. cbn [negb].
    repeat split; intros Hrisk.
    + rewrite (gt_zero_not_le _ Hrisk). reflexivity.
    + rewrite (gt_zero_not_le _ Hrisk). reflexivity.
    + destruct (not_gt_zero_le_or_nan _ Hrisk) as [Hle|Hnan].
      * rewrite Hle. reflexivity.
      * rewrite Hnan. cbn. apply div_NaN_r.
    + destruct (not_gt_zero_le_or_nan _ Hrisk) as [Hle|Hnan].
      * rewrite Hle. reflexivity.
      * rewrite Hnan. cbn. apply div_NaN_r.
  - intros side entry stop exit Hfin.
    unfold computeR. cbn [forallb].
    rewrite andb_true_r, andb_assoc, Hfin. reflexivity.
  - repeat split; vm_compute; reflexivity.
Qed.

(** ** The entry-quality classifier *)

(** The rule list of the classifier, on the three percentages. *)
Lemma computeMicro_cases (prices : list number) :
  let m := computeMicro toFixed prices in
  let n := Z.of_nat (length prices) in
  let last := at_or_NaN prices (n - 1) in
  let window6h := slice_from (Z.max 0 (n - 7)) prices in
  ret1h m = pctFrom last (at_or_NaN prices (Z.max 0 (n - 2))) /\
  ret4h m = pctFrom last (at_or_NaN prices (Z.max 0 (n - 5))) /\
  dropFromHigh6h m = pctFrom last (maxOf window6h) /\
  spikeFromLow6h m = pctFrom last (minOf window6h) /\
  (entryQuality m, whyNot m) =
    if le (ret1h m) (ofZ (-3)) then
      (NO_EDGE, ["Fast dump: " +:+ toFixed (ret1h m) 2 +:+ "% in ~1h";
                 "Wait for base or reclaim before considering entry."])
    else if le (dropFromHigh6h m) (ofZ (-4)) then
      (EXTENDED, ["Pullback: " +:+ toFixed (dropFromHigh6h m) 2 +:+ "% from 6h high";
                  "WAIT for base / reclaim — avoid guessing."])
    else if ge (spikeFromLow6h m) (ofZ 6) then
      (EXTENDED, ["Extended: +" +:+ toFixed (spikeFromLow6h m) 2 +:+ "% from 6h low";
                  "Don’t chase. Wait for pullback + retest."])
    else (VALID, []).
Proof.
  cbv zeta. unfold computeMicro.
  destruct (le (pctFrom _ (at_or_NaN prices (Z.max 0 (_ - 2)))) (ofZ (-3))) eqn:H1.
  { cbn [ret1h ret4h dropFromHigh6h spikeFromLow6h entryQuality whyNot].
    rewrite H1. auto. }
  destruct (le (pctFrom _ (maxOf _)) (ofZ (-4))) eqn:H2.
  { cbn [ret1h ret4h dropFromHigh6h spikeFromLow6h entryQuality whyNot].
    rewrite H1, H2. auto. }
  destruct (ge (pctFrom _ (minOf _)) (ofZ 6)) eqn:H3;
    cbn [ret1h ret4h dropFromHigh6h spikeFromLow6h entryQuality whyNot];
    rewrite H1, H2, H3; auto.
Qed.

(** C4: the three percentages are taken from the last sample against the
    sample before it and against the high and the low of the last seven
    samples, and the classifier takes the first matching rule in the order
    fast dump (NO_EDGE), pullback (EXTENDED), spike (EXTENDED), else VALID.
    A fast dump is NO_EDGE whatever the other two percentages are, as on a
    series with a 3.5% last step where the pullback and the spike rules
    match as well. *)
Theorem computeMicro_priority :
  (forall prices,
      let m := computeMicro toFixed prices in
      let n := Z.of_nat (length prices) in
      let last := at_or_NaN prices (n - 1) in
      let window6h := slice_from (Z.max 0 (n - 7)) prices in
      ret1h m = pctFrom last (at_or_NaN prices (Z.max 0 (n - 2))) /\
      dropFromHigh6h m = pctFrom last (maxOf window6h) /\
      spikeFromLow6h m = pctFrom last (minOf window6h) /\
      entryQuality m =
        if le (ret1h m) (ofZ (-3)) then NO_EDGE
        else if le (dropFromHigh6h m) (ofZ (-4)) then EXTENDED
        else if ge (spikeFromLow6h m) (ofZ 6) then EXTENDED
        else VALID) /\
  (forall prices,
      let m := computeMicro toFixed prices in
      le (ret1h m) (ofZ (-3)) = true ->
      entryQuality m = NO_EDGE /\
      whyNot m = ["Fast dump: " +:+ toFixed (ret1h m) 2 +:+ "% in ~1h";
                  "Wait for base or reclaim before considering entry."]) /\
  (let m := computeMicro toFixed dumpSeries in
   le (ret1h m) (dec (-35) 10) = true /\
   le (dec (-351) 100) (ret1h m) = true /\
   le (dropFromHigh6h m) (ofZ (-4)) = true /\
   ge (spikeFromLow6h m) (ofZ 6) = true /\
   entryQuality m = NO_EDGE).
Proof.
  split; [|split].
  - intros prices m n last window6h.
    destruct (computeMicro_cases prices) as (H1 & _ & H2 & H3 & Hq).
    change (computeMicro toFixed prices) with m in Hq.
    repeat split; [exact H1|exact H2|exact H3|].
    destruct (le (ret1h m) _); [now inversion Hq|].
    destruct (le (dropFromHigh6h m) _); [now inversion Hq|].
    destruct (ge (spikeFromLow6h m) _); now inversion Hq.
  - intros prices m Hdump.
    destruct (computeMicro_cases prices) as (_ & _ & _ & _ & Hq).
    change (computeMicro toFixed prices) with m in Hq.
    rewrite Hdump in Hq. now inversion Hq.
  - cbv zeta. repeat split; vm_compute; reflexivity.
Qed.

(** C7: when the three percentages are NaN no rule matches, and the
    classifier returns VALID with no reason; so it does on the empty series
    and on a series standing at a zero price. *)
Theorem computeMicro_NaN_falls_through :
  (forall prices,
      let m := computeMicro toFixed prices in
      isNaN (ret1h m) = true ->
      isNaN (dropFromHigh6h m) = true ->
      isNaN (spikeFromLow6h m) = true ->
      entryQuality m = VALID /\ whyNot m = []) /\
  (let m := computeMicro toFixed [] in
   ret1h m = NaN /\ dropFromHigh6h m = NaN /\ spikeFromLow6h m = NaN /\
   entryQuality m = VALID /\ whyNot m = []) /\
  (let m := computeMicro toFixed [zero; zero] in
   ret1h m = NaN /\ dropFromHigh6h m = NaN /\ spikeFromLow6h m = NaN /\
   entryQuality m = VALID /\ whyNot m = []).
Proof.
  split; [|split].
  - intros prices m H1 H2 H3.
    destruct (computeMicro_cases prices) as (_ & _ & _ & _ & Hq).
    change (computeMicro toFixed prices) with m in Hq.
    rewrite (isNaN_eq _ H1), (isNaN_eq _ H2), (isNaN_eq _ H3) in Hq.
    cbn in Hq. now inversion Hq.
  - cbv zeta. repeat split; vm_compute; reflexivity.
  - cbv zeta. repeat split; vm_compute; reflexivity.
Qed.

(** ** The session guard *)

(** C2: without a commitment for today, or once the day is locked, neither
    predicate holds whatever the override toggle says; with the override
    on, trading is allowed exactly when committed and unlocked and every
    asset follows it; with it off the session-quality, allowed-session,
    entry-quality and structure blocks apply as well. *)
Theorem override_never_bypasses_commit_or_lock (a : App.t) (s : SetupRow.t) :
  (commitRequired a = true \/ DayState.locked (App.dayState a) = true ->
   forall b,
     tradingAllowed (App.set_overrideGuard b a) = false /\
     coinActionAllowed (App.set_overrideGuard b a) s = false) /\
  (App.overrideGuard a = true ->
   tradingAllowed a
   = negb (commitRequired a) && negb (DayState.locked (App.dayState a)) /\
   coinActionAllowed a s = tradingAllowed a) /\
  (App.overrideGuard a = false ->
   tradingAllowed a
   = negb (commitRequired a) && negb (DayState.locked (App.dayState a))
     && negb (isWait (status (App.sessionInfo a))) && sessionAllowedByCommit a /\
   coinActionAllowed a s
   = tradingAllowed a && negb (isNoEdge (SetupRow.entryQuality s))
     && isOk (SetupRow.structureLabel s)).
Proof.
  split; [|split].
  - intros Hblocked b.
    assert (Ht : tradingAllowed (App.set_overrideGuard b a) = false).
    { unfold tradingAllowed.
      change (commitRequired (App.set_overrideGuard b a)) with (commitRequired a).
      change (App.dayState (App.set_overrideGuard b a)) with (App.dayState a).
      destruct Hblocked as [-> | ->]; [reflexivity|].
      destruct (commitRequired a); reflexivity. }
    split; [exact Ht|]. unfold coinActionAllowed. rewrite Ht. reflexivity.
  - intros Hov. unfold coinActionAllowed, tradingAllowed. rewrite Hov.
    destruct (commitRequired a), (DayState.locked (App.dayState a)),
      (isWait (status (App.sessionInfo a))), (sessionAllowedByCommit a);
      split; reflexivity.
  - intros Hov. unfold coinActionAllowed, tradingAllowed. rewrite Hov.
    destruct (commitRequired a), (DayState.locked (App.dayState a)),
      (isWait (status (App.sessionInfo a))), (sessionAllowedByCommit a),
      (isNoEdge (SetupRow.entryQuality s)), (isOk (SetupRow.structureLabel s));
      split; reflexivity.
Qed.

(** ** The lock and the ledger *)

Lemma locked_run (c : Command) (a : App.t) :
  isResetDay c = false ->
  DayState.locked (App.dayState a) = true ->
  DayState.locked
    (App.dayState
       (run toFixed numToString trim stringifyCommit stringifyDayState c a))
  = true.
Proof.
  intros Hc Hl. destruct c; cbn [run]; try exact Hl.
  - unfold clickLogTrade. destruct (tradingAllowed a); exact Hl.
  - unfold clickSaveTrade, addTrade.
    destruct (LogForm.logOpen (App.log a)); [|exact Hl].
    destruct (negb (isFinite _)); exact Hl.
  - unfold clickEndSession. rewrite Hl. exact Hl.
  - destruct confirmed; [discriminate Hc|exact Hl].
  - unfold autoLock. rewrite Hl.
    destruct (commitRequired a); exact Hl.
Qed.

Lemma closed_log_run (c : Command) (a : App.t) :
  isResetDay c = false ->
  DayState.locked (App.dayState a) = true ->
  LogForm.logOpen (App.log a) = false ->
  let a' := run toFixed numToString trim stringifyCommit stringifyDayState c a in
  LogForm.logOpen (App.log a') = false /\
  DayState.trades (App.dayState a') = DayState.trades (App.dayState a).
Proof.
  intros Hc Hl Ho. destruct c; cbn [run]; cbv zeta; try (split; [exact Ho|reflexivity]).
  - unfold clickLogTrade, tradingAllowed. rewrite Hl.
    destruct (commitRequired a); split; (exact Ho || reflexivity).
  - unfold clickSaveTrade. rewrite Ho. split; [exact Ho|reflexivity].
  - split; reflexivity.
  - unfold clickEndSession. rewrite Hl. split; [exact Ho|reflexivity].
  - destruct confirmed; [discriminate Hc|]. split; [exact Ho|reflexivity].
  - unfold autoLock. rewrite Hl.
    destruct (commitRequired a); split; (exact Ho || reflexivity).
Qed.

(** The trade cap locks the day: the effect that follows an append finds
    the ledger at the cap and sets the lock, leaving the ledger as it is. *)
Lemma autoLock_at_trade_cap (a : App.t) (c : CommitConfig) :
  commitRequired a = false ->
  DayState.locked (App.dayState a) = false ->
  App.commit a = Some c ->
  ge (tradesToday a) (maxTrades c) = true ->
  let a' := autoLock toFixed numToString a in
  DayState.locked (App.dayState a') = true /\
  DayState.trades (App.dayState a') = DayState.trades (App.dayState a).
Proof.
  intros Hc Hl Hcommit Hcap. cbv zeta. unfold autoLock.
  rewrite Hc, Hl, Hcommit, Hcap. split; reflexivity.
Qed.

(** An accepted trade closes the log dialog. *)
Lemma addTrade_closes_log (newId nowIso : string) (a : App.t) :
  let a' := addTrade trim newId nowIso a in
  DayState.trades (App.dayState a') <> DayState.trades (App.dayState a) ->
  LogForm.logOpen (App.log a') = false.
Proof.
  cbv zeta. unfold addTrade. destruct (negb (isFinite _)); [congruence|reflexivity].
Qed.

(** C1, as the code has it: once the day is locked the Log-trade button is
    dead, every command but a confirmed reset keeps the lock, and with the
    log dialog closed no run of such commands changes the ledger.
    [addTrade] itself has no lock check: it appends whenever the form holds
    a finite R.  A confirmed reset clears the ledger and the lock. *)
Theorem lock_sticky_until_reset (a : App.t) :
  DayState.locked (App.dayState a) = true ->
  (tradingAllowed a = false /\ clickLogTrade a = a) /\
  (forall cs : list Command,
      forallb (fun c => negb (isResetDay c)) cs = true ->
      let a' :=
        fold_left
          (fun x c => run toFixed numToString trim stringifyCommit stringifyDayState c x)
          cs a in
      DayState.locked (App.dayState a') = true /\
      (LogForm.logOpen (App.log a) = false ->
       DayState.trades (App.dayState a') = DayState.trades (App.dayState a))) /\
  (forall newId nowIso,
      let a' := addTrade trim newId nowIso a in
      DayState.locked (App.dayState a') = true /\
      (isFinite (computeR (LogForm.logSide (App.log a)) (LogForm.logEntry (App.log a))
                          (LogForm.logStop (App.log a)) (LogForm.logExit (App.log a)))
       = true ->
       exists t, DayState.trades (App.dayState a')
                 = DayState.trades (App.dayState a) ++ [t])) /\
  (let a' := clearToday stringifyDayState true a in
   DayState.locked (App.dayState a') = false /\
   DayState.trades (App.dayState a') = []).
Proof.
  intros Hl. repeat split.
  - unfold tradingAllowed. rewrite Hl. destruct (commitRequired a); reflexivity.
  - unfold clickLogTrade, tradingAllowed. rewrite Hl.
    destruct (commitRequired a); reflexivity.
  - revert a Hl H. induction cs as [|c cs IH]; intros a Hl Hcs; [exact Hl|].
    cbn [forallb] in Hcs. apply andb_prop in Hcs as [Hc Hcs].
    apply negb_true_iff in Hc. cbn [fold_left].
    apply IH; [apply locked_run; assumption|exact Hcs].
  - revert a Hl H. induction cs as [|c cs IH]; intros a Hl Hcs Ho; [reflexivity|].
    cbn [forallb] in Hcs. apply andb_prop in Hcs as [Hc Hcs].
    apply negb_true_iff in Hc. cbn [fold_left].
    destruct (closed_log_run c a Hc Hl Ho) as [Ho' Ht'].
    rewrite IH; [exact Ht'|apply locked_run; assumption|exact Hcs|exact Ho'].
  - unfold addTrade. destruct (negb (isFinite _)); exact Hl.
  - intros Hfin. unfold addTrade. rewrite Hfin. cbn. eexists. reflexivity.
Qed.

(** ** Loading the persisted records *)

Lemma strictEqString_true (v : option json) (s : string) :
  strictEqString v s = true <-> v = Some (JString s).
Proof.
  destruct v as [[]|]; cbn; try (split; [discriminate|intros [=]]).
  rewrite String.eqb_eq. split; [intros ->; reflexivity|intros [= ->]; reflexivity].
Qed.

(** C8: [loadCommit] returns the stored record only when it parses to a
    value whose [dayKey] is the day asked for, and null otherwise;
    [loadDayState] returns the fresh record of the day whenever the stored
    one is missing, does not parse or carries another [dayKey], and what it
    returns otherwise is the stored record of that very day. *)
Theorem load_checks_day_key (store : gmap string string) (D : string) :
  (forall v, loadCommit JSON_parse store D = Some v ->
     exists raw, store !! LS_COMMIT = Some raw /\ JSON_parse raw = Some v /\
                 getProp v "dayKey" = Some (JString D)) /\
  (forall raw v, store !! LS_COMMIT = Some raw -> JSON_parse raw = Some v ->
     getProp v "dayKey" <> Some (JString D) ->
     loadCommit JSON_parse store D = None) /\
  (store !! LS_DAYSTATE = None -> loadDayState JSON_parse store D = freshDayState D) /\
  (forall raw, store !! LS_DAYSTATE = Some raw -> JSON_parse raw = None ->
     loadDayState JSON_parse store D = freshDayState D) /\
  (forall raw v, store !! LS_DAYSTATE = Some raw -> JSON_parse raw = Some v ->
     getProp v "dayKey" <> Some (JString D) ->
     loadDayState JSON_parse store D = freshDayState D) /\
  (loadDayState JSON_parse store D = freshDayState D \/
   exists raw, store !! LS_DAYSTATE = Some raw /\
               JSON_parse raw = Some (loadDayState JSON_parse store D) /\
               getProp (loadDayState JSON_parse store D) "dayKey" = Some (JString D)).
Proof.
  unfold loadCommit, loadDayState, getItem.
  repeat split.
  - intros v. destruct (store !! LS_COMMIT) as [raw|]; [|discriminate].
    destruct (negb (truthyString raw)); [discriminate|].
    destruct (JSON_parse raw) as [parsed|] eqn:Hp; [|discriminate].
    destruct (strictEqString _ D) eqn:He; [|discriminate].
    intros [= <-]. exists raw. apply strictEqString_true in He. auto.
  - intros raw v -> Hp Hne.
    destruct (negb (truthyString raw)); [reflexivity|]. rewrite Hp.
    destruct (strictEqString _ D) eqn:He; [|reflexivity].
    apply strictEqString_true in He. contradiction.
  - intros ->. reflexivity.
  - intros raw -> Hp. destruct (negb (truthyString raw)); [reflexivity|].
    rewrite Hp. reflexivity.
  - intros raw v -> Hp Hne.
    destruct (negb (truthyString raw)); [reflexivity|]. rewrite Hp.
    destruct (strictEqString _ D) eqn:He.
    + apply strictEqString_true in He. contradiction.
    + cbn. rewrite orb_true_r. reflexivity.
  - destruct (store !! LS_DAYSTATE) as [raw|]; [|left; reflexivity].
    destruct (negb (truthyString raw)); [left; reflexivity|].
    destruct (JSON_parse raw) as [parsed|] eqn:Hp; [|left; reflexivity].
    destruct (negb (truthyJson parsed)); [left; reflexivity|].
    destruct (strictEqString _ D) eqn:He; [|left; reflexivity].
    right. exists raw. apply strictEqString_true in He. auto.
Qed.

(** ** The refresh merge *)

Lemma spread_twice {V} (prev next : gmap string V) :
  spread (spread prev next) next = spread prev next.
Proof.
  unfold spread. apply map_eq. intros k.
  rewrite !lookup_union. destruct (next !! k), (prev !! k); reflexivity.
Qed.

(** C9: a refresh merges the results of the cycle into the two maps key by
    key, the new result of a key replacing the old one and the other keys
    staying as they were; a second refresh on the same upstream data leaves
    both maps as the first one left them. *)
Theorem refresh_twice_same_maps (up : Upstream.t) (a : App.t) :
  let once := refresh toFixed log10 toUpperCase COINS up a in
  let twice := refresh toFixed log10 toUpperCase COINS up once in
  Scan.microMap (App.scan twice) = Scan.microMap (App.scan once) /\
  Scan.structMap (App.scan twice) = Scan.structMap (App.scan once) /\
  match Upstream.markets up with
  | inl rows =>
      Scan.microMap (App.scan once)
      = match nextMicro toFixed log10 toUpperCase COINS up rows with
        | Some next => spread (Scan.microMap (App.scan a)) next
        | None => Scan.microMap (App.scan a)
        end /\
      Scan.structMap (App.scan once)
      = spread (Scan.structMap (App.scan a))
               (nextStruct toFixed log10 toUpperCase COINS up rows)
  | inr _ =>
      Scan.microMap (App.scan once) = Scan.microMap (App.scan a) /\
      Scan.structMap (App.scan once) = Scan.structMap (App.scan a)
  end /\
  (forall V (prev next : gmap string V) k,
      spread prev next !! k
      = match next !! k with Some v => Some v | None => prev !! k end).
Proof.
  cbv zeta. unfold refresh.
  destruct (Upstream.markets up) as [rows|message].
  - destruct (nextMicro toFixed log10 toUpperCase COINS up rows) as [next|];
      cbn; repeat split; auto using @spread_twice.
    all: intros V prev nxt k; unfold spread; rewrite lookup_union;
      destruct (nxt !! k), (prev !! k); reflexivity.
  - cbn. repeat split; auto.
    intros V prev nxt k; unfold spread; rewrite lookup_union;
      destruct (nxt !! k), (prev !! k); reflexivity.
Qed.

End Properties.

(** ** The structure engine *)

Section Structure.

Variable toFixed : number -> nat -> string.
Variables (lastPrice : number) (levels : Levels).
Hypothesis valid_lastPrice : valid lastPrice = true.
Hypothesis valid_supports : Forall validZone (supports levels).
Hypothesis valid_resistances : Forall validZone (resistances levels).

Lemma supportsBelow_spec :
  Permutation (List.filter (fun x => lt (price x) lastPrice) (supports levels))
              (supportsBelow lastPrice levels) /\
  StronglySorted (fun a b => - units (price a) <= - units (price b))
                 (supportsBelow lastPrice levels).
Proof.
  split; [apply sortBy_perm|]. apply sortBy_sorted.
  intros x y Hx Hy. apply filter_In in Hx as [Hx Hxl], Hy as [Hy Hyl].
  rewrite List.Forall_forall in valid_supports.
  pose proof (valid_supports _ Hx) as Hvx. pose proof (valid_supports _ Hy) as Hvy.
  unfold validZone in Hvx, Hvy.
  apply lt_true_notNaN in Hxl as [Hxn _], Hyl as [Hyn _].
  rewrite sub_gt_zero, lt_units by assumption.
  destruct (Z.ltb_spec (units (price x)) (units (price y))),
    (Z.ltb_spec (- units (price y)) (- units (price x))); try reflexivity; lia.
Qed.

Lemma resistAbove_spec :
  Permutation (List.filter (fun x => gt (price x) lastPrice) (resistances levels))
              (resistAbove lastPrice levels) /\
  StronglySorted (fun a b => units (price a) <= units (price b))
                 (resistAbove lastPrice levels).
Proof.
  split; [apply sortBy_perm|]. apply sortBy_sorted.
  intros x y Hx Hy. apply filter_In in Hx as [Hx Hxl], Hy as [Hy Hyl].
  rewrite List.Forall_forall in valid_resistances.
  pose proof (valid_resistances _ Hx) as Hvx. pose proof (valid_resistances _ Hy) as Hvy.
  unfold validZone in Hvx, Hvy.
  apply lt_true_notNaN in Hxl as [_ Hxn], Hyl as [_ Hyn].
  rewrite sub_gt_zero, lt_units by assumption. reflexivity.
Qed.

Lemma candidates_spec :
  (forall r, In r (candidates lastPrice levels)
             <-> In r (resistances levels) /\ inReach lastPrice r = true) /\
  StronglySorted (fun a b => units (price a) <= units (price b))
                 (candidates lastPrice levels).
Proof.
  destruct resistAbove_spec as [Hp Hs]. split.
  - intros r. unfold candidates, inReach. rewrite filter_In, <- Hp, filter_In.
    rewrite andb_true_iff. tauto.
  - now apply sorted_filter.
Qed.

Lemma candidate_le c r :
  In c (resistances levels) -> inReach lastPrice c = true ->
  In r (resistances levels) -> inReach lastPrice r = true ->
  units (price c) <= units (price r) -> le (price c) (price r) = true.
Proof.
  intros Hc Hcr Hr Hrr Hu.
  rewrite List.Forall_forall in valid_resistances.
  pose proof (valid_resistances _ Hc) as Hvc. pose proof (valid_resistances _ Hr) as Hvr.
  unfold validZone in Hvc, Hvr.
  apply andb_prop in Hcr as [Hcr _], Hrr as [Hrr _].
  apply lt_true_notNaN in Hcr as [_ Hcn], Hrr as [_ Hrn].
  rewrite le_units by assumption. now apply Z.leb_le.
Qed.

(** C5: with a support strictly below the price, the stop is the nearest
    such support and the risk is positive; the target is the nearest
    resistance in reach (above the price, at most 15% away) whose ratio to
    the risk is at least 2, or else the nearest resistance in reach.  A
    ratio below 2 gives NO_EDGE with the ratio in the reason; a ratio of at
    least 2 gives OK, weak touch counts adding a warning only. *)
Theorem evaluateStructure_target :
  (exists s, In s (supports levels) /\ lt (price s) lastPrice = true) ->
  exists s0,
    head (supportsBelow lastPrice levels) = Some s0 /\
    In s0 (supports levels) /\ lt (price s0) lastPrice = true /\
    (forall s, In s (supports levels) -> lt (price s) lastPrice = true ->
               le (price s) (price s0) = true) /\
    let risk := sub lastPrice (price s0) in
    let res := evaluateStructure toFixed lastPrice levels in
    gt risk zero = true /\
    match chooseTarget lastPrice risk (candidates lastPrice levels) with
    | None =>
        (forall r, In r (resistances levels) -> inReach lastPrice r = false) /\
        label res = S_WAIT
    | Some c =>
        In c (resistances levels) /\ inReach lastPrice c = true /\
        (if ge (ratio lastPrice risk c) (ofZ 2)
         then forall r, In r (resistances levels) -> inReach lastPrice r = true ->
                        ge (ratio lastPrice risk r) (ofZ 2) = true ->
                        le (price c) (price r) = true
         else (forall r, In r (resistances levels) -> inReach lastPrice r = true ->
                         ge (ratio lastPrice risk r) (ofZ 2) = false) /\
              (forall r, In r (resistances levels) -> inReach lastPrice r = true ->
                         le (price c) (price r) = true)) /\
        (lt (ratio lastPrice risk c) (ofZ 2) = true ->
         res = {| ok := false; label := S_NO_EDGE;
                  reasons := ["Room-to-2R fails: only "
                              +:+ toFixed (ratio lastPrice risk c) 2
                              +:+ "R available."];
                  support := Some (price s0); resistance := Some (price c);
                  roomTo2R := Some (ratio lastPrice risk c);
                  source := BINANCE_1H |}) /\
        (ge (ratio lastPrice risk c) (ofZ 2) = true ->
         res = {| ok := true; label := S_OK;
                  reasons := if lt (strength s0) (ofZ 2) || lt (strength c) (ofZ 2)
                             then [weakLevels] else [];
                  support := Some (price s0); resistance := Some (price c);
                  roomTo2R := Some (ratio lastPrice risk c);
                  source := BINANCE_1H |})
    end.
Proof.
  intros (s & Hs & Hslt).
  destruct supportsBelow_spec as [Hperm Hsorted].
  assert (Hin : In s (supportsBelow lastPrice levels)).
  { rewrite <- Hperm. apply filter_In. auto. }
  unfold evaluateStructure.
  destruct (supportsBelow lastPrice levels) as [|s0 rest] eqn:Hsb; [contradiction|].
  assert (Hs0 : In s0 (supports levels) /\ lt (price s0) lastPrice = true).
  { apply (filter_In (fun x => lt (price x) lastPrice)). rewrite Hperm. now left. }
  destruct Hs0 as [Hs0 Hs0lt].
  rewrite List.Forall_forall in valid_supports.
  pose proof (valid_supports _ Hs0) as Hv0. unfold validZone in Hv0.
  assert (Hrisk : gt (sub lastPrice (price s0)) zero = true).
  { rewrite sub_gt_zero by assumption. exact Hs0lt. }
  exists s0. split; [reflexivity|]. split; [exact Hs0|]. split; [exact Hs0lt|].
  split.
  { intros s' Hs' Hs'lt.
    assert (Hin' : In s' (s0 :: rest)) by (rewrite <- Hperm; apply filter_In; auto).
    pose proof (sorted_head_least _ _ _ _ Hsorted Hin') as Hle. cbn beta in Hle.
    pose proof (valid_supports _ Hs') as Hv'. unfold validZone in Hv'.
    apply lt_true_notNaN in Hs'lt as [Hn' _]. apply lt_true_notNaN in Hs0lt as [Hn0 _].
    rewrite le_units by assumption. apply Z.leb_le. lia. }
  cbv zeta. split; [exact Hrisk|]. rewrite Hrisk. cbn [negb].
  destruct candidates_spec as [Hcand Hcsorted].
  unfold chooseTarget. fold (ratio lastPrice (sub lastPrice (price s0))).
  change (fun r : Zone => ge (div (sub (price r) lastPrice) (sub lastPrice (price s0))) (ofZ 2))
    with (fun r : Zone => ge (ratio lastPrice (sub lastPrice (price s0)) r) (ofZ 2)).
  destruct (find _ (candidates lastPrice levels)) as [c|] eqn:Hfind.
  - destruct (find_first_least _ _ _ _ Hcsorted Hfind) as (Hc & Hq & Hleast).
    apply Hcand in Hc as [Hc Hcr].
    split; [exact Hc|]. split; [exact Hcr|]. rewrite Hq.
    fold (ratio lastPrice (sub lastPrice (price s0)) c).
    rewrite (ge_not_lt _ _ Hq).
    split; [|split; [discriminate|reflexivity]].
    intros r Hr Hrr Hrq. apply candidate_le; auto.
    apply Hleast; [apply Hcand; auto|exact Hrq].
  - assert (Hnone : forall r, In r (resistances levels) -> inReach lastPrice r = true ->
                              ge (ratio lastPrice (sub lastPrice (price s0)) r) (ofZ 2) = false).
    { intros r Hr Hrr. eapply find_none in Hfind; [exact Hfind|]. apply Hcand. auto. }
    destruct (candidates lastPrice levels) as [|c cs] eqn:Hcs; cbn [head].
    + split; [|reflexivity]. intros r Hr.
      destruct (inReach lastPrice r) eqn:Hrr; [|reflexivity].
      exfalso. apply (proj2 (Hcand r)). auto.
    + assert (Hc : In c (resistances levels) /\ inReach lastPrice c = true)
        by (apply Hcand; now left).
      destruct Hc as [Hc Hcr]. split; [exact Hc|]. split; [exact Hcr|].
      rewrite (Hnone c Hc Hcr).
      fold (ratio lastPrice (sub lastPrice (price s0)) c).
      split; [split; [exact Hnone|]|].
      * intros r Hr Hrr. apply candidate_le; auto.
        apply (sorted_head_least _ _ _ _ Hcsorted). apply Hcand. auto.
      * split; [|discriminate].
        intros Hlt. rewrite Hlt. reflexivity.
Qed.
End Structure.

(** ** The activity scorer *)

Section Scores.

Variable log10 : number -> number.

(** [Math.log10] is defined from 1 upwards. *)
Hypothesis log10_defined : forall x, le (ofZ 1) x = true -> isNaN (log10 x) = false.

Lemma within_0_100_clamp x :
  isNaN x = false -> within zero (ofZ 100) (clamp x zero (ofZ 100)) = true.
Proof.
  intros Hx. unfold within.
  destruct (clamp_bounds x zero (ofZ 100) Hx eq_refl eq_refl) as [-> ->]. reflexivity.
Qed.

Lemma within_finite_nonneg x :
  within zero (ofZ 100) x = true -> isFinite x = true /\ nonneg x = true.
Proof.
  unfold within. intros H. apply andb_prop in H as [H0 H1].
  exact (between_finite_nonneg x (ofZ 100) eq_refl H0 H1).
Qed.

Lemma changeScore_within ch : isFinite ch = true -> within zero (ofZ 100) (changeScore ch) = true.
Proof.
  intros Hch. apply within_0_100_clamp.
  apply add_finite_notNaN; [reflexivity|].
  apply mul_finite_notNaN; [exact Hch|reflexivity].
Qed.

Lemma volFactor_notNaN vol baselineVol :
  isFinite vol = true ->
  isNaN (if gt baselineVol zero then div vol baselineVol else ofZ 1) = false.
Proof.
  intros Hv. destruct (gt baselineVol zero) eqn:Hb; [|reflexivity].
  now apply div_finite_pos_notNaN.
Qed.

Lemma volScore_within vf : isNaN vf = false -> within zero (ofZ 100) (volScore log10 vf) = true.
Proof.
  intros Hvf. apply within_0_100_clamp.
  apply add_finite_notNaN; [reflexivity|].
  apply mul_const_notNaN. apply log10_defined.
  now destruct (max2_ge_l (ofZ 1) vf eq_refl Hvf) as (H & _).
Qed.

Lemma blend_within a b wa wb c :
  within zero (ofZ 100) a = true -> within zero (ofZ 100) b = true ->
  isFinite wa = true -> nonneg wa = true -> isFinite wb = true -> nonneg wb = true ->
  nonneg c = true ->
  within zero (ofZ 100) (clamp (add (add (mul a wa) (mul b wb)) c) zero (ofZ 100)) = true /\
  within zero (ofZ 100) (clamp (add (mul a wa) (mul b wb)) zero (ofZ 100)) = true.
Proof.
  intros Ha Hb Hwa1 Hwa2 Hwb1 Hwb2 Hc.
  apply within_finite_nonneg in Ha as [Ha1 Ha2], Hb as [Hb1 Hb2].
  assert (Hs : nonneg (add (mul a wa) (mul b wb)) = true)
    by (apply add_nonneg; apply mul_nonneg; assumption).
  split; apply within_0_100_clamp, nonneg_notNaN; [apply add_nonneg|]; assumption.
Qed.

(** C6: for a finite 24h change and a finite 24h volume, whatever the
    baseline volume, the change score, the volume score, the 15m and 1h
    scores and the combined score all lie in [0, 100]. *)
Theorem scores_within_0_100 (row : MarketRow) (baselineVol : number) :
  isFinite (default zero (change24h row)) = true ->
  isFinite (default zero (volume24hUsd row)) = true ->
  let s := scoreSetup log10 row baselineVol in
  within zero (ofZ 100) (changeScore (default zero (change24h row))) = true /\
  within zero (ofZ 100) (volScore log10 (volFactor s)) = true /\
  within zero (ofZ 100) (score15m s) = true /\
  within zero (ofZ 100) (score1h s) = true /\
  within zero (ofZ 100) (combinedScore s) = true.
Proof.
  intros Hch Hvol s.
  pose proof (changeScore_within _ Hch) as Hcs.
  pose proof (volScore_within _ (volFactor_notNaN _ baselineVol Hvol)) as Hvs.
  destruct (blend_within _ _ (dec 55 100) (dec 45 100) (ofZ 4) Hcs Hvs
              eq_refl eq_refl eq_refl eq_refl eq_refl) as [H15 _].
  destruct (blend_within _ _ (dec 65 100) (dec 35 100) (ofZ 4) Hcs Hvs
              eq_refl eq_refl eq_refl eq_refl eq_refl) as [_ H1h].
  destruct (blend_within _ _ (dec 48 100) (dec 52 100) (ofZ 4) H15 H1h
              eq_refl eq_refl eq_refl eq_refl eq_refl) as [_ Hcomb].
  repeat split; assumption.
Qed.
End Scores.

(** ** The commitment *)

Section Commitment.

Variable stringifyCommit : CommitConfig -> string.

(** Field by field: the contract of [commitToday] carries today's key;
    every numeric field of the draft that is not NaN is normalised: the
    risk lies in [0.1, 5], the loss cap is at least 0.5, the two counts are
    at least 1, and they are integers when the draft value is finite. *)
Lemma commitToday_normalizes (nowIso : string) (a : App.t) :
  let d := App.commitDraft a in
  let c := normalizedCommit (App.todayKey a) nowIso d in
  App.commit (commitToday stringifyCommit nowIso a) = Some c /\
  dayKey c = App.todayKey a /\
  (isNaN (riskPct d) = false -> within (dec 1 10) (ofZ 5) (riskPct c) = true) /\
  (isNaN (maxDailyLossR d) = false -> ge (maxDailyLossR c) (dec 1 2) = true) /\
  (isNaN (maxTrades d) = false -> ge (maxTrades c) (ofZ 1) = true) /\
  (valid (maxTrades d) = true -> isFinite (maxTrades d) = true ->
   isInteger (maxTrades c) = true) /\
  (isNaN (maxConsecutiveLosses d) = false ->
   ge (maxConsecutiveLosses c) (ofZ 1) = true) /\
  (valid (maxConsecutiveLosses d) = true -> isFinite (maxConsecutiveLosses d) = true ->
   isInteger (maxConsecutiveLosses c) = true).
Proof.
  cbv zeta. split; [reflexivity|]. split; [reflexivity|].
  cbn [riskPct maxDailyLossR maxTrades maxConsecutiveLosses normalizedCommit].
  assert (Hfin : forall x, isFinite x = true -> isNaN x = false)
    by (intros []; cbn; congruence).
  repeat split.
  - intros Hn. unfold within.
    destruct (clamp_bounds _ (dec 1 10) (ofZ 5) Hn eq_refl eq_refl) as [-> ->].
    reflexivity.
  - intros Hn. now destruct (max2_ge_l (dec 1 2) _ eq_refl Hn) as [H _].
  - intros Hn. now destruct (max2_floor_spec _ Hn) as [H _].
  - intros Hv Hf. now apply (max2_floor_spec _ (Hfin _ Hf)).
  - intros Hn. now destruct (max2_floor_spec _ Hn) as [H _].
  - intros Hv Hf. now apply (max2_floor_spec _ (Hfin _ Hf)).
Qed.

Lemma ge_one_positive (x : number) : ge x (ofZ 1) = true -> gt x zero = true.
Proof.
  destruct x as [s|s| |s m e]; try destruct s; intros H; try reflexivity;
    vm_compute in H; discriminate.
Qed.

Lemma ge_half_positive (x : number) : ge x (dec 1 2) = true -> gt x zero = true.
Proof.
  destruct x as [s|s| |s m e]; try destruct s; intros H; try reflexivity;
    vm_compute in H; discriminate.
Qed.

(** C10: every contract that [commitToday] produces is normalised, whatever
    the draft entered.  The four numbers of a draft come from
    [defaultCommit] or from [Number(e.target.value)] of a number input,
    which is a finite number (0 for an empty or unreadable field).  For
    such a draft the contract carries today's key, its risk lies in
    [0.1, 5], its trade cap and its loss-streak cap are integers at least
    1, its daily loss cap is at least 0.5; so no threshold of the guard is
    zero. *)
Theorem commitToday_contract_normalized (nowIso : string) (a : App.t) :
  let d := App.commitDraft a in
  let c := normalizedCommit (App.todayKey a) nowIso d in
  isFinite (riskPct d) = true ->
  isFinite (maxDailyLossR d) = true ->
  valid (maxTrades d) = true -> isFinite (maxTrades d) = true ->
  valid (maxConsecutiveLosses d) = true -> isFinite (maxConsecutiveLosses d) = true ->
  App.commit (commitToday stringifyCommit nowIso a) = Some c /\
  dayKey c = App.todayKey a /\
  within (dec 1 10) (ofZ 5) (riskPct c) = true /\
  (isInteger (maxTrades c) = true /\ ge (maxTrades c) (ofZ 1) = true) /\
  ge (maxDailyLossR c) (dec 1 2) = true /\
  (isInteger (maxConsecutiveLosses c) = true /\
   ge (maxConsecutiveLosses c) (ofZ 1) = true) /\
  (gt (maxTrades c) zero = true /\ gt (maxDailyLossR c) zero = true /\
   gt (maxConsecutiveLosses c) zero = true).
Proof.
  intros d c Hr Hl Hvt Hft Hvc Hfc.
  assert (Hfin : forall x, isFinite x = true -> isNaN x = false)
    by (intros []; cbn; congruence).
  destruct (commitToday_normalizes nowIso a)
    as (Hc & Hk & Hrisk & Hloss & Ht & Hti & Hs & Hsi).
  fold d in Hrisk, Hloss, Ht, Hti, Hs, Hsi. fold c in Hc, Hk, Hrisk, Hloss, Ht, Hti, Hs, Hsi.
  specialize (Hrisk (Hfin _ Hr)). specialize (Hloss (Hfin _ Hl)).
  specialize (Ht (Hfin _ Hft)). specialize (Hti Hvt Hft).
  specialize (Hs (Hfin _ Hfc)). specialize (Hsi Hvc Hfc).
  repeat split; try assumption.
  - now apply ge_one_positive.
  - now apply ge_half_positive.
  - now apply ge_one_positive.
Qed.

End Commitment.

(** ** The ledger under the guard *)

Section Ledger.

Variable toFixed : number -> nat -> string.
Variable numToString : number -> string.
Variable trim : string -> string.
Variable stringifyCommit : CommitConfig -> string.
Variable stringifyDayState : DayState.t -> string.

Local Abbreviation run' := (run toFixed numToString trim stringifyCommit stringifyDayState).
Local Abbreviation step' := (step toFixed numToString trim stringifyCommit stringifyDayState).

(** The auto-lock effect changes nothing, or sets the lock and its reason. *)
Lemma autoLock_cases a :
  autoLock toFixed numToString a = a \/
  exists reason,
    autoLock toFixed numToString a
    = App.set_dayState (DayState.lock reason (App.dayState a)) a.
Proof.
  unfold autoLock. destruct (commitRequired a); [now left|].
  destruct (DayState.locked _); [now left|].
  destruct (App.commit a); [|now left].
  destruct (ge _ _); [right; eauto|]. destruct (le _ _); [right; eauto|].
  destruct (ge _ _); [right; eauto|now left].
Qed.

Lemma autoLock_trades a :
  DayState.trades (App.dayState (autoLock toFixed numToString a))
  = DayState.trades (App.dayState a).
Proof.
  unfold autoLock. destruct (commitRequired a); [reflexivity|].
  destruct (DayState.locked _); [reflexivity|].
  destruct (App.commit a); [|reflexivity].
  destruct (ge _ _); [reflexivity|]. destruct (le _ _); [reflexivity|].
  destruct (ge _ _); reflexivity.
Qed.

Lemma computeR_finite_or_NaN_trade newId nowIso a :
  ledgerFinite a -> ledgerFinite (addTrade trim newId nowIso a).
Proof.
  unfold ledgerFinite, addTrade. intros H.
  destruct (isFinite (computeR _ _ _ _)) eqn:Hf; cbn [negb]; [|exact H].
  cbn. apply Forall_app. split; [exact H|]. constructor; [exact Hf|constructor].
Qed.

(** X1: whatever commands and effects run, the ledger holds only trades
    whose R multiple is a finite number: a log form that yields NaN (a stop
    on the wrong side, a field that is not a number) never adds a trade. *)
Theorem ledger_never_records_invalid_R (cs : list Command) (a : App.t) :
  ledgerFinite a ->
  ledgerFinite (fold_left (fun x c => run' c x) cs a).
Proof.
  revert a. induction cs as [|c cs IH]; intros a Ha; [exact Ha|].
  cbn [fold_left]. apply IH. clear IH.
  destruct c; cbn [run]; try exact Ha.
  - unfold clickLogTrade. destruct (tradingAllowed a); exact Ha.
  - unfold clickSaveTrade. destruct (LogForm.logOpen _); [|exact Ha].
    now apply computeR_finite_or_NaN_trade.
  - unfold clickEndSession. destruct (DayState.locked _); exact Ha.
  - unfold clearToday. destruct confirmed; cbn; [constructor|exact Ha].
  - unfold ledgerFinite. rewrite autoLock_trades. exact Ha.
Qed.

Lemma ge_refl x : isNaN x = false -> ge x x = true.
Proof. intros H. unfold ge, SFleb. now rewrite compare_refl. Qed.

Lemma ofZ_notNaN z : isNaN (ofZ z) = false.
Proof. apply binary_normalize_notNaN. Qed.

Lemma underCap_autoLock k a :
  let n := Z.of_nat (length (DayState.trades (App.dayState a))) in
  (App.commit a = None \/
   exists c, App.commit a = Some c /\ maxTrades c = ofZ k /\ dayKey c = App.todayKey a) ->
  n <= k -> (LogForm.logOpen (App.log a) = true -> n < k) ->
  underCap k (autoLock toFixed numToString a).
Proof.
  intros n Hc Hn Hlog. unfold underCap. rewrite autoLock_trades. fold n.
  assert (Hcommit : App.commit (autoLock toFixed numToString a) = App.commit a).
  { destruct (autoLock_cases a) as [->|[reason ->]]; reflexivity. }
  assert (Hlogeq : App.log (autoLock toFixed numToString a) = App.log a).
  { destruct (autoLock_cases a) as [->|[reason ->]]; reflexivity. }
  assert (Htoday : App.todayKey (autoLock toFixed numToString a) = App.todayKey a).
  { destruct (autoLock_cases a) as [->|[reason ->]]; reflexivity. }
  rewrite Hcommit, Hlogeq, Htoday.
  split; [exact Hc|]. split; [exact Hn|]. split; [exact Hlog|].
  intros Hsome Hunlocked.
  destruct Hc as [Hnone|(c & Hcs & Hmax & Hday)]; [contradiction|].
  destruct (Z.lt_ge_cases n k) as [Hlt|Hge]; [exact Hlt|exfalso].
  assert (Hnk : n = k) by lia.
  revert Hunlocked. unfold autoLock, commitRequired. rewrite Hcs, Hday, String.eqb_refl.
  cbn [negb]. destruct (DayState.locked (App.dayState a)) eqn:Hl; [congruence|].
  unfold tradesToday. fold n. rewrite Hmax, Hnk, (ge_refl _ (ofZ_notNaN k)).
  cbn. discriminate.
Qed.

(** X2: under a commitment for today with a trade cap of [k], no sequence
    of commands (each followed by the auto-lock effect, no new commitment
    among them) records more than [k] trades: the dialog opens only while
    fewer than [k] are recorded, and the [k]-th locks the day. *)
Theorem trade_cap_never_exceeded (k : Z) (cs : list Command) (a : App.t) :
  1 <= k ->
  underCap k a ->
  forallb (fun c => negb (isCommitToday c)) cs = true ->
  let a' := fold_left (fun x c => step' c x) cs a in
  underCap k a' /\ Z.of_nat (length (DayState.trades (App.dayState a'))) <= k.
Proof.
  intros Hk. revert a. induction cs as [|c cs IH]; intros a Ha Hcs.
  { split; [exact Ha|]. apply Ha. }
  cbn [forallb] in Hcs. apply andb_prop in Hcs as [Hc Hcs]. apply negb_true_iff in Hc.
  cbn [fold_left]. apply IH; [|exact Hcs]. clear IH Hcs.
  destruct Ha as (Hcommit & Hn & Hlog & Hopen).
  unfold step. destruct c; cbn [run]; try discriminate Hc.
  - (* log-trade click *)
    unfold clickLogTrade. destruct (tradingAllowed a) eqn:Ht.
    + apply underCap_autoLock; cbn; auto. intros _.
      apply Hopen.
      * unfold tradingAllowed, commitRequired in Ht. destruct (App.commit a); [discriminate|discriminate].
      * unfold tradingAllowed in Ht. destruct (commitRequired a); [discriminate|].
        destruct (DayState.locked _); [discriminate|reflexivity].
    + apply underCap_autoLock; auto.
  - (* save trade *)
    unfold clickSaveTrade. destruct (LogForm.logOpen (App.log a)) eqn:Ho.
    + unfold addTrade. destruct (negb (isFinite _)).
      * apply underCap_autoLock; auto.
      * apply underCap_autoLock; cbn; auto.
        -- rewrite length_app, Nat2Z.inj_add. cbn. specialize (Hlog eq_refl). lia.
        -- discriminate.
    + apply underCap_autoLock; auto. rewrite Ho. discriminate.
  - apply underCap_autoLock; cbn; auto. discriminate.
  - unfold clickEndSession. destruct (DayState.locked _); apply underCap_autoLock; auto.
  - apply underCap_autoLock; cbn; auto.
  - apply underCap_autoLock; cbn; auto.
  - unfold clearToday. destruct confirmed; cbn [negb].
    + apply underCap_autoLock; cbn; auto; lia.
    + apply underCap_autoLock; auto.
  - apply underCap_autoLock; auto.
    + destruct (autoLock_cases a) as [->|[reason ->]]; exact Hcommit.
    + now rewrite autoLock_trades.
    + rewrite autoLock_trades.
      destruct (autoLock_cases a) as [->|[reason ->]]; exact Hlog.
  - apply underCap_autoLock; auto.
Qed.
End Ledger.

(** *** The loss streak *)

Lemma trailingLosses_spec (newestFirst : list TradeRecord.t) :
  exists streak older,
    newestFirst = streak ++ older /\
    Z.of_nat (length streak) = trailingLosses newestFirst /\
    Forall (fun t => isLoss t = true) streak /\
    (forall t rest, older = t :: rest -> isLoss t = false).
Proof.
  induction newestFirst as [|t ts IH].
  - exists [], []. repeat split; [constructor|discriminate].
  - cbn [trailingLosses]. destruct (lt (TradeRecord.r t) zero) eqn:Ht.
    + destruct IH as (streak & older & -> & Hlen & Hall & Hold).
      exists (t :: streak), older. repeat split.
      * cbn [length]. rewrite Nat2Z.inj_succ. lia.
      * constructor; assumption.
      * exact Hold.
    + exists [], (t :: ts). repeat split; [constructor|].
      intros t' rest [= <- _]. exact Ht.
Qed.

(** X3: [consecutiveLosses] is the length of the longest run of losing
    trades (R below 0) that ends the ledger; one more loss extends it by
    one, a trade that is no loss resets it to 0. *)
Theorem consecutiveLosses_is_final_run (a : App.t) :
  exists earlier streak,
    DayState.trades (App.dayState a) = earlier ++ streak /\
    consecutiveLosses a = ofZ (Z.of_nat (length streak)) /\
    Forall (fun t => isLoss t = true) streak /\
    (forall before t, earlier = before ++ [t] -> isLoss t = false) /\
    (forall t, consecutiveLosses
                 (App.set_dayState (DayState.append t (App.dayState a)) a)
               = if isLoss t then ofZ (1 + Z.of_nat (length streak)) else ofZ 0).
Proof.
  unfold consecutiveLosses.
  destruct (trailingLosses_spec (rev (DayState.trades (App.dayState a))))
    as (streak & older & Hrev & Hlen & Hall & Hold).
  exists (rev older), (rev streak). repeat split.
  - rewrite <- rev_app_distr, <- Hrev. symmetry. apply rev_involutive.
  - rewrite length_rev, Hlen. reflexivity.
  - apply Forall_rev. exact Hall.
  - intros before t Hb. apply (Hold t (rev before)).
    rewrite <- (rev_involutive older), Hb, rev_app_distr. reflexivity.
  - intros t. cbn. rewrite rev_app_distr. cbn [rev app trailingLosses]. unfold isLoss.
    destruct (lt (TradeRecord.r t) zero); [|reflexivity].
    rewrite length_rev, Hlen. reflexivity.
Qed.

(** *** The sign of R *)

Lemma binary_normalize_lt_zero z e :
  emin <= e -> lt (binary_normalize prec emax z e false) zero = (z <? 0).
Proof.
  intros He. destruct z as [|p|p]; cbn [binary_normalize].
  - reflexivity.
  - pose proof (binary_round_signed false p e) as H.
    destruct (binary_round prec emax false p e); cbn in H; try contradiction; subst; reflexivity.
  - pose proof (binary_round_nonzero true p e He) as H.
    destruct (binary_round prec emax true p e); cbn in H; try contradiction; subst; reflexivity.
Qed.

Lemma sub_lt_zero a b :
  valid a = true -> valid b = true ->
  lt (sub a b) zero = lt a b.
Proof.
  intros Ha Hb.
  destruct a as [sa|sa| |sa ma ea], b as [sb|sb| |sb mb eb];
    try (destruct sa); try (destruct sb); try reflexivity.
  all: unfold lt at 2; unfold SFltb; rewrite compare_units by (assumption || reflexivity).
  all: unfold sub; cbn [SFsub].
  all: pose proof (valid_finite_inv _ _ _ Ha) as ((Hea & _) & _).
  all: pose proof (valid_finite_inv _ _ _ Hb) as ((Heb & _) & _).
  all: rewrite binary_normalize_lt_zero by lia.
  all: pose proof (shl_align_spec ma ea (Z.min ea eb)) as [HA' _].
  all: pose proof (shl_align_spec mb eb (Z.min ea eb)) as [HB' _].
  all: replace (Z.min ea (Z.min ea eb)) with (Z.min ea eb) in HA' by lia.
  all: replace (Z.min eb (Z.min ea eb)) with (Z.min ea eb) in HB' by lia.
  all: rewrite HA', HB'; cbn [units cond_Zopp].
  all: set (ez := Z.min ea eb) in *.
  all: assert (Hez : emin <= ez) by lia.
  all: replace (ea - emin) with ((ea - ez) + (ez - emin)) by lia.
  all: replace (eb - emin) with ((eb - ez) + (ez - emin)) by lia.
  all: rewrite !Z.pow_add_r by lia.
  all: assert (HK : 0 < 2 ^ (ez - emin)) by (apply Z.pow_pos_nonneg; lia).
  all: assert (HJa : 0 < 2 ^ (ea - ez)) by (apply Z.pow_pos_nonneg; lia).
  all: assert (HJb : 0 < 2 ^ (eb - ez)) by (apply Z.pow_pos_nonneg; lia).
  all: set (K := 2 ^ (ez - emin)) in *; set (A := Zpos ma * 2 ^ (ea - ez)) in *;
       set (B := Zpos mb * 2 ^ (eb - ez)) in *.
  all: assert (HApos : 0 < A) by (subst A; lia).
  all: assert (HBpos : 0 < B) by (subst B; lia).
  all: rewrite !Z.mul_assoc.
  all: fold A B.
  all: rewrite ltb_match.
  all: match goal with
       | |- (?D <? 0) = (?x <? ?y) =>
           destruct (Z.ltb_spec D 0), (Z.ltb_spec x y); try reflexivity; nia
       end.
Qed.

(** The sign of a quotient by a positive number is the sign of the
    dividend. *)
Lemma div_pos_sign a b :
  gt b zero = true ->
  (lt (div a b) zero = true -> lt a zero = true) /\
  (gt (div a b) zero = true -> gt a zero = true).
Proof.
  intros Hb.
  destruct b as [sb|sb| |sb mb eb]; try discriminate; destruct sb; try discriminate.
  - destruct a as [sa|sa| |sa ma ea]; try destruct sa; cbn; split; congruence.
  - destruct a as [sa|sa| |sa ma ea]; try (destruct sa; cbn; split; congruence);
      try (cbn; split; congruence).
    unfold div. cbn [SFdiv]. unfold SFdiv_core_binary.
    set (m' := match _ with Z0 => _ | Zpos _ => _ | Zneg _ => _ end).
    assert (Hm' : 0 <= m').
    { subst m'. destruct (_ - _ - _) eqn:E; try lia. apply Z.shiftl_nonneg. lia. }
    pose proof (div_eucl_nonneg m' (Zpos mb) Hm' ltac:(lia)) as Hq.
    destruct (Z.div_eucl m' (Zpos mb)) as [q r]. cbn [fst] in Hq.
    pose proof (binary_round_aux_signed (xorb sa false) q
                  (Z.min (fexp prec emax (Z.pos (digits2_pos ma) + ea - (Z.pos (digits2_pos mb) + eb))) (ea - eb))
                  (new_location (Z.pos mb) r) Hq) as Hs.
    cbn [Zdigits2] in *.
    destruct (binary_round_aux _ _ _ _ _ _) as [s|s| |s m e]; cbn in Hs; try contradiction;
      subst s; destruct sa; cbn; split; congruence.
Qed.

(** X4: the sign of R is the side of the exit: a long trade has a negative
    R only with the exit below the entry and a positive R only with the
    exit above it; for a short trade it is the reverse. *)
Theorem computeR_sign (entry stop exit : number) :
  valid entry = true -> valid exit = true ->
  (lt (computeR LONG entry stop exit) zero = true -> lt exit entry = true) /\
  (gt (computeR LONG entry stop exit) zero = true -> gt exit entry = true) /\
  (lt (computeR SHORT entry stop exit) zero = true -> gt exit entry = true) /\
  (gt (computeR SHORT entry stop exit) zero = true -> lt exit entry = true).
Proof.
  intros He Hx. unfold computeR.
  destruct (negb (forallb isFinite [entry; stop; exit])); [repeat split; discriminate|].
  assert (Hrisk : forall risk, le risk zero = false -> isNaN risk = false -> gt risk zero = true).
  { intros [s|s| |s m e]; try destruct s; cbn; congruence. }
  assert (Hnan : forall a, lt (div a NaN) zero = false /\ gt (div a NaN) zero = false).
  { intros []; split; reflexivity. }
  repeat split.
  - destruct (le (sub entry stop) zero) eqn:Hr; [discriminate|].
    destruct (isNaN (sub entry stop)) eqn:Hn.
    { apply isNaN_eq in Hn. rewrite Hn. intros H. now rewrite (proj1 (Hnan _)) in H. }
    intros H. apply (div_pos_sign _ _ (Hrisk _ Hr Hn)) in H.
    now rewrite sub_lt_zero in H.
  - destruct (le (sub entry stop) zero) eqn:Hr; [discriminate|].
    destruct (isNaN (sub entry stop)) eqn:Hn.
    { apply isNaN_eq in Hn. rewrite Hn. intros H. now rewrite (proj2 (Hnan _)) in H. }
    intros H. apply (div_pos_sign _ _ (Hrisk _ Hr Hn)) in H.
    now rewrite sub_gt_zero in H.
  - destruct (le (sub stop entry) zero) eqn:Hr; [discriminate|].
    destruct (isNaN (sub stop entry)) eqn:Hn.
    { apply isNaN_eq in Hn. rewrite Hn. intros H. now rewrite (proj1 (Hnan _)) in H. }
    intros H. apply (div_pos_sign _ _ (Hrisk _ Hr Hn)) in H.
    now rewrite sub_lt_zero in H.
  - destruct (le (sub stop entry) zero) eqn:Hr; [discriminate|].
    destruct (isNaN (sub stop entry)) eqn:Hn.
    { apply isNaN_eq in Hn. rewrite Hn. intros H. now rewrite (proj2 (Hnan _)) in H. }
    intros H. apply (div_pos_sign _ _ (Hrisk _ Hr Hn)) in H.
    now rewrite sub_gt_zero in H.
Qed.

(** ** Committing and persisting *)

Section Persisted.

Variable toFixed : number -> nat -> string.
Variable numToString : number -> string.
Variable JSON_parse : string -> option json.
Variable stringifyCommit : CommitConfig -> string.
Variable stringifyDayState : DayState.t -> string.

(** X5: the auto-lock effect is idempotent, does nothing on a locked day,
    and locks only under a commitment for today one of whose three limits
    (trades, daily loss, consecutive losses) is reached. *)
Theorem autoLock_settles (a : App.t) :
  let a' := autoLock toFixed numToString a in
  autoLock toFixed numToString a' = a' /\
  (DayState.locked (App.dayState a) = true -> a' = a) /\
  (DayState.locked (App.dayState a') = true ->
   DayState.locked (App.dayState a) = true \/
   exists c, App.commit a = Some c /\ dayKey c = App.todayKey a /\
     (ge (tradesToday a) (maxTrades c) = true \/
      le (rToday a) (neg (abs (maxDailyLossR c))) = true \/
      ge (consecutiveLosses a) (maxConsecutiveLosses c) = true)).
Proof.
  cbv zeta. split; [|split].
  - unfold autoLock at 2 3.
    destruct (commitRequired a) eqn:Hc; [unfold autoLock; now rewrite Hc|].
    destruct (DayState.locked (App.dayState a)) eqn:Hl; [unfold autoLock; now rewrite Hc, Hl|].
    destruct (App.commit a) as [c|] eqn:Hcom; [|unfold autoLock; now rewrite Hc, Hl, Hcom].
    assert (Hlocked : forall reason,
      autoLock toFixed numToString
        (App.set_dayState (DayState.lock reason (App.dayState a)) a)
      = App.set_dayState (DayState.lock reason (App.dayState a)) a).
    { intros reason. unfold autoLock.
      change (commitRequired (App.set_dayState _ a)) with (commitRequired a).
      rewrite Hc. reflexivity. }
    destruct (ge _ _) eqn:H1; [apply Hlocked|].
    destruct (le _ _) eqn:H2; [apply Hlocked|].
    destruct (ge (consecutiveLosses a) _) eqn:H3; [apply Hlocked|].
    unfold autoLock. now rewrite Hc, Hl, Hcom, H1, H2, H3.
  - intros Hl. unfold autoLock. rewrite Hl. destruct (commitRequired a); reflexivity.
  - unfold autoLock, commitRequired.
    destruct (App.commit a) as [c|] eqn:Hcom; [|auto].
    destruct (String.eqb (dayKey c) (App.todayKey a)) eqn:Hd; cbn [negb]; [|auto].
    apply String.eqb_eq in Hd.
    destruct (DayState.locked (App.dayState a)) eqn:Hl; [auto|].
    destruct (ge (tradesToday a) _) eqn:H1; [right; eauto 10|].
    destruct (le _ _) eqn:H2; [right; eauto 10|].
    destruct (ge (consecutiveLosses a) _) eqn:H3; [right; eauto 10|].
    intros H. congruence.
Qed.

(** X6: [commitToday] makes the commitment current without touching the
    day's record and sets the calculator's risk; the Re-commit button
    returns the day to uncommitted, where nothing is allowed even under
    override, and removes the stored commitment, so that no day loads it. *)
Theorem commit_and_recommit (nowIso : string) (a : App.t) :
  let committed := commitToday stringifyCommit nowIso a in
  let dropped := recommit a in
  (commitRequired committed = false /\
   App.dayState committed = App.dayState a /\
   tradingAllowed committed
   = negb (DayState.locked (App.dayState a))
     && (App.overrideGuard a
         || negb (isWait (status (App.sessionInfo a)))
            && sessionAllowedByCommit committed) /\
   (forall c, App.commit committed = Some c ->
      Sizing.riskPct (App.sizing committed) = riskPct c) /\
   App.localStorage committed !! LS_DAYSTATE = App.localStorage a !! LS_DAYSTATE) /\
  (commitRequired dropped = true /\
   App.dayState dropped = App.dayState a /\
   (forall b s, tradingAllowed (App.set_overrideGuard b dropped) = false /\
                coinActionAllowed (App.set_overrideGuard b dropped) s = false) /\
   (forall D, loadCommit JSON_parse (App.localStorage dropped) D = None) /\
   App.localStorage dropped !! LS_DAYSTATE = App.localStorage a !! LS_DAYSTATE).
Proof.
  cbv zeta. split.
  - assert (Hc : commitRequired (commitToday stringifyCommit nowIso a) = false).
    { unfold commitRequired. cbn. now rewrite String.eqb_refl. }
    repeat split.
    + exact Hc.
    + unfold tradingAllowed. rewrite Hc.
      change (App.dayState (commitToday stringifyCommit nowIso a)) with (App.dayState a).
      change (App.sessionInfo (commitToday stringifyCommit nowIso a)) with (App.sessionInfo a).
      change (App.overrideGuard (commitToday stringifyCommit nowIso a)) with (App.overrideGuard a).
      destruct (DayState.locked _), (App.overrideGuard a), (isWait _),
        (sessionAllowedByCommit _); reflexivity.
    + intros c [= <-]. reflexivity.
    + cbn. unfold saveCommit. now rewrite lookup_insert_ne.
  - split; [reflexivity|]. split; [reflexivity|]. split; [|split].
    + intros b s. split; reflexivity.
    + intros D. unfold loadCommit, getItem. cbn. now rewrite lookup_delete_eq.
    + cbn. now rewrite lookup_delete_ne.
Qed.

(** X7: round trip of the two persisted records, for a [JSON.parse] that
    reads back what [JSON.stringify] wrote: the commitment saved by
    [commitToday] and the day state saved by the persist effect load back
    on their own day; on any other day the loaders give nothing and the
    fresh day state. *)
Theorem saved_records_load_back (nowIso : string) (a : App.t) (vc vd : json) :
  let c := normalizedCommit (App.todayKey a) nowIso (App.commitDraft a) in
  let committed := commitToday stringifyCommit nowIso a in
  let persisted := persistDayState stringifyDayState a in
  (* JSON.parse reads back what JSON.stringify wrote *)
  truthyString (stringifyCommit c) = true ->
  JSON_parse (stringifyCommit c) = Some vc ->
  getProp vc "dayKey" = Some (JString (dayKey c)) ->
  truthyString (stringifyDayState (App.dayState a)) = true ->
  JSON_parse (stringifyDayState (App.dayState a)) = Some vd ->
  getProp vd "dayKey" = Some (JString (DayState.dayKey (App.dayState a))) ->
  (forall D,
     loadCommit JSON_parse (App.localStorage committed) D
     = if String.eqb (App.todayKey a) D then Some vc else None) /\
  (forall D,
     loadDayState JSON_parse (App.localStorage persisted) D
     = if String.eqb (DayState.dayKey (App.dayState a)) D then vd else freshDayState D).
Proof.
  cbv zeta. intros Hc1 Hc2 Hc3 Hd1 Hd2 Hd3. split; intros D.
  - unfold loadCommit, getItem. cbn. unfold saveCommit.
    rewrite lookup_insert_eq, Hc1, Hc2, Hc3. cbn. reflexivity.
  - unfold loadDayState, getItem. cbn. unfold saveDayState.
    rewrite lookup_insert_eq, Hd1, Hd2, Hd3. cbn [negb strictEqString].
    assert (Ht : truthyJson vd = true).
    { destruct vd; cbn in Hd3; try discriminate. reflexivity. }
    rewrite Ht. cbn. destruct (String.eqb _ D); reflexivity.
Qed.
End Persisted.

(** ** Pivot levels *)

Section Zones.

Lemma sameValueZero_mapKey k' k : sameValueZero k' (mapKey k) = sameValueZero k' k.
Proof. destruct k' as [| | |[] ? ?], k as [[]| | |[] ? ?]; reflexivity. Qed.

Lemma mapKey_self k : sameValueZero (mapKey k) k = true.
Proof.
  destruct k as [[]|[]| |s m e]; try reflexivity.
  unfold sameValueZero, SFeqb. cbn [mapKey isNaN andb orb].
  rewrite compare_refl; reflexivity.
Qed.


Lemma mapSet_keys k v m :
  keysOf (mapSet k v m) = keysOf m
  \/ (keysOf (mapSet k v m) = keysOf m ++ [mapKey k]
      /\ Forall (fun k' => sameValueZero k' k = false) (keysOf m)).
Proof.
  induction m as [|[k' v'] m IH]; cbn [mapSet].
  - right. split; [reflexivity|constructor].
  - destruct (sameValueZero k' k) eqn:Hk; [left; reflexivity|].
    destruct IH as [IH|[IH Hall]].
    + left. unfold keysOf in *. cbn [List.map fst]. now rewrite IH.
    + right. unfold keysOf in *. cbn [List.map fst app]. rewrite IH. split; [reflexivity|].
      constructor; assumption.
Qed.

Lemma mapSet_has k v m : Exists (fun k' => sameValueZero k' k = true) (keysOf (mapSet k v m)).
Proof.
  induction m as [|[k' v'] m IH]; cbn [mapSet].
  - constructor. apply mapKey_self.
  - destruct (sameValueZero k' k) eqn:Hk.
    + now constructor.
    + now apply List.Exists_cons_tl.
Qed.

Lemma ForallOrdPairs_snoc {A} (R : A -> A -> Prop) xs x :
  ForallOrdPairs R xs -> Forall (fun y => R y x) xs -> ForallOrdPairs R (xs ++ [x]).
Proof.
  induction 1 as [|a xs Ha Hxs IH]; intros Hall; cbn.
  - constructor; constructor.
  - inversion Hall; subst. constructor; [|auto].
    apply List.Forall_app. split; [assumption|]. constructor; [assumption|constructor].
Qed.


Lemma zoneMap_inv arr : forall init,
  ForallOrdPairs (fun a b => sameValueZero a b = false) (keysOf init) ->
  let m := zoneMap arr init in
  ForallOrdPairs (fun a b => sameValueZero a b = false) (keysOf m) /\
  (forall k, In k (keysOf m) -> In k (keysOf init) \/ exists p, In p arr /\ k = mapKey (zone p)) /\
  (forall k, Exists (fun k' => sameValueZero k' k = true) (keysOf init) ->
             Exists (fun k' => sameValueZero k' k = true) (keysOf m)) /\
  (forall p, In p arr -> Exists (fun k' => sameValueZero k' (zone p) = true) (keysOf m)).
Proof.
  induction arr as [|p arr IH]; intros init Hinit; cbn [zoneMap fold_left].
  - repeat split; auto. intros p [].
  - set (v := add _ _).
    assert (Hstep : ForallOrdPairs (fun a b => sameValueZero a b = false)
                      (keysOf (mapSet (zone p) v init))).
    { destruct (mapSet_keys (zone p) v init) as [->|[-> Hall]]; [assumption|].
      apply ForallOrdPairs_snoc; [assumption|].
      eapply List.Forall_impl; [|exact Hall]. intros a Ha. cbn beta.
      now rewrite sameValueZero_mapKey. }
    destruct (IH _ Hstep) as (I1 & I2 & I3 & I4). fold (zoneMap arr (mapSet (zone p) v init)).
    split; [exact I1|]. split; [|split].
    + intros k Hk. destruct (I2 k Hk) as [Hin|(q & Hq & ->)].
      * destruct (mapSet_keys (zone p) v init) as [E|[E _]]; rewrite E in Hin.
        -- now left.
        -- apply in_app_or in Hin as [Hin|[<-|[]]]; [now left|].
           right. exists p. split; [now left|reflexivity].
      * right. exists q. split; [now right|reflexivity].
    + intros k Hk. apply I3.
      destruct (mapSet_keys (zone p) v init) as [E|[E _]]; rewrite E; [assumption|].
      apply List.Exists_app. now left.
    + intros q [<-|Hq]; [|now apply I4].
      apply I3. apply mapSet_has.
Qed.

Lemma countZones_spec arr :
  distinctZones (countZones arr) /\
  (forall z, In z (countZones arr) -> exists p, In p arr /\ price z = mapKey (zone p)) /\
  (forall p, In p arr ->
             exists z, In z (countZones arr) /\ sameValueZero (price z) (zone p) = true).
Proof.
  destruct (zoneMap_inv arr [] (FOP_nil _)) as (I1 & I2 & _ & I4).
  unfold countZones. fold (zoneMap arr []). set (m := zoneMap arr []) in *.
  clearbody m. split; [|split].
  - unfold distinctZones. clear -I1. induction m as [|[k v] m IH]; cbn; [constructor|].
    inversion I1; subst. constructor; [|auto].
    rewrite List.Forall_map. cbn [price].
    unfold keysOf in *. now rewrite List.Forall_map in H1.
  - intros z Hz. apply in_map_iff in Hz as ([k v] & <- & Hin). cbn [price fst].
    destruct (I2 k) as [[]|Hp]; [|exact Hp].
    unfold keysOf. apply in_map_iff. now exists (k, v).
  - intros p Hp. specialize (I4 p Hp). apply List.Exists_exists in I4 as (k & Hk & Hsv).
    unfold keysOf in Hk. apply in_map_iff in Hk as ([k' v] & <- & Hin).
    exists {| price := k'; strength := v |}. split; [|exact Hsv].
    apply in_map_iff. now exists (k', v).
Qed.

Lemma interior_seq candles i :
  In i (seq 2 (length candles - 4)) <-> interior candles i.
Proof. rewrite in_seq. unfold interior. lia. Qed.

Lemma support_from_pivot_low candles z :
  In z (supports (computePivotLevels1h candles)) ->
  exists i, interior candles i /\ pivotLow candles i = true.
Proof.
  unfold computePivotLevels1h. cbn [supports]. intros Hz.
  destruct (countZones_spec
              (flat_map (fun i =>
                 if lt (l (nth i candles noCandle)) (l (nth (i - 1) candles noCandle))
                    && lt (l (nth i candles noCandle)) (l (nth (i + 1) candles noCandle))
                 then [l (nth i candles noCandle)] else [])
                 (seq 2 (length candles - 4)))) as (_ & S2 & _).
  destruct (S2 z Hz) as (p & Hp & _).
  apply in_flat_map in Hp as (i & Hi & Hp). apply interior_seq in Hi.
  exists i. split; [exact Hi|]. unfold pivotLow.
  destruct (_ && _); [reflexivity|destruct Hp].
Qed.

(** X8: the levels of [computePivotLevels1h] are the zones of the pivots:
    every support (resistance) is the rounded low (high) of a candle, not
    among the first two or the last two, whose low (high) lies strictly
    beyond both neighbours; every such candle is represented by a level;
    and no two levels of a list share a price. *)
Theorem computePivotLevels1h_spec candles :
  let lv := computePivotLevels1h candles in
  distinctZones (supports lv) /\ distinctZones (resistances lv) /\
  (forall z, In z (supports lv) ->
     exists i, interior candles i /\ pivotLow candles i = true /\
               price z = mapKey (zone (l (nth i candles noCandle)))) /\
  (forall z, In z (resistances lv) ->
     exists i, interior candles i /\ pivotHigh candles i = true /\
               price z = mapKey (zone (h (nth i candles noCandle)))) /\
  (forall i, interior candles i -> pivotLow candles i = true ->
     exists z, In z (supports lv) /\
               sameValueZero (price z) (zone (l (nth i candles noCandle))) = true) /\
  (forall i, interior candles i -> pivotHigh candles i = true ->
     exists z, In z (resistances lv) /\
               sameValueZero (price z) (zone (h (nth i candles noCandle))) = true).
Proof.
  cbv zeta. unfold computePivotLevels1h. cbn [supports resistances].
  set (supp := flat_map _ _). set (resist := flat_map _ _).
  assert (Hs : forall p, In p supp <->
            exists i, interior candles i /\ pivotLow candles i = true
                      /\ p = l (nth i candles noCandle)).
  { intros p. unfold supp. rewrite in_flat_map. split.
    - intros (i & Hi & Hp). apply interior_seq in Hi. exists i. unfold pivotLow.
      destruct (_ && _); [|destruct Hp]. destruct Hp as [<-|[]]. auto.
    - intros (i & Hi & Hpv & ->). exists i. split; [now apply interior_seq|].
      unfold pivotLow in Hpv. rewrite Hpv. now left. }
  assert (Hr : forall p, In p resist <->
            exists i, interior candles i /\ pivotHigh candles i = true
                      /\ p = h (nth i candles noCandle)).
  { intros p. unfold resist. rewrite in_flat_map. split.
    - intros (i & Hi & Hp). apply interior_seq in Hi. exists i. unfold pivotHigh.
      destruct (_ && _); [|destruct Hp]. destruct Hp as [<-|[]]. auto.
    - intros (i & Hi & Hpv & ->). exists i. split; [now apply interior_seq|].
      unfold pivotHigh in Hpv. rewrite Hpv. now left. }
  clearbody supp resist.
  destruct (countZones_spec supp) as (S1 & S2 & S3).
  destruct (countZones_spec resist) as (R1 & R2 & R3).
  split; [exact S1|]. split; [exact R1|]. split; [|split; [|split]].
  - intros z Hz. destruct (S2 z Hz) as (p & Hp & ->).
    apply Hs in Hp as (i & Hi & Hpv & ->). eauto.
  - intros z Hz. destruct (R2 z Hz) as (p & Hp & ->).
    apply Hr in Hp as (i & Hi & Hpv & ->). eauto.
  - intros i Hi Hpv. apply S3. apply Hs. eauto.
  - intros i Hi Hpv. apply R3. apply Hr. eauto.
Qed.

End Zones.

Section Verdict.

Variable toFixed : number -> nat -> string.

(** X9: a candle history without an interior pivot low (fewer than five
    candles, or lows that only rise or only fall) gives the verdict WAIT,
    no support below, at any price. *)
Theorem no_pivot_low_waits candles lastPrice :
  (forall i, interior candles i -> pivotLow candles i = false) ->
  evaluateStructure toFixed lastPrice (computePivotLevels1h candles) = waitNoSupport.
Proof.
  intros Hno.
  unfold evaluateStructure, supportsBelow.
  destruct (supports (computePivotLevels1h candles)) as [|z zs] eqn:E; [reflexivity|].
  destruct (support_from_pivot_low candles z) as (i & Hi & Hpv).
  { rewrite E. now left. }
  rewrite (Hno i Hi) in Hpv. discriminate.
Qed.

Variables (lastPrice : number) (levels : Levels).
Hypothesis valid_lastPrice : valid lastPrice = true.
Hypothesis valid_supports : Forall validZone (supports levels).

(** X10: the verdicts of [evaluateStructure] on binary64 prices: [ok]
    holds exactly for OK; without a support below the price the verdict is
    WAIT; WAIT names no resistance and no ratio; NO_EDGE always carries a
    ratio below 2 (the branch for a support not below the price is never
    taken); OK has a support below the price, a resistance above it
    within reach, and their ratio, which is not below 2. *)
Theorem evaluateStructure_verdict :
  let res := evaluateStructure toFixed lastPrice levels in
  ok res = isOk (label res) /\ source res = BINANCE_1H /\
  ((forall s, In s (supports levels) -> lt (price s) lastPrice = false) ->
   res = waitNoSupport) /\
  (label res = S_WAIT -> resistance res = None /\ roomTo2R res = None) /\
  (label res = S_NO_EDGE ->
   exists q, roomTo2R res = Some q /\ lt q (ofZ 2) = true /\
             reasons res = ["Room-to-2R fails: only " +:+ toFixed q 2 +:+ "R available."]) /\
  (label res = S_OK ->
   exists s r, In s (supports levels) /\ In r (resistances levels) /\
     support res = Some (price s) /\ resistance res = Some (price r) /\
     lt (price s) lastPrice = true /\ inReach lastPrice r = true /\
     roomTo2R res = Some (ratio lastPrice (sub lastPrice (price s)) r) /\
     lt (ratio lastPrice (sub lastPrice (price s)) r) (ofZ 2) = false).
Proof.
  cbv zeta.
  pose proof (sortBy_perm (fun a b : Zone => sub (price b) (price a))
                (List.filter (fun x => lt (price x) lastPrice) (supports levels))) as Hperm.
  fold (supportsBelow lastPrice levels) in Hperm.
  unfold evaluateStructure.
  destruct (supportsBelow lastPrice levels) as [|s0 rest] eqn:Hsb.
  { cbn. repeat split; try discriminate; auto. }
  assert (Hs0 : In s0 (supports levels) /\ lt (price s0) lastPrice = true).
  { apply (filter_In (fun x => lt (price x) lastPrice)). rewrite Hperm. now left. }
  destruct Hs0 as [Hs0 Hs0lt].
  rewrite List.Forall_forall in valid_supports.
  pose proof (valid_supports _ Hs0) as Hv0. unfold validZone in Hv0.
  assert (Hrisk : gt (sub lastPrice (price s0)) zero = true).
  { rewrite sub_gt_zero by assumption. exact Hs0lt. }
  cbv zeta. rewrite Hrisk. cbn [negb].
  assert (Hnot : (forall s, In s (supports levels) -> lt (price s) lastPrice = false) -> False).
  { intros Hall. rewrite (Hall _ Hs0) in Hs0lt. discriminate. }
  destruct (chooseTarget _ _ _) as [c|] eqn:Hch.
  2:{ cbn. repeat split; try discriminate; auto. intros H; destruct (Hnot H). }
  assert (Hc : In c (candidates lastPrice levels)).
  { unfold chooseTarget in Hch.
    destruct (find _ _) eqn:Hf.
    - inversion Hch; subst. now apply find_some in Hf.
    - destruct (candidates lastPrice levels); [discriminate|]. inversion Hch. now left. }
  unfold candidates in Hc. apply filter_In in Hc as [Hc Hreach].
  unfold resistAbove in Hc.
  rewrite <- (sortBy_perm (fun a b : Zone => sub (price a) (price b))) in Hc.
  apply filter_In in Hc as [Hc Habove].
  fold (ratio lastPrice (sub lastPrice (price s0)) c).
  destruct (lt (ratio _ _ c) (ofZ 2)) eqn:Hq; cbn.
  - repeat split; try discriminate; auto.
    + intros H; destruct (Hnot H).
    + intros _. eexists. repeat split. exact Hq.
  - repeat split; try discriminate; auto.
    + intros H; destruct (Hnot H).
    + intros _. exists s0, c. repeat split; auto.
      unfold inReach. now rewrite Habove, Hreach.
Qed.

End Verdict.

(** ** The scanner desk and the banner *)

Section DeskProperties.

Variable log10 : number -> number.




Lemma setups_In a fm s :
  In s (setups log10 a fm) <-> exists m, In m fm /\ s = setupOf log10 a (baselineVol fm) m.
Proof.
  unfold setups.
  rewrite <- (sortBy_perm (fun x y : SetupRow.t =>
             sub (combinedScore (SetupRow.score y)) (combinedScore (SetupRow.score x)))).
  rewrite in_map_iff. split; intros (m & H1 & H2); exists m; auto.
Qed.

Lemma In_firstn {A} n (xs : list A) x : In x (firstn n xs) -> In x xs.
Proof. intros H. rewrite <- (firstn_skipn n xs). apply in_or_app. now left. Qed.

(** X12: the best list holds at most 8 rows; each is a row of the scanner
    with a VALID entry, an OK structure result in the structure map and
    scores over the three thresholds, so its action is allowed whenever
    trading is; a row without micro metrics counts as VALID.  [bestSetup]
    is missing only on an empty market. *)
Theorem scannerBest_strict a fm :
  (length (scannerBest log10 a fm) <= 8)%nat /\
  (bestSetup log10 a fm = None <-> fm = []) /\
  forall s, In s (scannerBest log10 a fm) ->
    SetupRow.entryQuality s = VALID /\ SetupRow.structureLabel s = S_OK /\
    ge (combinedScore (SetupRow.score s)) (ofZ 70) = true /\
    ge (score1h (SetupRow.score s)) (ofZ 65) = true /\
    ge (volFactor (SetupRow.score s)) (dec 13 10) = true /\
    coinActionAllowed a s = tradingAllowed a /\
    exists m st,
      In m fm /\ s = setupOf log10 a (baselineVol fm) m /\
      Scan.structMap (App.scan a) !! symbol m = Some st /\ label st = S_OK /\
      match Scan.microMap (App.scan a) !! symbol m with
      | Some mi => entryQuality mi = VALID
      | None => True
      end.
Proof.
  split; [|split].
  - unfold scannerBest. rewrite length_firstn. lia.
  - unfold bestSetup. split.
    + destruct (scannerBest log10 a fm) eqn:E; [|discriminate].
      intros Hh. destruct fm as [|m fm]; [reflexivity|].
      destruct (setups log10 a (m :: fm)) as [|s ss] eqn:Es; [|discriminate].
      exfalso. assert (Hin : In (setupOf log10 a (baselineVol (m :: fm)) m) [])
        by (rewrite <- Es; apply setups_In; exists m; split; [now left|reflexivity]).
      destruct Hin.
    + intros ->. reflexivity.
  - intros s Hs. unfold scannerBest in Hs. apply In_firstn in Hs.
    apply filter_In in Hs as [Hs Hthr]. apply filter_In in Hs as [Hs Hok].
    apply filter_In in Hs as [Hs Hval].
    apply andb_prop in Hthr as [Hthr H3]. apply andb_prop in Hthr as [H1 H2].
    assert (Hq : SetupRow.entryQuality s = VALID)
      by (destruct (SetupRow.entryQuality s); try discriminate; reflexivity).
    assert (Hl : SetupRow.structureLabel s = S_OK)
      by (destruct (SetupRow.structureLabel s); try discriminate; reflexivity).
    repeat (split; [assumption|]). split.
    { unfold coinActionAllowed. rewrite Hq, Hl. cbn.
      destruct (tradingAllowed a), (App.overrideGuard a); reflexivity. }
    apply setups_In in Hs as (m & Hm & ->).
    unfold setupOf in Hq, Hl. cbn [SetupRow.entryQuality SetupRow.structureLabel] in Hq, Hl.
    destruct (Scan.structMap (App.scan a) !! symbol m) as [st|] eqn:Est;
      [|discriminate].
    exists m, st. repeat (split; [auto|]).
    destruct (Scan.microMap (App.scan a) !! symbol m) as [mi|]; [exact Hq|exact I].
Qed.

End DeskProperties.

(** X13: the banner agrees with the guard: it is red exactly when
    [tradingAllowed] is false, amber or green otherwise, and on a locked
    committed day it shows the reason of the lock. *)
Theorem processMessage_matches_guard a :
  (tradingAllowed a = false <-> fst (processMessage a) = toneRed) /\
  (tradingAllowed a = true ->
   fst (processMessage a)
   = if isSelective (status (App.sessionInfo a)) then toneAmber else toneGreen) /\
  (commitRequired a = false -> DayState.locked (App.dayState a) = true ->
   forall reason, DayState.lockedReason (App.dayState a) = Some reason ->
   snd (processMessage a) = reason).
Proof.
  unfold tradingAllowed, processMessage.
  destruct (commitRequired a); [repeat split; try discriminate; auto|].
  destruct (DayState.locked (App.dayState a)).
  { repeat split; try discriminate; auto. intros _ _ reason ->. reflexivity. }
  destruct (isWait _ && negb _); [repeat split; try discriminate; auto|].
  destruct (negb (sessionAllowedByCommit a) && negb _);
    [repeat split; try discriminate; auto|].
  destruct (isSelective _); repeat split; try discriminate; auto.
Qed.

(** ** One refresh cycle *)

Section Refresh.

Variable toFixed : number -> nat -> string.
Variable log10 : number -> number.
Variable toUpperCase : string -> string.
Variable COINS : list Coin.t.

Local Abbreviation refresh' := (refresh toFixed log10 toUpperCase COINS).
Local Abbreviation merged' rows := (List.map (mergeRow toUpperCase rows) COINS).
Local Abbreviation ranked' rows := (rankedTemp log10 (List.map (mergeRow toUpperCase rows) COINS)).
Local Abbreviation refreshSteps' := (refreshSteps toFixed log10 toUpperCase COINS).
Local Abbreviation refreshSnapshot' := (refreshSnapshot toUpperCase COINS).

Lemma fromPairs_fold {V} (pairs : list (string * V)) : forall (init : gmap string V) k,
  (fold_left (fun next kv => <[fst kv := snd kv]> next) pairs init !! k = init !! k
   /\ ~ In k (List.map fst pairs))
  \/ exists v, In (k, v) pairs
               /\ fold_left (fun next kv => <[fst kv := snd kv]> next) pairs init !! k = Some v.
Proof.
  induction pairs as [|[k0 v0] pairs IH]; intros init k; cbn [fold_left List.map fst snd].
  - left. split; [reflexivity|]. intros [].
  - destruct (IH (<[k0 := v0]> init) k) as [[E Hn]|(v & Hin & E)].
    + destruct (decide (k0 = k)) as [->|Hne].
      * right. exists v0. split; [now left|]. rewrite E. apply lookup_insert_eq.
      * left. split.
        -- rewrite E. now apply lookup_insert_ne.
        -- intros [H|H]; [cbn in H; congruence|auto].
    + right. exists v. split; [now right|exact E].
Qed.

Lemma fromPairs_lookup {V} (pairs : list (string * V)) k :
  (fromPairs pairs !! k = None /\ ~ In k (List.map fst pairs))
  \/ exists v, In (k, v) pairs /\ fromPairs pairs !! k = Some v.
Proof.
  unfold fromPairs. destruct (fromPairs_fold pairs ∅ k) as [[E Hn]|H]; [left|right; exact H].
  split; [|exact Hn]. rewrite E. apply lookup_empty.
Qed.

Lemma spread_lookup {V} (prev next : gmap string V) k :
  spread prev next !! k = match next !! k with Some v => Some v | None => prev !! k end.
Proof.
  unfold spread. rewrite lookup_union.
  destruct (next !! k), (prev !! k); reflexivity.
Qed.

Lemma rankedTemp_In rows x :
  In x (ranked' rows) ->
  exists c, In c COINS /\ Ranked.symbol x = toUpperCase (Coin.symbol c)
            /\ Ranked.cgId x = Coin.cgId c /\ truthyId (Coin.cgId c) = true.
Proof.
  unfold rankedTemp. intros Hin. apply In_firstn in Hin.
  rewrite <- (sortBy_perm (fun a b : Ranked.t => sub (Ranked.combined b) (Ranked.combined a)))
    in Hin.
  apply filter_In in Hin as [Hin Hid].
  apply in_map_iff in Hin as (m & <- & Hm).
  apply in_map_iff in Hm as (c & <- & Hc).
  exists c. cbn in *. auto.
Qed.

Lemma rankedTemp_length rows : (length (ranked' rows) <= 10)%nat.
Proof. unfold rankedTemp. rewrite length_firstn. lia. Qed.

Lemma microPairs_In up ranked ps k v :
  microPairs toFixed up ranked = Some ps -> In (k, v) ps ->
  exists x prices, In x ranked /\ k = Ranked.symbol x
    /\ Upstream.hourly up (default "" (Ranked.cgId x)) = Some prices
    /\ v = computeMicro toFixed (List.filter isFinite prices).
Proof.
  unfold microPairs. intros Hm. apply mapM_Some in Hm.
  induction Hm as [|x p ranked ps Hx Hrest IH]; intros Hin; [destruct Hin|].
  destruct Hin as [->|Hin].
  - unfold fetchCoinGeckoHourly24h in Hx.
    destruct (Upstream.hourly up _) as [prices|] eqn:E; [|discriminate].
    cbn in Hx. inversion Hx; subst. exists x, prices. repeat split; auto. now left.
  - destruct (IH Hin) as (y & prices & Hy & H). exists y, prices. split; [now right|exact H].
Qed.

Lemma microPairs_keys up ranked ps :
  microPairs toFixed up ranked = Some ps ->
  List.map fst ps = List.map Ranked.symbol ranked.
Proof.
  unfold microPairs. intros Hm. apply mapM_Some in Hm.
  induction Hm as [|x p ranked ps Hx Hrest IH]; [reflexivity|].
  cbn [List.map]. rewrite IH. f_equal.
  destruct (fetchCoinGeckoHourly24h up _); [|discriminate]. cbn in Hx.
  inversion Hx. reflexivity.
Qed.

Lemma structPair_fst up merged x : fst (structPair toFixed toUpperCase up merged x) = Ranked.symbol x.
Proof.
  unfold structPair. destruct (_ ≫= priceUsd) as [p|]; [|reflexivity].
  destruct (_ || _); [reflexivity|]. destruct (fetchCoinbase1hCandles _ _ _); reflexivity.
Qed.

Lemma refresh_fields (up : Upstream.t) (a : App.t) rows :
  Upstream.markets up = inl rows ->
  Scan.microMap (App.scan (refresh' up a))
  = match nextMicro toFixed log10 toUpperCase COINS up rows with
    | Some next => spread (Scan.microMap (App.scan a)) next
    | None => Scan.microMap (App.scan a)
    end /\
  Scan.structMap (App.scan (refresh' up a))
  = spread (Scan.structMap (App.scan a)) (nextStruct toFixed log10 toUpperCase COINS up rows) /\
  Scan.market (App.scan (refresh' up a)) = merged' rows /\
  Scan.error (App.scan (refresh' up a)) = None /\
  App.sizing (refresh' up a) = autofill (merged' rows) (App.sizing a).
Proof.
  intros Hmk. unfold refresh. rewrite Hmk. cbv zeta.
  destruct (nextMicro _ _ _ _ _ _); repeat split; reflexivity.
Qed.

Lemma refresh_as_steps (up : Upstream.t) (a : App.t) :
  refresh' up a = fold_left (fun x step => step x) (refreshSteps' up (App.sizing a)) a.
Proof.
  unfold refreshSteps, refresh, refreshStart, refreshSnapshot, refreshMicro, refreshStruct.
  cbn [fold_left].
  destruct (Upstream.markets up) as [rows|message]; [|reflexivity].
  cbv zeta. destruct (nextMicro _ _ _ _ _ _); reflexivity.
Qed.

Lemma touched_micro up rows (prev : gmap string MicroMetrics) sym :
  ~ In sym (List.map Ranked.symbol (ranked' rows)) ->
  match nextMicro toFixed log10 toUpperCase COINS up rows with
  | Some next => spread prev next
  | None => prev
  end !! sym = prev !! sym.
Proof.
  intros Hnot. unfold nextMicro.
  destruct (microPairs toFixed up (ranked' rows)) as [ps|] eqn:Eps; cbn; [|reflexivity].
  rewrite spread_lookup.
  destruct (fromPairs_lookup ps sym) as [[-> _]|(v & Hin & _)]; [reflexivity|].
  exfalso. apply Hnot. rewrite <- (microPairs_keys _ _ _ Eps).
  apply in_map_iff. now exists (sym, v).
Qed.

Lemma touched_struct up rows (prev : gmap string StructureResult) sym :
  ~ In sym (List.map Ranked.symbol (ranked' rows)) ->
  spread prev (nextStruct toFixed log10 toUpperCase COINS up rows) !! sym = prev !! sym.
Proof.
  intros Hnot. rewrite spread_lookup. unfold nextStruct.
  destruct (fromPairs_lookup
              (List.map (structPair toFixed toUpperCase up (merged' rows)) (ranked' rows)) sym)
    as [[-> _]|(v & Hin & _)]; [reflexivity|].
  exfalso. apply Hnot. apply in_map_iff in Hin as (x & Hx & Hin).
  apply in_map_iff. exists x. split; [|exact Hin].
  rewrite <- (structPair_fst up (merged' rows) x), Hx. reflexivity.
Qed.

Lemma spread_keeps {V} (prev next : gmap string V) sym :
  is_Some (prev !! sym) -> is_Some (spread prev next !! sym).
Proof.
  intros [v Hv]. rewrite spread_lookup, Hv. destruct (next !! sym); eauto.
Qed.

Lemma autofillFrom_fields merged started z :
  Sizing.focusSymbol (autofillFrom merged started z) = Sizing.focusSymbol z /\
  Sizing.riskPct (autofillFrom merged started z) = Sizing.riskPct z /\
  (isZero (Sizing.entryPrice started) = false ->
   Sizing.entryPrice (autofillFrom merged started z) = Sizing.entryPrice z) /\
  (isZero (Sizing.stopPrice started) = false ->
   Sizing.stopPrice (autofillFrom merged started z) = Sizing.stopPrice z).
Proof.
  unfold autofillFrom.
  destruct (_ ≫= priceUsd) as [p|]; [|repeat split].
  destruct (truthy p); [|repeat split].
  destruct (isZero (Sizing.entryPrice started)), (isZero (Sizing.stopPrice started));
    repeat split; intros; try discriminate; reflexivity.
Qed.

(** X14: a refresh cycle runs in four steps, between which other events
    may change the state; the cycle that nothing interrupts is their
    composition.  Whatever the three sources return and whatever state a
    step finds, it leaves the commitment, the day's record, the log form,
    the override, the stored records, the focus symbol and the risk alone;
    it never removes an entry of the two maps, and changes those of at most
    10 symbols, each the upper-cased symbol of a watchlist coin with a
    CoinGecko id.  It writes the entry (the stop) price only when that
    price was 0 in the render that started the cycle; then the price of
    the focused coin (times 0.985) replaces whatever price the state
    holds, one typed in the meantime included. *)
Theorem refresh_scope (up : Upstream.t) (started : Sizing.t) :
  (forall a, refresh' up a
             = fold_left (fun x step => step x) (refreshSteps' up (App.sizing a)) a) /\
  (exists touched : list string,
     (length touched <= 10)%nat /\
     (forall sym, In sym touched ->
        exists c, In c COINS /\ sym = toUpperCase (Coin.symbol c)
                  /\ truthyId (Coin.cgId c) = true) /\
     forall step a, In step (refreshSteps' up started) ->
       let a' := step a in
       (App.commit a' = App.commit a /\ App.dayState a' = App.dayState a /\
        App.log a' = App.log a /\ App.overrideGuard a' = App.overrideGuard a /\
        App.localStorage a' = App.localStorage a /\
        tradingAllowed a' = tradingAllowed a) /\
       (forall sym, is_Some (Scan.microMap (App.scan a) !! sym) ->
                    is_Some (Scan.microMap (App.scan a') !! sym)) /\
       (forall sym, is_Some (Scan.structMap (App.scan a) !! sym) ->
                    is_Some (Scan.structMap (App.scan a') !! sym)) /\
       (forall sym, ~ In sym touched ->
          Scan.microMap (App.scan a') !! sym = Scan.microMap (App.scan a) !! sym /\
          Scan.structMap (App.scan a') !! sym = Scan.structMap (App.scan a) !! sym) /\
       (Sizing.focusSymbol (App.sizing a') = Sizing.focusSymbol (App.sizing a) /\
        Sizing.riskPct (App.sizing a') = Sizing.riskPct (App.sizing a) /\
        (isZero (Sizing.entryPrice started) = false ->
         Sizing.entryPrice (App.sizing a') = Sizing.entryPrice (App.sizing a)) /\
        (isZero (Sizing.stopPrice started) = false ->
         Sizing.stopPrice (App.sizing a') = Sizing.stopPrice (App.sizing a)))) /\
  (forall a rows p,
     Upstream.markets up = inl rows ->
     find (fun m => String.eqb (symbol m) (Sizing.focusSymbol started)) (merged' rows)
       ≫= priceUsd = Some p ->
     truthy p = true ->
     (isZero (Sizing.entryPrice started) = true ->
      Sizing.entryPrice (App.sizing (refreshSnapshot' up started a)) = p) /\
     (isZero (Sizing.stopPrice started) = true ->
      Sizing.stopPrice (App.sizing (refreshSnapshot' up started a))
      = mul p (dec 985 1000))).
Proof.
  split; [apply refresh_as_steps|]. split.
  - unfold refreshSteps, refreshStart, refreshSnapshot, refreshMicro, refreshStruct.
    destruct (Upstream.markets up) as [rows|message] eqn:Hmk.
    + exists (List.map Ranked.symbol (ranked' rows)). split; [|split].
      * rewrite length_map. apply rankedTemp_length.
      * intros sym Hin. apply in_map_iff in Hin as (x & <- & Hx).
        apply rankedTemp_In in Hx as (c & Hc & Hs & _ & Hid). eauto.
      * intros step a [<-|[<-|[<-|[<-|[]]]]]; cbv zeta.
        -- repeat split; auto.
        -- cbn. split; [repeat split|]. split; [auto|]. split; [auto|].
           split; [auto|]. apply autofillFrom_fields.
        -- split.
           { destruct (nextMicro _ _ _ _ _ _); repeat split. }
           split.
           { intros sym Hs. destruct (nextMicro _ _ _ _ _ _); [|exact Hs].
             cbn. now apply spread_keeps. }
           split.
           { intros sym Hs. destruct (nextMicro _ _ _ _ _ _); exact Hs. }
           split.
           { intros sym Hnot. split.
             - pose proof (touched_micro up rows (Scan.microMap (App.scan a)) sym Hnot) as H.
               destruct (nextMicro _ _ _ _ _ _); exact H.
             - destruct (nextMicro _ _ _ _ _ _); reflexivity. }
           destruct (nextMicro _ _ _ _ _ _); repeat split.
        -- cbn. split; [repeat split|]. split; [auto|].
           split; [intros sym Hs; now apply spread_keeps|].
           split; [|repeat split].
           intros sym Hnot. split; [reflexivity|]. now apply touched_struct.
    + exists []. split; [cbn; lia|]. split; [intros sym []|].
      intros step a [<-|[<-|[<-|[<-|[]]]]]; cbv zeta; cbn; repeat split; auto.
  - intros a rows p Hmk Hp Ht. unfold refreshSnapshot. rewrite Hmk. cbn.
    unfold autofillFrom. rewrite Hp, Ht.
    split; intros Hz; rewrite ?Hz.
    + destruct (isZero (Sizing.stopPrice started)); reflexivity.
    + reflexivity.
Qed.

(** X15: after a successful snapshot, one failed hourly request leaves the
    whole entry-quality map as it was; when all succeed every ranked
    symbol gets the metrics of its prices; the structure map gets a result
    for every ranked symbol in any case (a coin without candles gets a
    WAIT result of its own). *)
Theorem refresh_batches (up : Upstream.t) (a : App.t) rows :
  Upstream.markets up = inl rows ->
  let a' := refresh' up a in
  let ranked := ranked' rows in
  (Exists (fun x => Upstream.hourly up (default "" (Ranked.cgId x)) = None) ranked ->
   Scan.microMap (App.scan a') = Scan.microMap (App.scan a)) /\
  (Forall (fun x => is_Some (Upstream.hourly up (default "" (Ranked.cgId x)))) ranked ->
   forall x, In x ranked ->
     exists y prices, In y ranked /\ Ranked.symbol y = Ranked.symbol x
       /\ Upstream.hourly up (default "" (Ranked.cgId y)) = Some prices
       /\ Scan.microMap (App.scan a') !! Ranked.symbol x
          = Some (computeMicro toFixed (List.filter isFinite prices))) /\
  (forall x, In x ranked ->
     exists y, In y ranked /\ Ranked.symbol y = Ranked.symbol x
       /\ Scan.structMap (App.scan a') !! Ranked.symbol x
          = Some (snd (structPair toFixed toUpperCase up (merged' rows) y))) /\
  Scan.market (App.scan a') = merged' rows /\ Scan.error (App.scan a') = None.
Proof.
  intros Hmk. cbv zeta.
  destruct (refresh_fields up a rows Hmk) as (Em & Es & Ek & Ee & _).
  rewrite Em, Es, Ek, Ee. clear Em Es Ek Ee.
  set (ranked := ranked' rows).
  split; [|split; [|split]].
  - intros Hex. unfold nextMicro. fold ranked.
    assert (Hnone : microPairs toFixed up ranked = None).
    { unfold microPairs. apply mapM_None. eapply List.Exists_impl; [|exact Hex].
      intros x Hx. cbn beta. unfold fetchCoinGeckoHourly24h. now rewrite Hx. }
    rewrite Hnone. reflexivity.
  - intros Hall x Hx. unfold nextMicro. fold ranked.
    destruct (microPairs toFixed up ranked) as [ps|] eqn:Eps.
    2:{ exfalso. unfold microPairs in Eps. apply mapM_None in Eps.
        apply List.Exists_exists in Eps as (y & Hy & Hnone).
        rewrite List.Forall_forall in Hall. destruct (Hall y Hy) as [prices Hp].
        unfold fetchCoinGeckoHourly24h in Hnone. rewrite Hp in Hnone. discriminate. }
    cbn. rewrite spread_lookup.
    destruct (fromPairs_lookup ps (Ranked.symbol x)) as [[_ Hn]|(v & Hin & ->)].
    + exfalso. apply Hn. rewrite (microPairs_keys _ _ _ Eps). now apply in_map.
    + destruct (microPairs_In _ _ _ _ _ Eps Hin) as (y & prices & Hy & Hs & Hp & ->).
      exists y, prices. auto.
  - intros x Hx. rewrite spread_lookup. unfold nextStruct. fold ranked.
    destruct (fromPairs_lookup
                (List.map (structPair toFixed toUpperCase up (merged' rows)) ranked)
                (Ranked.symbol x)) as [[_ Hn]|(v & Hin & ->)].
    + exfalso. apply Hn. rewrite map_map. apply in_map_iff. exists x.
      split; [apply structPair_fst|exact Hx].
    + apply in_map_iff in Hin as (y & Hy & Hin). exists y. split; [exact Hin|].
      split; [|now rewrite Hy].
      rewrite <- (structPair_fst up (merged' rows) y), Hy. reflexivity.
  - split; reflexivity.
Qed.

End Refresh.

(** ** The clock *)

Ltac pick_window :=
  first [ split; [lia|split; reflexivity]
        | left; split; [lia|split; reflexivity]
        | right; pick_window ].

Ltac pick_session :=
  first [ split; [lia|reflexivity]
        | left; split; [lia|reflexivity]
        | right; pick_session ].

Lemma computeSession_cases hours minutes :
  let cur := hours * 60 + minutes in
  (420 <= cur < 960 /\ nextChangeAt hours minutes = makeNext 16 0 0 /\
   computeSession hours minutes
   = {| session := "ASIA"; status := SELECTIVE;
        note := "Decent for some alts/scalps. Be picky (A+ only)." |}) \/
  (960 <= cur < 1260 /\ nextChangeAt hours minutes = makeNext 21 0 0 /\
   computeSession hours minutes
   = {| session := "EUROPE"; status := TRADE;
        note := "Good activity. Trade A+ setups only." |}) \/
  (1260 <= cur /\ nextChangeAt hours minutes = makeNext 1 0 1 /\
   computeSession hours minutes
   = {| session := "EUROPE + US OVERLAP"; status := TRADE;
        note := "Best liquidity/volatility. Highest quality breakouts often occur here." |}) \/
  (cur < 60 /\ nextChangeAt hours minutes = makeNext 1 0 0 /\
   computeSession hours minutes
   = {| session := "EUROPE + US OVERLAP"; status := TRADE;
        note := "Best liquidity/volatility. Highest quality breakouts often occur here." |}) \/
  (60 <= cur < 360 /\ nextChangeAt hours minutes = makeNext 6 0 0 /\
   computeSession hours minutes
   = {| session := "US"; status := TRADE; note := "Strong activity. Don’t overtrade." |}) \/
  (360 <= cur < 420 /\ nextChangeAt hours minutes = makeNext 7 0 0 /\
   computeSession hours minutes
   = {| session := "OFF-PEAK"; status := WAIT;
        note := "Thin/awkward window. Avoid forcing trades; wait for Asia/Europe." |}).
Proof.
  cbv zeta. unfold computeSession, nextChangeAt. cbv zeta.
  set (cur := hours * 60 + minutes).
  change (7 * 60) with 420. change (16 * 60) with 960. change (21 * 60) with 1260.
  change (1 * 60) with 60. change (6 * 60) with 360.
  destruct (Z.leb_spec 420 cur), (Z.ltb_spec cur 960); cbn [andb orb];
    try solve [pick_window];
    destruct (Z.leb_spec 960 cur), (Z.ltb_spec cur 1260); cbn [andb orb];
    try lia; try solve [pick_window];
    destruct (Z.leb_spec 1260 cur), (Z.ltb_spec cur 60); cbn [andb orb];
    try lia; try solve [pick_window];
    destruct (Z.leb_spec 60 cur), (Z.ltb_spec cur 360); cbn [andb orb];
    try lia; try solve [pick_window];
    destruct (Z.leb_spec 360 cur), (Z.ltb_spec cur 420); cbn [andb orb];
    try lia; solve [pick_window].
Qed.

Lemma sessionAtMinute_minutes t :
  (t mod 1440 / 60) * 60 + t mod 60 = t mod 1440.
Proof.
  pose proof (Z.div_mod (t mod 1440) 60 ltac:(lia)) as H.
  rewrite (Z.mod_mod_divide t 1440 60) in H by (exists 24; reflexivity). lia.
Qed.

Lemma sessionAtMinute_cases t :
  0 <= t < 2880 ->
  exists u, (u = t \/ u = t - 1440) /\ 0 <= u < 1440 /\
  ((420 <= u < 960 /\ session (sessionAtMinute t) = "ASIA") \/
   (960 <= u < 1260 /\ session (sessionAtMinute t) = "EUROPE") \/
   ((1260 <= u \/ u < 60) /\ session (sessionAtMinute t) = "EUROPE + US OVERLAP") \/
   (60 <= u < 360 /\ session (sessionAtMinute t) = "US") \/
   (360 <= u < 420 /\ session (sessionAtMinute t) = "OFF-PEAK")) /\
  sessionAtMinute t = computeSession (u / 60) (u mod 60) /\
  (u / 60) * 60 + u mod 60 = u.
Proof.
  intros Ht. exists (t mod 1440).
  assert (Hu : t mod 1440 = t \/ t mod 1440 = t - 1440).
  { destruct (Z.lt_ge_cases t 1440).
    - left. apply Z.mod_small. lia.
    - right. replace t with ((t - 1440) + 1 * 1440) at 1 by lia.
      rewrite Z.mod_add by lia. apply Z.mod_small. lia. }
  split; [exact Hu|]. split; [apply Z.mod_pos_bound; lia|].
  pose proof (sessionAtMinute_minutes t) as Hmin.
  assert (Hm60 : (t mod 1440) mod 60 = t mod 60)
    by (apply Z.mod_mod_divide; exists 24; reflexivity).
  split; [|split].
  - unfold sessionAtMinute.
    destruct (computeSession_cases (t mod 1440 / 60) (t mod 60))
      as [(Hc & _ & ->)|[(Hc & _ & ->)|[(Hc & _ & ->)|[(Hc & _ & ->)|[(Hc & _ & ->)|(Hc & _ & ->)]]]]];
      cbv zeta in Hc; rewrite Hmin in Hc; cbn [session]; pick_session.
  - unfold sessionAtMinute. now rewrite Hm60.
  - rewrite Hm60. exact Hmin.
Qed.

Lemma nextChangeAt_wait hours minutes :
  0 <= hours < 24 -> 0 <= minutes < 60 ->
  let nc := nextChangeAt hours minutes in
  0 < (addDays nc * 24 + targetHour nc) * 60 + targetMin nc - (hours * 60 + minutes) <= 540.
Proof.
  intros Hh Hm. cbv zeta.
  destruct (computeSession_cases hours minutes)
    as [(Hc & -> & _)|[(Hc & -> & _)|[(Hc & -> & _)|[(Hc & -> & _)|[(Hc & -> & _)|(Hc & -> & _)]]]]];
    cbv zeta in Hc; cbn [addDays targetHour targetMin makeNext]; lia.
Qed.

(** X16: [nextChangeAt] is the end of the current window: it lies between
    one minute and nine hours ahead, the session is the same at every
    minute before it and another one at it.  The default branch of
    [computeSession] is never taken, and the status is WAIT only between
    06:00 and 07:00. *)
Theorem session_changes_at_nextChangeAt hours minutes :
  0 <= hours < 24 -> 0 <= minutes < 60 ->
  let cur := hours * 60 + minutes in
  let nc := nextChangeAt hours minutes in
  let wait := (addDays nc * 24 + targetHour nc) * 60 + targetMin nc - cur in
  0 < wait <= 540 /\
  (forall k, 0 <= k < wait -> sessionAtMinute (cur + k) = computeSession hours minutes) /\
  session (sessionAtMinute (cur + wait)) <> session (computeSession hours minutes) /\
  note (computeSession hours minutes)
  <> "Low quality window. Prefer waiting for Europe/US activity." /\
  (status (computeSession hours minutes) = WAIT <-> 360 <= cur < 420).
Proof.
  intros Hh Hm. cbv zeta.
  set (cur := hours * 60 + minutes).
  assert (Hstay : forall k T, 0 <= cur + k < 2880 ->
            (forall u, (u = cur + k \/ u = cur + k - 1440) -> 0 <= u < 1440 ->
                       computeSession (u / 60) (u mod 60) = T) ->
            sessionAtMinute (cur + k) = T).
  { intros k T Hk HT. destruct (sessionAtMinute_cases (cur + k) Hk) as (u & Hu & Hb & _ & -> & _).
    now apply HT. }
  assert (Hleave : forall w, 0 <= cur + w < 2880 ->
            forall s, (forall u, (u = cur + w \/ u = cur + w - 1440) -> 0 <= u < 1440 ->
                       (420 <= u < 960 -> s <> "ASIA") /\
                       (960 <= u < 1260 -> s <> "EUROPE") /\
                       (1260 <= u \/ u < 60 -> s <> "EUROPE + US OVERLAP") /\
                       (60 <= u < 360 -> s <> "US") /\
                       (360 <= u < 420 -> s <> "OFF-PEAK")) ->
            session (sessionAtMinute (cur + w)) <> s).
  { intros w Hw s Hs.
    destruct (sessionAtMinute_cases (cur + w) Hw) as (u & Hu & Hb & Hc & _ & _).
    destruct (Hs u Hu Hb) as (H1 & H2 & H3 & H4 & H5).
    destruct Hc as [[Hc ->]|[[Hc ->]|[[Hc ->]|[[Hc ->]|[Hc ->]]]]];
      apply not_eq_sym; auto. }
  destruct (computeSession_cases hours minutes)
    as [(Hc & E1 & E2)|[(Hc & E1 & E2)|[(Hc & E1 & E2)|[(Hc & E1 & E2)|[(Hc & E1 & E2)|(Hc & E1 & E2)]]]]];
    cbv zeta in Hc; fold cur in Hc; rewrite E1, E2;
    cbn [addDays targetHour targetMin makeNext session status note];
    (split; [lia|]);
    (split; [intros k Hk; apply Hstay; [lia|]; intros u Hu Hb;
             pose proof (Z.div_mod u 60 ltac:(lia)) as Hdm;
             destruct (computeSession_cases (u / 60) (u mod 60))
               as [(Hc' & _ & ->)|[(Hc' & _ & ->)|[(Hc' & _ & ->)|[(Hc' & _ & ->)|[(Hc' & _ & ->)|(Hc' & _ & ->)]]]]];
             cbv zeta in Hc'; solve [reflexivity | exfalso; lia]|]);
    (split; [apply Hleave; [lia|]; intros u Hu Hb;
             repeat split; intros Hwin; solve [discriminate | exfalso; lia]|]);
    (split; [discriminate|]);
    split; intros; solve [discriminate | reflexivity | lia].
Qed.

Lemma string_length_app (s t : string) :
  String.length (s +:+ t) = (String.length s + String.length t)%nat.
Proof.
  induction s as [|c s IH]; [reflexivity|].
  change (S (String.length (s +:+ t)) = S (String.length s + String.length t)%nat).
  now rewrite IH.
Qed.

Lemma string_app_inj_r (s1 s2 t1 t2 : string) :
  String.length t1 = String.length t2 -> s1 +:+ t1 = s2 +:+ t2 -> s1 = s2 /\ t1 = t2.
Proof.
  revert s2. induction s1 as [|c s1 IH]; intros [|c2 s2] Hlen Heq.
  - auto.
  - exfalso. apply (f_equal String.length) in Heq.
    rewrite !string_length_app in Heq. cbn in Heq. lia.
  - exfalso. apply (f_equal String.length) in Heq.
    rewrite !string_length_app in Heq. cbn in Heq. lia.
  - change (String c (s1 +:+ t1) = String c2 (s2 +:+ t2)) in Heq.
    inversion Heq; subst. destruct (IH s2 Hlen H1) as [-> ->]. auto.
Qed.

Lemma dash_app_inj (a b : string) : "-" +:+ a = "-" +:+ b -> a = b.
Proof. intros H. injection H as H. exact H. Qed.

Lemma pad2_twoDigits n : 0 <= n < 100 -> pad2 n = twoDigits n.
Proof.
  intros Hn.
  assert (H : forallb (fun k => String.eqb (pad2 (Z.of_nat k)) (twoDigits (Z.of_nat k)))
                      (seq 0 100) = true) by (vm_compute; reflexivity).
  rewrite forallb_forall in H.
  specialize (H (Z.to_nat n)). rewrite Z2Nat.id in H by lia.
  apply String.eqb_eq, H, in_seq. lia.
Qed.

Lemma digit_inj a b : 0 <= a < 10 -> 0 <= b < 10 -> digit a = digit b -> a = b.
Proof.
  intros Ha Hb H. unfold digit in H.
  apply (f_equal Ascii.nat_of_ascii) in H.
  rewrite !Ascii.nat_ascii_embedding in H by lia. lia.
Qed.

Lemma pad2_inj a b : 0 <= a < 100 -> 0 <= b < 100 -> pad2 a = pad2 b -> a = b.
Proof.
  intros Ha Hb. rewrite !pad2_twoDigits by assumption. unfold twoDigits.
  intros H. inversion H as [[H1 H2]].
  assert (Hda : 0 <= a / 10 < 10)
    by (split; [apply Z.div_pos|apply Z.div_lt_upper_bound]; lia).
  assert (Hdb : 0 <= b / 10 < 10)
    by (split; [apply Z.div_pos|apply Z.div_lt_upper_bound]; lia).
  pose proof (Z.mod_pos_bound a 10 ltac:(lia)) as Hma.
  pose proof (Z.mod_pos_bound b 10 ltac:(lia)) as Hmb.
  apply digit_inj in H1; [|assumption..].
  apply digit_inj in H2; [|assumption..].
  rewrite (Z.div_mod a 10), (Z.div_mod b 10) by lia. lia.
Qed.

Lemma pad2_length n : 0 <= n < 100 -> String.length (pad2 n) = 2%nat.
Proof. intros Hn. now rewrite pad2_twoDigits. Qed.

(** X18: [dayKeyLocal] is injective: two calendar dates with the same key
    are the same date, in any year. *)
Theorem dayKeyLocal_inj y1 m1 d1 y2 m2 d2 :
  0 <= m1 < 12 -> 1 <= d1 <= 31 -> 0 <= m2 < 12 -> 1 <= d2 <= 31 ->
  dayKeyLocal y1 m1 d1 = dayKeyLocal y2 m2 d2 ->
  y1 = y2 /\ m1 = m2 /\ d1 = d2.
Proof.
  intros Hm1 Hd1 Hm2 Hd2. unfold dayKeyLocal. intros H.
  apply string_app_inj_r in H as [Hy H].
  2:{ rewrite !string_length_app, !pad2_length by lia. reflexivity. }
  apply (inj pretty) in Hy.
  apply dash_app_inj in H.
  apply string_app_inj_r in H as [Hm H].
  2:{ rewrite !string_length_app, !pad2_length by lia. reflexivity. }
  apply dash_app_inj in H. rename H into Hd.
  apply pad2_inj in Hm; [|lia..]. apply pad2_inj in Hd; [|lia..].
  repeat split; lia.
Qed.

(** X17: the countdown is the time to [nextChangeAt] in whole seconds,
    rounded down, as three two-digit fields; it is more than 0 and at
    most 09:00:00. *)
Theorem countdown_spec hours minutes seconds millis :
  0 <= hours < 24 -> 0 <= minutes < 60 -> 0 <= seconds < 60 -> 0 <= millis < 1000 ->
  let ms := msToNextChange hours minutes seconds millis in
  0 < ms <= 540 * 60000 /\
  exists h m s,
    0 <= h < 10 /\ 0 <= m < 60 /\ 0 <= s < 60 /\
    (h * 3600 + m * 60 + s) * 1000 <= ms < (h * 3600 + m * 60 + s + 1) * 1000 /\
    countdown hours minutes seconds millis
    = twoDigits h +:+ ":" +:+ twoDigits m +:+ ":" +:+ twoDigits s.
Proof.
  intros Hh Hm Hs Hms. cbv zeta.
  pose proof (nextChangeAt_wait hours minutes Hh Hm) as Hw.
  cbv zeta in Hw. unfold countdown, msToNextChange in *.
  set (T := (addDays (nextChangeAt hours minutes) * 24
             + targetHour (nextChangeAt hours minutes)) * 60
            + targetMin (nextChangeAt hours minutes)) in *.
  set (ms := T * 60000 - (((hours * 60 + minutes) * 60 + seconds) * 1000 + millis)).
  assert (Hpos : 0 < ms <= 540 * 60000) by (unfold ms; lia).
  split; [exact Hpos|].
  unfold msToCountdown. destruct (Z.leb_spec ms 0); [lia|]. cbv zeta.
  set (totalSec := ms / 1000).
  assert (Hts : totalSec * 1000 <= ms < (totalSec + 1) * 1000).
  { unfold totalSec. pose proof (Z.div_mod ms 1000 ltac:(lia)).
    pose proof (Z.mod_pos_bound ms 1000 ltac:(lia)). lia. }
  assert (Hts2 : 0 <= totalSec <= 540 * 60) by lia.
  pose proof (Z.div_mod totalSec 3600 ltac:(lia)) as E1.
  pose proof (Z.mod_pos_bound totalSec 3600 ltac:(lia)) as B1.
  pose proof (Z.div_mod (totalSec mod 3600) 60 ltac:(lia)) as E2.
  pose proof (Z.mod_pos_bound (totalSec mod 3600) 60 ltac:(lia)) as B2.
  assert (E3 : totalSec mod 60 = (totalSec mod 3600) mod 60).
  { symmetry. apply Z.mod_mod_divide. exists 60. reflexivity. }
  assert (Hh' : 0 <= totalSec / 3600 < 10).
  { split; [apply Z.div_pos; lia|apply Z.div_lt_upper_bound; lia]. }
  assert (Hm' : 0 <= totalSec mod 3600 / 60 < 60).
  { split; [apply Z.div_pos; lia|apply Z.div_lt_upper_bound; lia]. }
  exists (totalSec / 3600), (totalSec mod 3600 / 60), (totalSec mod 60).
  split; [lia|]. split; [lia|]. split; [lia|]. split; [lia|].
  rewrite !pad2_twoDigits by lia. reflexivity.
Qed.

(** ** The candle proxy *)

Section ProxyProperties.

Variable toUpperCase : string -> string.
Variable trim : string -> string.
Variable Number_ : string -> number.

Lemma min2_le_r x hi :
  isNaN x = false -> isNaN hi = false ->
  le (min2 x hi) hi = true /\ isNaN (min2 x hi) = false.
Proof.
  intros Hx Hh. unfold min2, le, SFleb.
  destruct (compare_notNaN x hi Hx Hh) as [c Hc]. rewrite Hc.
  pose proof (compare_refl hi Hh) as Hr.
  destruct c.
  - destruct x as [[]| | |]; rewrite ?Hr, ?Hc; auto.
  - rewrite Hc. auto.
  - rewrite Hr. auto.
Qed.

Lemma requestLimit_bounds limitRaw :
  le (ofZ 10) (Proxy.requestLimit limitRaw) = true /\
  le (Proxy.requestLimit limitRaw) (ofZ 300) = true.
Proof.
  unfold Proxy.requestLimit.
  set (x := if isFinite limitRaw then limitRaw else ofZ 240).
  assert (Hx : isNaN x = false).
  { unfold x. destruct (isFinite limitRaw) eqn:E; [|reflexivity].
    destruct limitRaw; try discriminate; reflexivity. }
  destruct (min2_le_r x (ofZ 300) Hx eq_refl) as [Hle Hn].
  destruct (max2_ge_l (ofZ 10) _ eq_refl Hn) as (Hge & _ & [E|E]).
  - split; [exact Hge|]. rewrite E. reflexivity.
  - split; [exact Hge|]. rewrite E. exact Hle.
Qed.

Lemma normalize_finite rows :
  Forall (fun c => isFinite (h c) = true /\ isFinite (l c) = true) (Proxy.normalize rows).
Proof.
  apply List.Forall_forall. intros c Hc. unfold Proxy.normalize in Hc.
  apply in_rev in Hc. apply filter_In in Hc as [_ Hc].
  now apply andb_prop in Hc.
Qed.

(** X19: the candle proxy asks the exchange for between 10 and 300
    candles whatever the [limit] parameter is (NaN and the infinities
    included; the client's 240 is passed as it is); it answers 400 exactly
    when the symbol does not match the pattern, without asking the
    exchange; a 200 answer holds the rows with a finite high and low, at
    least one, the last row of the exchange first and its first row last;
    a 404 answer means that no row had both; a 502 answer carries the
    exchange's status and the first 300 code units of its text, a 500
    answer the message of the exception. *)
Theorem coinbaseCandles_contract (fetch : string -> number -> Proxy.Fetched) (q : Proxy.Query) :
  let reply := Proxy.handler toUpperCase trim Number_ fetch q in
  let sym := Proxy.symbolRaw toUpperCase trim q in
  let lim := Proxy.requestLimit (Proxy.limitRaw Number_ q) in
  (le (ofZ 10) lim = true /\ le lim (ofZ 300) = true) /\
  Proxy.requestLimit (ofZ 240) = ofZ 240 /\
  In (Proxy.statusCode reply) [200; 400; 404; 500; 502] /\
  (Proxy.statusCode reply = 400 <-> Proxy.symbolPattern sym = false) /\
  (Proxy.symbolPattern sym = false ->
   reply = Proxy.json 400 (Proxy.ErrorBody "Missing/invalid symbol")) /\
  (Proxy.statusCode reply = 200 ->
   exists rows,
     fetch (sym +:+ "-USD") lim = Proxy.Rows rows /\
     let candles :=
       rev (List.filter (fun c => isFinite (h c) && isFinite (l c))
              (List.map (fun r => {| l := fst r; h := snd r |}) rows)) in
     Proxy.body reply = Proxy.CandlesBody sym (sym +:+ "-USD") candles /\
     candles <> [] /\
     Forall (fun c => isFinite (h c) = true /\ isFinite (l c) = true) candles) /\
  (Proxy.statusCode reply = 404 ->
   exists rows,
     fetch (sym +:+ "-USD") lim = Proxy.Rows rows /\
     Forall (fun r => isFinite (fst r) && isFinite (snd r) = false) rows) /\
  (Proxy.statusCode reply = 502 ->
   exists status text,
     fetch (sym +:+ "-USD") lim = Proxy.NotOk status text /\
     Proxy.body reply
     = Proxy.UpstreamErrorBody ("Coinbase candles error " +:+ showInt status)
                               (firstn 300 text) (sym +:+ "-USD") /\
     (length (firstn 300 text) <= 300)%nat) /\
  (Proxy.statusCode reply = 500 ->
   exists message,
     fetch (sym +:+ "-USD") lim = Proxy.Throws message /\
     Proxy.body reply = Proxy.ErrorBody (default "Unhandled error" message)).
Proof.
  cbv zeta. split; [apply requestLimit_bounds|]. split; [reflexivity|].
  unfold Proxy.handler.
  assert (Hempty : Proxy.symbolPattern (Proxy.symbolRaw toUpperCase trim q) = true ->
                   truthyString (Proxy.symbolRaw toUpperCase trim q) = true).
  { destruct (Proxy.symbolRaw toUpperCase trim q); [discriminate|reflexivity]. }
  destruct (Proxy.symbolPattern (Proxy.symbolRaw toUpperCase trim q)) eqn:Hpat.
  2:{ rewrite orb_true_r. cbn. repeat split; auto; try discriminate. }
  rewrite (Hempty eq_refl). cbn [negb orb]. cbv zeta.
  destruct (fetch _ _) as [message|status text|rows] eqn:Hf.
  - cbn. repeat split; auto 10; try discriminate.
    intros _. exists message. split; reflexivity.
  - cbn [Proxy.statusCode Proxy.body Proxy.json]. repeat split; cbn; auto 10; try discriminate.
    intros _. exists status, text. split; [reflexivity|]. split; [reflexivity|].
    rewrite length_firstn. apply Nat.le_min_l.
  - destruct (Proxy.normalize rows) as [|c cs] eqn:Hn.
    + cbn. repeat split; auto 10; try discriminate.
      intros _. exists rows. split; [reflexivity|].
      apply List.Forall_forall. intros r Hr.
      destruct (isFinite (fst r) && isFinite (snd r)) eqn:E; [|reflexivity].
      exfalso. unfold Proxy.normalize in Hn.
      assert (Hin : In {| h := snd r; l := fst r |}
                       (rev (List.filter Proxy.finiteCandle
                               (List.map (fun r => {| l := fst r; h := snd r |}) rows)))).
      { apply -> in_rev. apply filter_In. split.
        - apply in_map_iff. exists r. auto.
        - unfold Proxy.finiteCandle. cbn. now rewrite andb_comm. }
      rewrite Hn in Hin. destruct Hin.
    + cbn. repeat split; auto 10; try discriminate.
      intros _. exists rows. split; [reflexivity|].
      change (rev (List.filter (fun c0 => isFinite (h c0) && isFinite (l c0))
                     (List.map (fun r => {| l := fst r; h := snd r |}) rows)))
        with (Proxy.normalize rows).
      rewrite Hn. split; [reflexivity|]. split; [discriminate|].
      rewrite <- Hn. apply normalize_finite.
Qed.

End ProxyProperties.

(** ** Entry quality over quoted prices *)

Section Micro.

Variable toFixed : number -> nat -> string.

Lemma max2_units a b :
  valid a = true -> valid b = true -> isNaN a = false -> isNaN b = false ->
  (max2 a b = a \/ max2 a b = b) /\
  units a <= units (max2 a b) /\ units b <= units (max2 a b).
Proof.
  intros Ha Hb Hna Hnb. unfold max2. rewrite (compare_units a b) by assumption.
  destruct (Z.compare_spec (units a) (units b)).
  - destruct a as [[]| | |]; split; auto; lia.
  - split; auto. lia.
  - split; auto. lia.
Qed.

Lemma min2_units a b :
  valid a = true -> valid b = true -> isNaN a = false -> isNaN b = false ->
  (min2 a b = a \/ min2 a b = b) /\
  units (min2 a b) <= units a /\ units (min2 a b) <= units b.
Proof.
  intros Ha Hb Hna Hnb. unfold min2. rewrite (compare_units a b) by assumption.
  destruct (Z.compare_spec (units a) (units b)).
  - destruct a as [[]| | |]; split; auto; lia.
  - split; auto. lia.
  - split; auto. lia.
Qed.

Lemma finite_notNaN x : isFinite x = true -> isNaN x = false.
Proof. destruct x; cbn; congruence. Qed.

Lemma fold_max2 xs : forall acc,
  valid acc = true -> isNaN acc = false ->
  Forall (fun p => valid p = true /\ isFinite p = true) xs ->
  let r := fold_left max2 xs acc in
  (r = acc \/ In r xs) /\ units acc <= units r /\
  (forall x, In x xs -> units x <= units r).
Proof.
  induction xs as [|x xs IH]; intros acc Hv Hn Hall; cbn [fold_left].
  - split; [now left|]. split; [lia|]. intros x [].
  - inversion Hall as [|? ? [Hvx Hfx] Hrest]; subst.
    destruct (max2_units acc x Hv Hvx Hn (finite_notNaN _ Hfx)) as (Hc & H1 & H2).
    assert (Hvm : valid (max2 acc x) = true) by (destruct Hc as [-> | ->]; assumption).
    assert (Hnm : isNaN (max2 acc x) = false)
      by (destruct Hc as [-> | ->]; [assumption|now apply finite_notNaN]).
    destruct (IH (max2 acc x) Hvm Hnm Hrest) as (Hr & Hu & Hx).
    split; [|split].
    + destruct Hr as [Hr|Hr]; [|right; now right].
      rewrite Hr. destruct Hc as [-> | ->]; [now left|right; now left].
    + lia.
    + intros y [<-|Hy]; [lia|now apply Hx].
Qed.

Lemma fold_min2 xs : forall acc,
  valid acc = true -> isNaN acc = false ->
  Forall (fun p => valid p = true /\ isFinite p = true) xs ->
  let r := fold_left min2 xs acc in
  (r = acc \/ In r xs) /\ units r <= units acc /\
  (forall x, In x xs -> units r <= units x).
Proof.
  induction xs as [|x xs IH]; intros acc Hv Hn Hall; cbn [fold_left].
  - split; [now left|]. split; [lia|]. intros x [].
  - inversion Hall as [|? ? [Hvx Hfx] Hrest]; subst.
    destruct (min2_units acc x Hv Hvx Hn (finite_notNaN _ Hfx)) as (Hc & H1 & H2).
    assert (Hvm : valid (min2 acc x) = true) by (destruct Hc as [-> | ->]; assumption).
    assert (Hnm : isNaN (min2 acc x) = false)
      by (destruct Hc as [-> | ->]; [assumption|now apply finite_notNaN]).
    destruct (IH (min2 acc x) Hvm Hnm Hrest) as (Hr & Hu & Hx).
    split; [|split].
    + destruct Hr as [Hr|Hr]; [|right; now right].
      rewrite Hr. destruct Hc as [-> | ->]; [now left|right; now left].
    + lia.
    + intros y [<-|Hy]; [lia|now apply Hx].
Qed.

Lemma units_finite_abs x :
  valid x = true -> isFinite x = true -> - 2 ^ 2098 < units x < 2 ^ 2098.
Proof.
  destruct x as [s|s| |s m e]; try discriminate; intros Hv _.
  - cbn. lia.
  - pose proof (units_finite_bounds s m e Hv). cbn [units]. destruct s; cbn; lia.
Qed.

(** [Math.max(...xs)] of quoted prices is one of them, and the largest. *)
Lemma maxOf_spec xs :
  xs <> [] -> Forall (fun p => valid p = true /\ isFinite p = true) xs ->
  In (maxOf xs) xs /\ forall x, In x xs -> units x <= units (maxOf xs).
Proof.
  intros Hne Hall. unfold maxOf.
  destruct (fold_max2 xs NegInfinity eq_refl eq_refl Hall) as (Hr & _ & Hx).
  split; [|exact Hx]. destruct Hr as [Hr|Hr]; [|exact Hr]. exfalso.
  destruct xs as [|x xs]; [congruence|]. inversion Hall as [|? ? [Hvx Hfx] _]; subst.
  pose proof (Hx x (or_introl eq_refl)) as H. rewrite Hr in H.
  pose proof (units_finite_abs x Hvx Hfx). cbn in H. lia.
Qed.

Lemma minOf_spec xs :
  xs <> [] -> Forall (fun p => valid p = true /\ isFinite p = true) xs ->
  In (minOf xs) xs /\ forall x, In x xs -> units (minOf xs) <= units x.
Proof.
  intros Hne Hall. unfold minOf.
  destruct (fold_min2 xs Infinity eq_refl eq_refl Hall) as (Hr & _ & Hx).
  split; [|exact Hx]. destruct Hr as [Hr|Hr]; [|exact Hr]. exfalso.
  destruct xs as [|x xs]; [congruence|]. inversion Hall as [|? ? [Hvx Hfx] _]; subst.
  pose proof (Hx x (or_introl eq_refl)) as H. rewrite Hr in H.
  pose proof (units_finite_abs x Hvx Hfx). cbn in H. lia.
Qed.

Lemma not_gt_le_zero x : isNaN x = false -> gt x zero = false -> le x zero = true.
Proof. destruct x as [s|s| |s m e]; cbn; try discriminate; auto; destruct s; auto. Qed.

Lemma not_lt_ge_zero x : isNaN x = false -> lt x zero = false -> ge x zero = true.
Proof. destruct x as [s|s| |s m e]; cbn; try discriminate; auto; destruct s; auto. Qed.

Lemma div_quoted_notNaN x y :
  isNaN x = false -> isFinite y = true -> gt y zero = true -> isNaN (div x y) = false.
Proof.
  intros Hx Hy Hpos.
  destruct x as [sx|sx| |sx mx ex]; try discriminate.
  - destruct y as [sy|sy| |sy my ey]; try discriminate; reflexivity.
  - destruct y as [sy|sy| |sy my ey]; try discriminate; reflexivity.
  - now apply div_finite_pos_notNaN.
Qed.

Lemma sub_finite_notNaN a b :
  isFinite a = true -> isFinite b = true -> isNaN (sub a b) = false.
Proof.
  destruct a as [sa|sa| |sa ma ea], b as [sb|sb| |sb mb eb]; cbn; try discriminate; auto;
    intros _ _.
  - destruct sa, sb; reflexivity.
  - apply binary_normalize_notNaN.
Qed.

(** The sign of a product with a positive constant is the sign of the
    other factor. *)
Lemma mul_pos_sign a m e :
  (lt (mul a (S754_finite false m e)) zero = true -> lt a zero = true) /\
  (gt (mul a (S754_finite false m e)) zero = true -> gt a zero = true).
Proof.
  destruct a as [sa|sa| |sa ma ea]; try (destruct sa; cbn; split; congruence);
    try (cbn; split; congruence).
  unfold mul. cbn [SFmul].
  pose proof (binary_round_aux_signed (xorb sa false) (Zpos (ma * m)) (ea + e) loc_Exact
                ltac:(lia)) as Hs.
  destruct (binary_round_aux _ _ _ _ _ _) as [s|s| |s m' e']; cbn in Hs; try contradiction;
    subst s; destruct sa; cbn; split; congruence.
Qed.

Lemma hundred : exists m e, ofZ 100 = S754_finite false m e.
Proof. eexists _, _. reflexivity. Qed.

Lemma pctFrom_le_zero a b :
  valid a = true -> valid b = true -> isFinite a = true -> isFinite b = true ->
  gt b zero = true -> units a <= units b -> le (pctFrom a b) zero = true.
Proof.
  intros Hva Hvb Hfa Hfb Hpos Hle. unfold pctFrom.
  destruct hundred as (m & e & ->).
  assert (Hs : gt (sub a b) zero = false).
  { rewrite sub_gt_zero, lt_units by (auto using finite_notNaN). apply Z.ltb_ge. lia. }
  assert (Hd : gt (div (sub a b) b) zero = false).
  { destruct (gt (div (sub a b) b) zero) eqn:E; [|reflexivity].
    apply (div_pos_sign _ _ Hpos) in E. congruence. }
  assert (Hdn : isNaN (div (sub a b) b) = false)
    by (apply div_quoted_notNaN; auto using sub_finite_notNaN).
  apply not_gt_le_zero; [now apply mul_const_notNaN|].
  destruct (gt (mul _ _) zero) eqn:E; [|reflexivity].
  apply mul_pos_sign in E. congruence.
Qed.

Lemma pctFrom_ge_zero a b :
  valid a = true -> valid b = true -> isFinite a = true -> isFinite b = true ->
  gt b zero = true -> units b <= units a -> ge (pctFrom a b) zero = true.
Proof.
  intros Hva Hvb Hfa Hfb Hpos Hle. unfold pctFrom.
  destruct hundred as (m & e & ->).
  assert (Hs : lt (sub a b) zero = false).
  { rewrite sub_lt_zero, lt_units by (auto using finite_notNaN). apply Z.ltb_ge. lia. }
  assert (Hd : lt (div (sub a b) b) zero = false).
  { destruct (lt (div (sub a b) b) zero) eqn:E; [|reflexivity].
    apply (div_pos_sign _ _ Hpos) in E. congruence. }
  assert (Hdn : isNaN (div (sub a b) b) = false)
    by (apply div_quoted_notNaN; auto using sub_finite_notNaN).
  apply not_lt_ge_zero; [now apply mul_const_notNaN|].
  destruct (lt (mul _ _) zero) eqn:E; [|reflexivity].
  apply mul_pos_sign in E. congruence.
Qed.

Lemma last_in_window (prices : list number) :
  prices <> [] ->
  let n := Z.of_nat (length prices) in
  In (at_or_NaN prices (n - 1)) (slice_from (Z.max 0 (n - 7)) prices) /\
  In (at_or_NaN prices (n - 1)) prices /\
  slice_from (Z.max 0 (n - 7)) prices <> [] /\
  forall x, In x (slice_from (Z.max 0 (n - 7)) prices) -> In x prices.
Proof.
  intros Hne. cbv zeta. unfold at_or_NaN, slice_from.
  set (n := length prices).
  assert (Hn : (0 < n)%nat) by (subst n; destruct prices; [congruence|cbn; lia]).
  destruct (Z.ltb_spec (Z.of_nat n - 1) 0); [lia|].
  set (k := Z.to_nat (Z.max 0 (Z.of_nat n - 7))).
  assert (Hk : (k < n)%nat) by (subst k; lia).
  assert (Hlen : length (skipn k prices) = (n - k)%nat) by apply length_skipn.
  assert (E : nth (Z.to_nat (Z.of_nat n - 1)) prices NaN
              = nth (n - 1 - k) (skipn k prices) NaN).
  { rewrite nth_skipn. f_equal. lia. }
  assert (Hsub : forall x, In x (skipn k prices) -> In x prices).
  { intros x Hx. rewrite <- (firstn_skipn k prices). apply in_or_app. now right. }
  assert (Hin : In (nth (Z.to_nat (Z.of_nat n - 1)) prices NaN) (skipn k prices)).
  { rewrite E. apply nth_In. lia. }
  split; [exact Hin|]. split; [now apply Hsub|]. split; [|exact Hsub].
  intros Hnil. rewrite Hnil in Hlen. cbn in Hlen. lia.
Qed.

Lemma at_in (prices : list number) i :
  0 <= i < Z.of_nat (length prices) -> In (at_or_NaN prices i) prices.
Proof.
  intros Hi. unfold at_or_NaN. destruct (Z.ltb_spec i 0); [lia|]. apply nth_In. lia.
Qed.

Lemma pctFrom_notNaN a b :
  isFinite a = true -> isFinite b = true -> gt b zero = true -> isNaN (pctFrom a b) = false.
Proof.
  intros Hfa Hfb Hpos. unfold pctFrom. destruct hundred as (m & e & ->).
  apply mul_const_notNaN, div_quoted_notNaN; auto using sub_finite_notNaN.
Qed.

(** X20: on a series of quoted prices (positive and finite), not empty, no
    metric of [computeMicro] is NaN, the drop from the 6h high is at most
    0 and the spike from the 6h low at least 0. *)
Theorem computeMicro_excursions (prices : list number) :
  prices <> [] -> Forall quoted prices ->
  let m := computeMicro toFixed prices in
  isNaN (ret1h m) = false /\ isNaN (ret4h m) = false /\
  le (dropFromHigh6h m) zero = true /\ ge (spikeFromLow6h m) zero = true.
Proof.
  intros Hne Hall. cbv zeta.
  destruct (last_in_window prices Hne) as (Hlw & Hlp & Hwne & Hsub). cbv zeta in *.
  set (n := Z.of_nat (length prices)) in *.
  assert (Hn : 0 < n) by (subst n; destruct prices; [congruence|cbn; lia]).
  set (lastP := at_or_NaN prices (n - 1)) in *.
  set (window := slice_from (Z.max 0 (n - 7)) prices) in *.
  rewrite List.Forall_forall in Hall.
  assert (Hgood : Forall (fun p => valid p = true /\ isFinite p = true) window).
  { apply List.Forall_forall. intros x Hx. destruct (Hall x (Hsub x Hx)) as (? & ? & ?). auto. }
  destruct (maxOf_spec window Hwne Hgood) as [Hmax Hmaxle].
  destruct (minOf_spec window Hwne Hgood) as [Hmin Hminle].
  destruct (Hall _ Hlp) as (Hvl & Hfl & _).
  destruct (Hall _ (Hsub _ Hmax)) as (Hvh & Hfh & Hph).
  destruct (Hall _ (Hsub _ Hmin)) as (Hvw & Hfw & Hpw).
  destruct (Hall _ (at_in prices (Z.max 0 (n - 2)) ltac:(fold n; lia))) as (_ & Hf1 & Hp1).
  destruct (Hall _ (at_in prices (Z.max 0 (n - 5)) ltac:(fold n; lia))) as (_ & Hf4 & Hp4).
  pose proof (pctFrom_le_zero lastP (maxOf window) Hvl Hvh Hfl Hfh Hph (Hmaxle _ Hlw)) as Hdrop.
  pose proof (pctFrom_ge_zero lastP (minOf window) Hvl Hvw Hfl Hfw Hpw (Hminle _ Hlw)) as Hspike.
  pose proof (pctFrom_notNaN lastP _ Hfl Hf1 Hp1) as Hr1.
  pose proof (pctFrom_notNaN lastP _ Hfl Hf4 Hp4) as Hr4.
  unfold computeMicro. cbv zeta. fold n. fold lastP. fold window.
  destruct (le (pctFrom lastP (at_or_NaN prices (Z.max 0 (n - 2)))) (ofZ (-3)));
    [|destruct (le (pctFrom lastP (maxOf window)) (ofZ (-4)));
      [|destruct (ge (pctFrom lastP (minOf window)) (ofZ 6))]];
    cbn [dropFromHigh6h spikeFromLow6h ret1h ret4h]; auto.
Qed.

Lemma is_zero x : isNaN x = false -> gt x zero = false -> lt x zero = false -> isZero x = true.
Proof. destruct x as [s|s| |s m e]; cbn; try discriminate; auto; destruct s; discriminate. Qed.

Lemma pctFrom_self q : quoted q -> isZero (pctFrom q q) = true.
Proof.
  intros (Hv & Hf & Hpos). unfold pctFrom.
  assert (Hz : isZero (sub q q) = true).
  { apply is_zero.
    - now apply sub_finite_notNaN.
    - rewrite sub_gt_zero, lt_units by (auto using finite_notNaN). apply Z.ltb_irrefl.
    - rewrite sub_lt_zero, lt_units by (auto using finite_notNaN). apply Z.ltb_irrefl. }
  destruct (sub q q) as [s| | |]; try discriminate.
  destruct q as [sq|sq| |sq mq eq]; try discriminate. reflexivity.
Qed.

(** X21: a flat series of a quoted price is a VALID entry without
    reasons: the four metrics are 0. *)
Theorem computeMicro_flat (prices : list number) (q : number) :
  prices <> [] -> quoted q -> (forall p, In p prices -> p = q) ->
  let m := computeMicro toFixed prices in
  entryQuality m = VALID /\ whyNot m = [] /\
  isZero (ret1h m) = true /\ isZero (ret4h m) = true /\
  isZero (dropFromHigh6h m) = true /\ isZero (spikeFromLow6h m) = true.
Proof.
  intros Hne Hq Hflat. cbv zeta.
  destruct (last_in_window prices Hne) as (Hlw & Hlp & Hwne & Hsub). cbv zeta in *.
  set (n := Z.of_nat (length prices)) in *.
  assert (Hn : 0 < n) by (subst n; destruct prices; [congruence|cbn; lia]).
  assert (Hgood : Forall (fun p => valid p = true /\ isFinite p = true)
                         (slice_from (Z.max 0 (n - 7)) prices)).
  { apply List.Forall_forall. intros x Hx. rewrite (Hflat x (Hsub x Hx)).
    destruct Hq as (? & ? & ?). auto. }
  destruct (maxOf_spec _ Hwne Hgood) as [Hmax _].
  destruct (minOf_spec _ Hwne Hgood) as [Hmin _].
  pose proof (pctFrom_self q Hq) as Hz.
  unfold computeMicro. cbv zeta. fold n.
  rewrite (Hflat _ Hlp), (Hflat _ (Hsub _ Hmax)), (Hflat _ (Hsub _ Hmin)).
  rewrite (Hflat _ (at_in prices (Z.max 0 (n - 2)) ltac:(fold n; lia))).
  rewrite (Hflat _ (at_in prices (Z.max 0 (n - 5)) ltac:(fold n; lia))).
  destruct (pctFrom q q) as [s| | |]; try discriminate.
  assert (H3 : le (S754_zero s) (ofZ (-3)) = false) by (destruct s; vm_compute; reflexivity).
  assert (H4 : le (S754_zero s) (ofZ (-4)) = false) by (destruct s; vm_compute; reflexivity).
  assert (H6 : ge (S754_zero s) (ofZ 6) = false) by (destruct s; vm_compute; reflexivity).
  rewrite H3, H4, H6. cbn. repeat split.
Qed.

End Micro.

(** ** Position sizing *)

Lemma max2_zero x :
  isNaN x = false -> max2 zero x = if gt x zero then x else zero.
Proof. destruct x as [s|s| |s m e]; try discriminate; destruct s; reflexivity. Qed.

Lemma gt_zero_not_le_zero x : gt x zero = true -> le x zero = false.
Proof. destruct x as [s|s| |s m e]; try discriminate; destruct s; try discriminate; reflexivity. Qed.

(** X22: the calculator sizes one side only: with the stop below the
    entry the long side has the stop distance [entry - stop] and the
    short side has distance, size and targets 0; with the stop above the
    entry it is the reverse; with both equal every size and target is 0. *)
Theorem sizing_one_sided (accountUsd riskPct entryPrice stopPrice : number) :
  valid entryPrice = true -> valid stopPrice = true ->
  isFinite entryPrice = true -> isFinite stopPrice = true ->
  (lt stopPrice entryPrice = true ->
   stopDistanceLong entryPrice stopPrice = sub entryPrice stopPrice /\
   gt (stopDistanceLong entryPrice stopPrice) zero = true /\
   positionSizeLong accountUsd riskPct entryPrice stopPrice
   = div (riskAmount accountUsd riskPct) (sub entryPrice stopPrice) /\
   stopDistanceShort entryPrice stopPrice = zero /\
   positionSizeShort accountUsd riskPct entryPrice stopPrice = zero /\
   tp1Short entryPrice stopPrice = zero /\ tp2Short entryPrice stopPrice = zero) /\
  (lt entryPrice stopPrice = true ->
   stopDistanceShort entryPrice stopPrice = sub stopPrice entryPrice /\
   gt (stopDistanceShort entryPrice stopPrice) zero = true /\
   positionSizeShort accountUsd riskPct entryPrice stopPrice
   = div (riskAmount accountUsd riskPct) (sub stopPrice entryPrice) /\
   stopDistanceLong entryPrice stopPrice = zero /\
   positionSizeLong accountUsd riskPct entryPrice stopPrice = zero /\
   tp1Long entryPrice stopPrice = zero /\ tp2Long entryPrice stopPrice = zero) /\
  (lt stopPrice entryPrice = false -> lt entryPrice stopPrice = false ->
   positionSizeLong accountUsd riskPct entryPrice stopPrice = zero /\
   positionSizeShort accountUsd riskPct entryPrice stopPrice = zero /\
   tp1Long entryPrice stopPrice = zero /\ tp2Long entryPrice stopPrice = zero /\
   tp1Short entryPrice stopPrice = zero /\ tp2Short entryPrice stopPrice = zero).
Proof.
  intros Hve Hvs Hfe Hfs.
  pose proof (sub_finite_notNaN entryPrice stopPrice Hfe Hfs) as Hn1.
  pose proof (sub_finite_notNaN stopPrice entryPrice Hfs Hfe) as Hn2.
  pose proof (sub_gt_zero entryPrice stopPrice Hve Hvs) as Hg1.
  pose proof (sub_gt_zero stopPrice entryPrice Hvs Hve) as Hg2.
  assert (Hex : lt stopPrice entryPrice = true -> lt entryPrice stopPrice = false).
  { rewrite !lt_units by (auto using finite_notNaN). intros H.
    apply Z.ltb_lt in H. apply Z.ltb_ge. lia. }
  unfold positionSizeLong, positionSizeShort, tp1Long, tp2Long, tp1Short, tp2Short,
    stopDistanceLong, stopDistanceShort.
  rewrite !max2_zero by assumption.
  destruct (lt stopPrice entryPrice) eqn:Ea, (lt entryPrice stopPrice) eqn:Eb;
    try (specialize (Hex eq_refl); discriminate);
    rewrite ?Hg1, ?Hg2;
    rewrite ?(gt_zero_not_le_zero _ Hg1), ?(gt_zero_not_le_zero _ Hg2);
    repeat split; intros; try discriminate; reflexivity || assumption.
Qed.


(** *** Rounding gives binary64 values *)

Lemma fexp_eq x : fexp prec emax x = Z.max (x - prec) emin.
Proof. reflexivity. Qed.

Ltac format :=
  pose proof (eq_refl : prec = 53); pose proof (eq_refl : emax = 1024);
  pose proof (eq_refl : emin = -1074).

Lemma Zdigits2_bounds m :
  0 < m -> 2 ^ (Zdigits2 m - 1) <= m < 2 ^ Zdigits2 m.
Proof. destruct m as [|p|p]; try lia. intros _. apply digits_bounds. Qed.

Lemma Zdigits2_pos m : 0 < m -> 0 < Zdigits2 m.
Proof. destruct m as [|p|p]; cbn; lia. Qed.

Lemma Zdigits2_unique m n : 2 ^ (n - 1) <= m < 2 ^ n -> 0 < m -> Zdigits2 m = n.
Proof. destruct m as [|p|p]; try lia. intros H _. now apply digits_unique. Qed.

Lemma Zdigits2_shift m n :
  0 < m -> 0 <= n < Zdigits2 m ->
  0 < m / 2 ^ n /\ Zdigits2 (m / 2 ^ n) = Zdigits2 m - n.
Proof.
  intros Hm Hn. pose proof (Zdigits2_bounds m Hm) as [Hlo Hhi].
  set (d := Zdigits2 m) in *.
  assert (Hp : 0 < 2 ^ n) by (apply Z.pow_pos_nonneg; lia).
  assert (E1 : 2 ^ (d - 1) = 2 ^ (d - 1 - n) * 2 ^ n).
  { rewrite <- Z.pow_add_r by lia. f_equal. lia. }
  assert (E2 : 2 ^ d = 2 ^ (d - n) * 2 ^ n).
  { rewrite <- Z.pow_add_r by lia. f_equal. lia. }
  assert (Hq1 : 2 ^ (d - 1 - n) <= m / 2 ^ n).
  { apply Z.div_le_lower_bound; [lia|]. rewrite Z.mul_comm, <- E1. exact Hlo. }
  assert (Hq2 : m / 2 ^ n < 2 ^ (d - n)).
  { apply Z.div_lt_upper_bound; [lia|]. rewrite Z.mul_comm, <- E2. exact Hhi. }
  assert (Hq0 : 0 < 2 ^ (d - 1 - n)) by (apply Z.pow_pos_nonneg; lia).
  split; [lia|]. apply Zdigits2_unique; [|lia].
  replace (d - n - 1) with (d - 1 - n) by lia. lia.
Qed.

Lemma shift_out m n : 0 <= m -> Zdigits2 m <= n -> m / 2 ^ n = 0.
Proof.
  intros Hm Hn. destruct (Z.eq_dec m 0) as [->|Hne].
  - apply Z.div_0_l. apply Z.pow_nonzero; [lia|]. cbn in Hn. lia.
  - pose proof (Zdigits2_bounds m ltac:(lia)) as [_ Hhi].
    pose proof (Zdigits2_pos m ltac:(lia)).
    apply Z.div_small. split; [lia|].
    eapply Z.lt_le_trans; [exact Hhi|]. apply Z.pow_le_mono_r; lia.
Qed.

(** What [shr_fexp] does to a mantissa that is not negative. *)
Lemma shr_fexp_spec m e l :
  0 <= m ->
  let n := fexp prec emax (Zdigits2 m + e) - e in
  shr_m (fst (shr_fexp prec emax m e l)) = (if 0 <? n then m / 2 ^ n else m) /\
  snd (shr_fexp prec emax m e l) = (if 0 <? n then e + n else e).
Proof.
  intros Hm n. unfold shr_fexp, shr. fold n.
  destruct n as [|q|q] eqn:Hn; cbn [fst snd Z.ltb Z.compare];
    rewrite ?shr_record_of_loc_m; try (split; reflexivity).
  rewrite shr_m_iter by (rewrite shr_record_of_loc_m; exact Hm).
  rewrite shr_record_of_loc_m. split; reflexivity.
Qed.

Lemma round_up_digits m :
  0 < m ->
  Zdigits2 (m + 1) = Zdigits2 m \/
  (m + 1 = 2 ^ Zdigits2 m /\ Zdigits2 (m + 1) = Zdigits2 m + 1).
Proof.
  intros Hm. pose proof (Zdigits2_bounds m Hm) as [Hlo Hhi].
  set (d := Zdigits2 m) in *.
  assert (Hd : 0 < d) by (apply Zdigits2_pos; exact Hm).
  destruct (Z.eq_dec (m + 1) (2 ^ d)) as [E|E].
  - right. split; [exact E|]. apply Zdigits2_unique; [|lia].
    replace (d + 1 - 1) with d by lia. rewrite E. split; [lia|].
    apply Z.pow_lt_mono_r; lia.
  - left. apply Zdigits2_unique; lia.
Qed.

Lemma round_nearest_even_cases m l :
  round_nearest_even m l = m \/ round_nearest_even m l = m + 1.
Proof. destruct l as [|[]]; cbn; auto. destruct (Z.even m); auto. Qed.

(** The first shift brings the mantissa to the target exponent. *)
Lemma shr_fexp_first m e l :
  0 <= m -> e <= fexp prec emax (Zdigits2 m + e) ->
  let m1 := shr_m (fst (shr_fexp prec emax m e l)) in
  let e1 := snd (shr_fexp prec emax m e l) in
  0 <= m1 /\ emin <= e1 /\
  ((0 < m1 /\ fexp prec emax (Zdigits2 m1 + e1) = e1) \/ (m1 = 0 /\ e1 = emin)).
Proof.
  intros Hm He. cbv zeta.
  destruct (shr_fexp_spec m e l Hm) as [-> ->]. cbv zeta.
  set (d := Zdigits2 m) in *.
  set (n := fexp prec emax (d + e) - e) in *.
  assert (Hn : 0 <= n) by (unfold n; lia).
  assert (Hf : emin <= fexp prec emax (d + e)) by (rewrite fexp_eq; lia).
  assert (Hfn : fexp prec emax (d + e) = e + n) by (unfold n; lia).
  clearbody n.
  destruct (Z.ltb_spec 0 n) as [Hpos|Hzero].
  - replace (e + n) with (fexp prec emax (d + e)) by lia.
    split; [apply Z.div_pos; [lia|apply Z.pow_pos_nonneg; lia]|]. split; [exact Hf|].
    destruct (Z.lt_ge_cases n d) as [Hlt|Hge].
    + left. destruct (Z.eq_dec m 0) as [->|Hne]; [cbn in d; lia|].
      destruct (Zdigits2_shift m n ltac:(lia) ltac:(fold d; lia)) as [Hq Hdq].
      split; [exact Hq|]. rewrite Hdq. fold d.
      replace (d - n + fexp prec emax (d + e)) with (d + e) by lia. reflexivity.
    + right. split; [apply shift_out; [exact Hm|fold d; lia]|].
      rewrite fexp_eq in *. format. lia.
  - assert (En : n = 0) by lia. assert (Ee : fexp prec emax (d + e) = e) by lia.
    split; [exact Hm|]. split; [lia|].
    destruct (Z.eq_dec m 0) as [->|Hne].
    + right. split; [reflexivity|]. cbn in d. rewrite fexp_eq in Ee. subst d. format. lia.
    + left. split; [lia|exact Ee].
Qed.

(** The result of [binary_round_aux] is a binary64 value, when the
    exponent given is not above the one the mantissa asks for. *)
Lemma binary_round_aux_valid s m e l :
  0 <= m -> e <= fexp prec emax (Zdigits2 m + e) ->
  valid (binary_round_aux prec emax s m e l) = true.
Proof.
  intros Hm He. unfold binary_round_aux.
  pose proof (shr_fexp_first m e l Hm He) as H1. cbv zeta in H1.
  destruct (shr_fexp prec emax m e l) as [mrs1 e1]. cbn [fst snd] in H1.
  destruct H1 as (Hm1 & He1 & Hc1).
  set (m1 := shr_m mrs1) in *.
  set (m2 := round_nearest_even m1 (loc_of_shr_record mrs1)).
  assert (Hm2 : 0 <= m2) by (apply round_nearest_even_nonneg; exact Hm1).
  destruct (shr_fexp_spec m2 e1 loc_Exact Hm2) as [E3 E4]. cbv zeta in E3, E4.
  destruct (shr_fexp prec emax m2 e1 loc_Exact) as [mrs3 e3]. cbn [fst snd] in E3, E4.
  set (d2 := Zdigits2 m2) in *.
  (* the exponent the rounded mantissa asks for *)
  assert (Hcases :
    m2 = 0 \/
    (0 < m2 /\ fexp prec emax (d2 + e1) = e1) \/
    (0 < m2 /\ m2 = 2 ^ prec /\ fexp prec emax (d2 + e1) = e1 + 1 /\ d2 = prec + 1)).
  { destruct (round_nearest_even_cases m1 (loc_of_shr_record mrs1)) as [E|E];
      fold m2 in E.
    - destruct Hc1 as [[Hp Hf]|[Hz _]]; [|left; lia].
      right. left. subst d2. rewrite E. auto.
    - destruct Hc1 as [[Hp Hf]|[Hz Hemin]].
      + destruct (round_up_digits m1 Hp) as [Hd|[Hpow Hd]].
        * right. left. subst d2. rewrite E, Hd. split; [lia|exact Hf].
        * rewrite fexp_eq in Hf. format.
          destruct (Z.eq_dec (Zdigits2 m1) prec) as [Hprec|Hnp].
          -- right. right. subst d2. rewrite E, Hd, Hprec.
             split; [lia|]. split; [rewrite Hpow, Hprec; reflexivity|].
             split; [|reflexivity]. rewrite fexp_eq. lia.
          -- right. left. subst d2. rewrite E, Hd. split; [lia|].
             rewrite fexp_eq.
             assert (Zdigits2 m1 < prec).
             { pose proof (Zdigits2_pos m1 Hp). lia. }
             lia.
      + right. left. subst d2. rewrite E, Hz. cbn [Z.add Zdigits2].
        split; [lia|]. rewrite Hemin. reflexivity. }
  destruct Hcases as [Hz|[[Hp Hf]|(Hp & Hpow & Hf & Hd)]].
  - (* zero *)
    assert (Ez : shr_m mrs3 = 0).
    { rewrite E3. destruct (0 <? _); [|exact Hz]. rewrite Hz. apply Zdiv_0_l. }
    rewrite Ez. reflexivity.
  - (* the mantissa fits *)
    rewrite Hf, Z.sub_diag in E3, E4. cbn [Z.ltb Z.compare] in E3, E4.
    rewrite E3. destruct m2 as [|p|p]; try lia. subst e3.
    destruct (Z.leb_spec e1 (emax - prec)); [|reflexivity].
    unfold valid, valid_binary, bounded, canonical_mantissa.
    apply andb_true_intro. split; [apply Z.eqb_eq; exact Hf|apply Z.leb_le; assumption].
  - (* the mantissa overflowed to 2^prec: one more shift *)
    assert (En : fexp prec emax (d2 + e1) - e1 = 1) by lia.
    rewrite En in E3, E4. cbn [Z.ltb Z.compare] in E3, E4.
    assert (E3' : shr_m mrs3 = 2 ^ (prec - 1)).
    { rewrite E3, Hpow. reflexivity. }
    rewrite E3'. subst e3.
    change (2 ^ (prec - 1)) with (Zpos (Z.to_pos (2 ^ (prec - 1)))).
    cbv iota.
    destruct (Z.leb_spec (e1 + 1) (emax - prec)); [|reflexivity].
    unfold valid, valid_binary, bounded, canonical_mantissa.
    apply andb_true_intro. split; [|apply Z.leb_le; assumption].
    apply Z.eqb_eq.
    change (Zpos (digits2_pos (Z.to_pos (2 ^ (prec - 1))))) with prec.
    rewrite fexp_eq. rewrite fexp_eq in Hf. format. lia.
Qed.

Lemma Zdigits2_shiftl m k :
  0 < m -> 0 <= k -> Zdigits2 (m * 2 ^ k) = Zdigits2 m + k.
Proof.
  intros Hm Hk. pose proof (Zdigits2_bounds m Hm) as [Hlo Hhi].
  pose proof (Zdigits2_pos m Hm) as Hd.
  assert (Hp : 0 < 2 ^ k) by (apply Z.pow_pos_nonneg; lia).
  apply Zdigits2_unique; [|nia].
  replace (Zdigits2 m + k - 1) with (Zdigits2 m - 1 + k) by lia.
  rewrite !Z.pow_add_r by lia. split; nia.
Qed.

Lemma binary_round_valid s p e : valid (binary_round prec emax s p e) = true.
Proof.
  unfold binary_round.
  pose proof (shl_align_spec p e (fexp prec emax (Zpos (digits2_pos p) + e))) as [Hm He].
  destruct (shl_align _ _ _) as [mz ez]. cbn [fst snd] in Hm, He.
  apply binary_round_aux_valid; [lia|].
  set (e' := fexp prec emax (Zpos (digits2_pos p) + e)) in *.
  destruct (Z.le_gt_cases e e') as [Hle|Hgt].
  - replace (Z.min e e') with e in * by lia. rewrite Z.sub_diag, Z.mul_1_r in Hm.
    rewrite He, Hm. exact Hle.
  - replace (Z.min e e') with e' in * by lia.
    rewrite Hm, Zdigits2_shiftl by lia. rewrite He. cbn [Zdigits2].
    replace (Zpos (digits2_pos p) + (e - e') + e') with (Zpos (digits2_pos p) + e) by lia.
    fold e'. lia.
Qed.

Lemma binary_normalize_valid z e sz : valid (binary_normalize prec emax z e sz) = true.
Proof. destruct z; cbn [binary_normalize]; [reflexivity| |]; apply binary_round_valid. Qed.

Lemma ofZ_valid z : valid (ofZ z) = true.
Proof. apply binary_normalize_valid. Qed.

Lemma add_valid a b : valid a = true -> valid b = true -> valid (add a b) = true.
Proof.
  destruct a as [sa|sa| |sa ma ea], b as [sb|sb| |sb mb eb]; intros Ha Hb;
    try reflexivity; try assumption;
    try (destruct sa, sb; reflexivity).
  apply binary_normalize_valid.
Qed.

Lemma canonical_subnormal m e :
  valid (S754_finite false m e) = true -> Zpos (digits2_pos m) < prec -> e = emin.
Proof.
  intros Hv Hd. apply valid_finite_inv in Hv as (He & _ & Hn).
  destruct (Z.eq_dec e emin) as [E|E]; [exact E|]. specialize (Hn ltac:(lia)). lia.
Qed.

Lemma valid_sign s m e : valid (S754_finite s m e) = valid (S754_finite false m e).
Proof. reflexivity. Qed.

Lemma mul_valid a b : valid a = true -> valid b = true -> valid (mul a b) = true.
Proof.
  destruct a as [sa|sa| |sa ma ea], b as [sb|sb| |sb mb eb]; intros Ha Hb;
    try reflexivity.
  unfold mul. cbn [SFmul]. apply binary_round_aux_valid; [lia|].
  rewrite valid_sign in Ha, Hb.
  pose proof (valid_finite_inv _ _ _ Ha) as (Hea & Hda & _).
  pose proof (valid_finite_inv _ _ _ Hb) as (Heb & Hdb & _).
  pose proof (digits_bounds ma) as [Hla Hha]. pose proof (digits_bounds mb) as [Hlb Hhb].
  set (da := Zpos (digits2_pos ma)) in *. set (db := Zpos (digits2_pos mb)) in *.
  assert (Hda1 : 1 <= da) by (subst da; lia). assert (Hdb1 : 1 <= db) by (subst db; lia).
  rewrite Pos2Z.inj_mul.
  pose proof (Zdigits2_bounds (Zpos ma * Zpos mb) ltac:(lia)) as [_ HD].
  set (D := Zdigits2 (Zpos ma * Zpos mb)) in *.
  assert (HDlow : da + db - 1 <= D).
  { destruct (Z.le_gt_cases (da + db - 1) D) as [H|H]; [exact H|exfalso].
    assert (H2 : 2 ^ D <= 2 ^ (da - 1 + (db - 1))) by (apply Z.pow_le_mono_r; lia).
    rewrite Z.pow_add_r in H2 by lia.
    assert (0 < 2 ^ (da - 1)) by (apply Z.pow_pos_nonneg; lia).
    assert (0 < 2 ^ (db - 1)) by (apply Z.pow_pos_nonneg; lia).
    nia. }
  rewrite fexp_eq. format.
  destruct (Z.eq_dec da prec) as [Ea|Ea]; [lia|].
  destruct (Z.eq_dec db prec) as [Eb|Eb]; [lia|].
  rewrite (canonical_subnormal ma ea Ha ltac:(fold da; lia)).
  rewrite (canonical_subnormal mb eb Hb ltac:(fold db; lia)). lia.
Qed.

Lemma max2_valid a b : valid a = true -> valid b = true -> valid (max2 a b) = true.
Proof.
  intros Ha Hb. unfold max2. destruct (SFcompare a b) as [[]|]; try assumption;
    [|reflexivity]. destruct a as [[]| | |]; assumption.
Qed.

Lemma min2_valid a b : valid a = true -> valid b = true -> valid (min2 a b) = true.
Proof.
  intros Ha Hb. unfold min2. destruct (SFcompare a b) as [[]|]; try assumption;
    [|reflexivity]. destruct a as [[]| | |]; assumption.
Qed.

Lemma clamp_valid x lo hi :
  valid x = true -> valid lo = true -> valid hi = true -> valid (clamp x lo hi) = true.
Proof. intros. unfold clamp. apply max2_valid; [|apply min2_valid]; assumption. Qed.

Lemma StronglySorted_impl_In {A} (R R' : A -> A -> Prop) xs :
  (forall x y, In x xs -> In y xs -> R x y -> R' x y) ->
  StronglySorted R xs -> StronglySorted R' xs.
Proof.
  intros Himp Hs. induction Hs as [|x xs Hs IH Hx]; [constructor|].
  constructor.
  - apply IH. intros a b Ha Hb. apply Himp; now right.
  - rewrite List.Forall_forall in Hx |- *. intros y Hy.
    apply Himp; [now left|now right|auto].
Qed.

Lemma StronglySorted_firstn {A} (R : A -> A -> Prop) n xs :
  StronglySorted R xs -> StronglySorted R (firstn n xs).
Proof.
  intros Hs. revert n. induction Hs as [|x xs Hs IH Hx]; intros [|n]; cbn; try constructor.
  - apply IH.
  - rewrite List.Forall_forall in Hx |- *. intros y Hy. apply Hx.
    rewrite <- (firstn_skipn n xs). apply in_or_app. now left.
Qed.

Lemma StronglySorted_split {A} (R : A -> A -> Prop) n xs :
  StronglySorted R xs ->
  forall x y, In x (firstn n xs) -> In y (skipn n xs) -> R x y.
Proof.
  intros Hs. revert n. induction Hs as [|z xs Hs IH Hz]; intros [|n] x y Hx Hy; cbn in *;
    try contradiction.
  destruct Hx as [<-|Hx].
  - rewrite List.Forall_forall in Hz. apply Hz.
    rewrite <- (firstn_skipn n xs). apply in_or_app. now right.
  - now apply (IH n).
Qed.

Lemma within_notNaN lo hi x : within lo hi x = true -> isNaN x = false.
Proof.
  unfold within. intros H. apply andb_prop in H as [H0 _].
  now apply le_true_notNaN in H0 as [_ H0].
Qed.

Section Ranking.

Variable log10 : number -> number.
Hypothesis log10_defined : forall x, le (ofZ 1) x = true -> isNaN (log10 x) = false.
Hypothesis log10_valid : forall x, valid (log10 x) = true.

Lemma weight_sound n d :
  (isFinite (dec n d) && nonneg (dec n d) && valid (dec n d)) = true ->
  isFinite (dec n d) = true /\ nonneg (dec n d) = true /\ valid (dec n d) = true.
Proof.
  intros H. apply andb_prop in H as [H Hv]. apply andb_prop in H as [Hf Hn]. auto.
Qed.

Lemma combinedScore_valid (m : MarketRow) (baseline : number) :
  valid (default zero (change24h m)) = true ->
  valid (combinedScore (scoreSetup log10 m baseline)) = true.
Proof.
  intros Hv.
  destruct (weight_sound 55 100 ltac:(vm_compute; reflexivity)) as (F55 & N55 & V55).
  destruct (weight_sound 45 100 ltac:(vm_compute; reflexivity)) as (F45 & N45 & V45).
  destruct (weight_sound 65 100 ltac:(vm_compute; reflexivity)) as (F65 & N65 & V65).
  destruct (weight_sound 35 100 ltac:(vm_compute; reflexivity)) as (F35 & N35 & V35).
  destruct (weight_sound 48 100 ltac:(vm_compute; reflexivity)) as (F48 & N48 & V48).
  destruct (weight_sound 52 100 ltac:(vm_compute; reflexivity)) as (F52 & N52 & V52).
  unfold scoreSetup. cbn [combinedScore]. unfold changeScore, volScore.
  repeat match goal with
         | |- valid (clamp _ _ _) = true => apply clamp_valid
         | |- valid (add _ _) = true => apply add_valid
         | |- valid (mul _ _) = true => apply mul_valid
         | |- valid (log10 _) = true => apply log10_valid
         | |- valid (ofZ _) = true => apply ofZ_valid
         | |- valid zero = true => reflexivity
         | |- valid (dec _ _) = true => assumption
         | |- valid (default zero (change24h _)) = true => exact Hv
         end.
Qed.

Lemma combinedScore_notNaN (m : MarketRow) (baseline : number) :
  isFinite (default zero (change24h m)) = true ->
  isFinite (default zero (volume24hUsd m)) = true ->
  isNaN (combinedScore (scoreSetup log10 m baseline)) = false.
Proof.
  intros Hch Hvol.
  destruct (weight_sound 55 100 ltac:(vm_compute; reflexivity)) as (F55 & N55 & V55).
  destruct (weight_sound 45 100 ltac:(vm_compute; reflexivity)) as (F45 & N45 & V45).
  destruct (weight_sound 65 100 ltac:(vm_compute; reflexivity)) as (F65 & N65 & V65).
  destruct (weight_sound 35 100 ltac:(vm_compute; reflexivity)) as (F35 & N35 & V35).
  destruct (weight_sound 48 100 ltac:(vm_compute; reflexivity)) as (F48 & N48 & V48).
  destruct (weight_sound 52 100 ltac:(vm_compute; reflexivity)) as (F52 & N52 & V52).
  assert (N4 : nonneg (ofZ 4) = true) by (vm_compute; reflexivity).
  pose proof (changeScore_within _ Hch) as Hcs.
  pose proof (volScore_within log10 log10_defined _
                (volFactor_notNaN _ baseline Hvol)) as Hvs.
  destruct (blend_within _ _ (dec 55 100) (dec 45 100) (ofZ 4) Hcs Hvs
              F55 N55 F45 N45 N4) as [H15 _].
  destruct (blend_within _ _ (dec 65 100) (dec 35 100) (ofZ 4) Hcs Hvs
              F65 N65 F35 N35 N4) as [_ H1h].
  destruct (blend_within _ _ (dec 48 100) (dec 52 100) (ofZ 4) H15 H1h
              F48 N48 F52 N52 N4) as [_ Hcomb].
  apply (within_notNaN zero (ofZ 100)). exact Hcomb.
Qed.

Lemma combinedScore_sound (m : MarketRow) (baseline : number) :
  scorable m ->
  valid (combinedScore (scoreSetup log10 m baseline)) = true /\
  isNaN (combinedScore (scoreSetup log10 m baseline)) = false.
Proof.
  intros (Hv & Hch & Hvol). split.
  - now apply combinedScore_valid.
  - now apply combinedScore_notNaN.
Qed.

(** Sorting by [b.score - a.score] puts the best score first. *)
Lemma sortBy_bestFirst {A} (score : A -> number) (xs : list A) :
  (forall x, In x xs -> valid (score x) = true /\ isNaN (score x) = false) ->
  bestFirst score (sortBy (fun a b => sub (score b) (score a)) xs).
Proof.
  intros Hok. unfold bestFirst.
  apply (StronglySorted_impl_In (fun a b => - units (score a) <= - units (score b))).
  - intros x y Hx Hy Hle.
    rewrite <- (sortBy_perm (fun a b : A => sub (score b) (score a))) in Hx, Hy.
    destruct (Hok x Hx) as [Hvx Hnx]. destruct (Hok y Hy) as [Hvy Hny].
    unfold ge. rewrite le_units by assumption. apply Z.leb_le. lia.
  - apply sortBy_sorted. intros x y Hx Hy.
    destruct (Hok x Hx) as [Hvx Hnx]. destruct (Hok y Hy) as [Hvy Hny].
    rewrite sub_gt_zero, lt_units by assumption.
    destruct (Z.ltb_spec (units (score x)) (units (score y))),
      (Z.ltb_spec (- units (score y)) (- units (score x))); try reflexivity; lia.
Qed.

Lemma bestFirst_filter {A} (score : A -> number) (p : A -> bool) xs :
  bestFirst score xs -> bestFirst score (List.filter p xs).
Proof.
  unfold bestFirst. induction 1 as [|y xs Hs IH Hy]; cbn; [constructor|].
  destruct (p y); [|exact IH]. constructor; [exact IH|].
  rewrite List.Forall_forall in Hy |- *. intros z Hz. apply filter_In in Hz as [Hz _]. auto.
Qed.

(** X23: when every row on the desk has a finite 24h change and volume,
    the scanner's setups stand in descending order of combined score, so do
    the strict picks, and the best setup shown when no pick passes scores at
    least as high as every setup. *)
Theorem setups_best_first (a : App.t) (filteredMarket : list MarketRow) :
  Forall scorable filteredMarket ->
  bestFirst (fun s => combinedScore (SetupRow.score s)) (setups log10 a filteredMarket) /\
  bestFirst (fun s => combinedScore (SetupRow.score s))
            (scannerBest log10 a filteredMarket) /\
  (forall s t, bestSetup log10 a filteredMarket = Some s ->
               scannerBest log10 a filteredMarket = [] ->
               In t (setups log10 a filteredMarket) ->
               ge (combinedScore (SetupRow.score s)) (combinedScore (SetupRow.score t)) = true).
Proof.
  intros Hall. rewrite List.Forall_forall in Hall.
  assert (Hs : bestFirst (fun s => combinedScore (SetupRow.score s))
                         (setups log10 a filteredMarket)).
  { unfold setups. apply sortBy_bestFirst. intros s Hs.
    apply in_map_iff in Hs as (m & <- & Hm). cbn [SetupRow.score setupOf].
    apply combinedScore_sound. auto. }
  split; [exact Hs|]. split.
  - unfold scannerBest. apply StronglySorted_firstn.
    repeat apply bestFirst_filter. exact Hs.
  - intros s t Hbest Hnone Ht. unfold bestSetup in Hbest. rewrite Hnone in Hbest.
    destruct (setups log10 a filteredMarket) as [|s0 rest] eqn:E; [discriminate|].
    cbn in Hbest. injection Hbest as <-.
    destruct Ht as [<-|Ht].
    + assert (Hin : In s0 (setups log10 a filteredMarket)) by (rewrite E; now left).
      unfold setups in Hin.
      rewrite <- (sortBy_perm (fun x y : SetupRow.t =>
                 sub (combinedScore (SetupRow.score y)) (combinedScore (SetupRow.score x))))
        in Hin.
      apply in_map_iff in Hin as (m & <- & Hm). cbn [SetupRow.score setupOf].
      destruct (combinedScore_sound m (if truthy (baselineVol filteredMarket)
                                       then baselineVol filteredMarket else ofZ 1)
                  (Hall m Hm)) as [Hv Hn].
      unfold ge, SFleb. now rewrite compare_refl.
    + unfold bestFirst in Hs. apply StronglySorted_inv in Hs as [_ Hs].
      rewrite List.Forall_forall in Hs. now apply Hs.
Qed.

(** X24: when every merged row has a finite 24h change and volume, the
    coins a refresh scans are the ten best-scored candidates with an id (all
    of them when there are fewer), best first: every candidate left out
    scores no higher than any coin scanned. *)
Theorem rankedTemp_top10 (merged : list MarketRow) :
  Forall scorable merged ->
  let candidates :=
    List.filter (fun x => truthyId (Ranked.cgId x))
      (List.map (fun m => {| Ranked.symbol := symbol m; Ranked.cgId := cgId m;
                             Ranked.combined :=
                               combinedScore (scoreSetup log10 m (baselineVolTemp merged)) |})
                merged) in
  bestFirst Ranked.combined (rankedTemp log10 merged) /\
  exists rest,
    Permutation candidates (rankedTemp log10 merged ++ rest) /\
    (length (rankedTemp log10 merged) = Nat.min 10 (length candidates)) /\
    forall x y, In x (rankedTemp log10 merged) -> In y rest ->
                ge (Ranked.combined x) (Ranked.combined y) = true.
Proof.
  intros Hall. cbv zeta. rewrite List.Forall_forall in Hall.
  set (candidates := List.filter _ _).
  assert (Hs : bestFirst Ranked.combined
                 (sortBy (fun a b => sub (Ranked.combined b) (Ranked.combined a)) candidates)).
  { apply sortBy_bestFirst. intros x Hx. unfold candidates in Hx.
    apply filter_In in Hx as [Hx _]. apply in_map_iff in Hx as (m & <- & Hm).
    cbn [Ranked.combined]. apply combinedScore_sound. auto. }
  unfold rankedTemp. fold candidates.
  set (sorted := sortBy _ candidates) in *.
  split; [now apply StronglySorted_firstn|].
  exists (skipn 10 sorted). split; [|split].
  - rewrite firstn_skipn. apply sortBy_perm.
  - rewrite length_firstn. f_equal. symmetry. apply Permutation_length. apply sortBy_perm.
  - intros x y Hx Hy. exact (StronglySorted_split _ 10 sorted Hs x y Hx Hy).
Qed.

End Ranking.

(** ** Evaluations *)

(** A zero reference price under a positive last price gives infinite
    percentages, not NaN: the spike rule matches. *)
Example computeMicro_zero_reference :
  let m := computeMicro toFixed_stub [zero; ofZ 5] in
  ret1h m = Infinity /\ spikeFromLow6h m = Infinity /\ entryQuality m = EXTENDED.
Proof. cbv zeta. repeat split. Qed.

(** Price 100.5 over a support at 100: the resistance at 101 gives 1R, the
    one at 106 gives 11R and is chosen. *)
Example evaluateStructure_ok :
  evaluateStructure toFixed_stub (dec 1005 10) sampleLevels
  = {| ok := true; label := S_OK; reasons := [];
       support := Some (ofZ 100); resistance := Some (ofZ 106);
       roomTo2R := Some (ofZ 11); source := BINANCE_1H |}.
Proof. vm_compute. reflexivity. Qed.

(** With the resistance at 101 alone the room is 1R: NO_EDGE. *)
Example evaluateStructure_no_room :
  evaluateStructure toFixed_stub (dec 1005 10)
    {| supports := supports sampleLevels;
       resistances := [{| price := ofZ 101; strength := ofZ 1 |}] |}
  = {| ok := false; label := S_NO_EDGE;
       reasons := ["Room-to-2R fails: only ?R available."];
       support := Some (ofZ 100); resistance := Some (ofZ 101);
       roomTo2R := Some (ofZ 1); source := BINANCE_1H |}.
Proof. vm_compute. reflexivity. Qed.

(** ** Witnesses *)

Lemma computeR_spec_witness :
  computeR LONG (ofZ 100) (ofZ 95) (ofZ 110)
  = div (sub (ofZ 110) (ofZ 100)) (sub (ofZ 100) (ofZ 95)).
Proof.
  destruct computeR_spec as [H _].
  destruct (H (ofZ 100) (ofZ 95) (ofZ 110)) as [Hlong _].
  - vm_compute. reflexivity.
  - apply Hlong. vm_compute. reflexivity.
Defined.

Lemma computeMicro_priority_witness :
  entryQuality (computeMicro toFixed_stub dumpSeries) = NO_EDGE.
Proof.
  destruct (computeMicro_priority toFixed_stub) as (_ & H & _).
  apply (H dumpSeries). vm_compute. reflexivity.
Defined.

Lemma computeMicro_NaN_falls_through_witness :
  entryQuality (computeMicro toFixed_stub []) = VALID /\
  whyNot (computeMicro toFixed_stub []) = [].
Proof.
  destruct (computeMicro_NaN_falls_through toFixed_stub) as [H _].
  apply (H []); vm_compute; reflexivity.
Defined.

Lemma override_never_bypasses_commit_or_lock_witness :
  tradingAllowed (App.set_overrideGuard true lockedWithOpenLog) = false /\
  coinActionAllowed (App.set_overrideGuard true lockedWithOpenLog) cleanSetup = false.
Proof.
  destruct (override_never_bypasses_commit_or_lock lockedWithOpenLog cleanSetup)
    as [H _].
  apply H. right. reflexivity.
Defined.

(** The claim of C1 read on [addTrade] itself fails: on a locked day with
    the log dialog open and a valid trade in the form, [addTrade] appends
    the trade. *)
Lemma addTrade_appends_when_locked :
  DayState.locked (App.dayState lockedWithOpenLog) = true /\
  DayState.trades (App.dayState lockedWithOpenLog) = [] /\
  length (DayState.trades
            (App.dayState (addTrade trim_stub "id-1" "2025-03-01T18:00:00.000Z"
                                    lockedWithOpenLog))) = 1%nat.
Proof. repeat split. Qed.

Lemma lock_sticky_until_reset_witness :
  tradingAllowed lockedWithOpenLog = false /\
  clickLogTrade lockedWithOpenLog = lockedWithOpenLog.
Proof.
  destruct (lock_sticky_until_reset toFixed_stub numToString_stub trim_stub
              stringifyCommit_stub stringifyDayState_stub lockedWithOpenLog)
    as [H _]; [reflexivity|exact H].
Defined.

Lemma load_checks_day_key_witness :
  loadCommit JSON_parse_stub staleStore "2025-03-01" = None /\
  loadDayState JSON_parse_stub staleStore "2025-03-01" = freshDayState "2025-03-01".
Proof.
  destruct (load_checks_day_key JSON_parse_stub staleStore "2025-03-01")
    as (_ & Hc & _ & _ & Hd & _).
  split.
  - apply (Hc "{stale commit}" staleRecord); [reflexivity|reflexivity|discriminate].
  - apply (Hd "{stale day}" staleRecord); [reflexivity|reflexivity|discriminate].
Defined.

Lemma log10_stub_defined (x : number) :
  le (ofZ 1) x = true -> isNaN (log10_stub x) = false.
Proof.
  destruct x as [s|s| |s m e]; try destruct s; cbn [log10_stub];
    try discriminate; try reflexivity.
  intros _. apply mul_const_notNaN, binary_normalize_notNaN.
Qed.

Lemma scores_within_0_100_witness :
  within zero (ofZ 100) (combinedScore (scoreSetup log10_stub crashedRow NaN)) = true.
Proof.
  destruct (scores_within_0_100 log10_stub log10_stub_defined crashedRow NaN)
    as (_ & _ & _ & _ & H); [reflexivity|reflexivity|exact H].
Defined.

Lemma evaluateStructure_target_witness :
  exists s0,
    head (supportsBelow (dec 1005 10) sampleLevels) = Some s0 /\
    gt (sub (dec 1005 10) (price s0)) zero = true.
Proof.
  destruct (evaluateStructure_target toFixed_stub (dec 1005 10) sampleLevels)
    as (s0 & Hhead & _ & _ & _ & Hrisk & _).
  - reflexivity.
  - repeat constructor.
  - repeat constructor.
  - exists {| price := ofZ 100; strength := ofZ 2 |}. split; [now left|reflexivity].
  - exists s0. split; [exact Hhead|exact Hrisk].
Defined.

Lemma commitToday_contract_normalized_witness :
  let c := normalizedCommit "2025-03-01" "2025-03-01T09:00:00.000Z" sloppyDraft in
  within (dec 1 10) (ofZ 5) (riskPct c) = true /\
  (isInteger (maxTrades c) = true /\ ge (maxTrades c) (ofZ 1) = true) /\
  ge (maxDailyLossR c) (dec 1 2) = true /\
  (isInteger (maxConsecutiveLosses c) = true /\
   ge (maxConsecutiveLosses c) (ofZ 1) = true).
Proof.
  destruct (commitToday_contract_normalized stringifyCommit_stub "2025-03-01T09:00:00.000Z"
              (draftingApp sloppyDraft) eq_refl eq_refl eq_refl eq_refl eq_refl eq_refl)
    as (_ & _ & Hrisk & Htrades & Hloss & Hstreak & _).
  cbv zeta. repeat split; (apply Hrisk || apply Htrades || apply Hloss || apply Hstreak).
Defined.

(** *** Witnesses of the further properties *)

Lemma ledger_never_records_invalid_R_witness :
  ledgerFinite
    (fold_left
       (fun x c => run toFixed_stub numToString_stub trim_stub stringifyCommit_stub
                       stringifyDayState_stub c x)
       threeSaves tradingDay).
Proof.
  apply (ledger_never_records_invalid_R toFixed_stub numToString_stub trim_stub
           stringifyCommit_stub stringifyDayState_stub threeSaves tradingDay).
  constructor.
Defined.

Lemma trade_cap_never_exceeded_witness :
  Z.of_nat
    (length
       (DayState.trades
          (App.dayState
             (fold_left
                (fun x c => step toFixed_stub numToString_stub trim_stub
                                 stringifyCommit_stub stringifyDayState_stub c x)
                threeSaves tradingDay)))) <= 2.
Proof.
  destruct (trade_cap_never_exceeded toFixed_stub numToString_stub trim_stub
              stringifyCommit_stub stringifyDayState_stub 2 threeSaves tradingDay)
    as [_ H].
  - lia.
  - unfold underCap. split.
    + right. eexists. split; [reflexivity|]. split; reflexivity.
    + cbn. repeat split; intros; lia.
  - reflexivity.
  - exact H.
Defined.

Lemma computeR_sign_witness : lt (ofZ 95) (ofZ 100) = true.
Proof.
  apply (proj1 (computeR_sign (ofZ 100) (ofZ 98) (ofZ 95) eq_refl eq_refl)).
  vm_compute. reflexivity.
Defined.

Lemma saved_records_load_back_witness :
  let stored :=
    App.localStorage
      (commitToday stringifyCommit_stub "2025-03-01T09:00:00.000Z"
                   (draftingApp sloppyDraft)) in
  loadCommit JSON_parse_echo stored "2025-03-01"
  = Some (JObject [("dayKey", JString "2025-03-01")]) /\
  loadCommit JSON_parse_echo stored "2025-03-02" = None.
Proof.
  destruct (saved_records_load_back JSON_parse_echo stringifyCommit_stub
              stringifyDayState_stub "2025-03-01T09:00:00.000Z" (draftingApp sloppyDraft)
              _ _ eq_refl eq_refl eq_refl eq_refl eq_refl eq_refl) as [Hc _].
  split; [exact (Hc "2025-03-01")|exact (Hc "2025-03-02")].
Defined.

Lemma no_pivot_low_waits_witness :
  evaluateStructure toFixed_stub (ofZ 14) (computePivotLevels1h risingCandles)
  = waitNoSupport.
Proof.
  apply no_pivot_low_waits. intros i [H1 H2].
  unfold risingCandles in H2. cbn [length List.map] in H2.
  do 5 (destruct i as [|i]; [try lia; vm_compute; reflexivity|]).
  lia.
Defined.

Lemma evaluateStructure_verdict_witness :
  ok (evaluateStructure toFixed_stub (dec 201 2) sampleLevels)
  = isOk (label (evaluateStructure toFixed_stub (dec 201 2) sampleLevels)).
Proof.
  refine (proj1 (evaluateStructure_verdict toFixed_stub (dec 201 2) sampleLevels
                   eq_refl _)).
  repeat constructor.
Defined.

Lemma scannerBest_strict_witness :
  In (setupOf log10_stub scannedDesk (baselineVol [solRow; dogeRow; xrpRow]) solRow)
     (scannerBest log10_stub scannedDesk [solRow; dogeRow; xrpRow]) /\
  coinActionAllowed scannedDesk
    (setupOf log10_stub scannedDesk (baselineVol [solRow; dogeRow; xrpRow]) solRow)
  = tradingAllowed scannedDesk.
Proof.
  assert (Hin : In (setupOf log10_stub scannedDesk (baselineVol [solRow; dogeRow; xrpRow]) solRow)
                   (scannerBest log10_stub scannedDesk [solRow; dogeRow; xrpRow])).
  { vm_compute. left. reflexivity. }
  split; [exact Hin|].
  apply (proj2 (proj2 (scannerBest_strict log10_stub scannedDesk [solRow; dogeRow; xrpRow]))
               _ Hin).
Defined.

Lemma refresh_scope_witness :
  let a := draftingApp (defaultCommit "2025-03-01" "") in
  let a' := refreshSnapshot toUpperCase_stub twoCoins halfUpstream (App.sizing a)
              (typePrices (refreshStart a)) in
  Sizing.entryPrice (App.sizing a') = ofZ 150 /\
  Sizing.stopPrice (App.sizing a') = mul (ofZ 150) (dec 985 1000).
Proof.
  cbv zeta.
  destruct (proj2 (proj2 (refresh_scope toFixed_stub log10_stub toUpperCase_stub twoCoins
                            halfUpstream
                            (App.sizing (draftingApp (defaultCommit "2025-03-01" "")))))
              (typePrices (refreshStart (draftingApp (defaultCommit "2025-03-01" ""))))
              _ (ofZ 150) eq_refl eq_refl eq_refl) as [He Hs].
  split; [exact (He eq_refl)|exact (Hs eq_refl)].
Defined.

Lemma refresh_batches_witness :
  Scan.microMap (App.scan (refresh toFixed_stub log10_stub toUpperCase_stub twoCoins
                             halfUpstream scannedDesk))
  = Scan.microMap (App.scan scannedDesk).
Proof.
  refine (proj1 (refresh_batches toFixed_stub log10_stub toUpperCase_stub twoCoins
                   halfUpstream scannedDesk _ eq_refl) _).
  vm_compute. apply Exists_cons_tl. apply Exists_cons_hd. reflexivity.
Defined.

Lemma session_changes_at_nextChangeAt_witness :
  sessionAtMinute (17 * 60 + 30 + 209) = computeSession 17 30 /\
  session (sessionAtMinute (17 * 60 + 30 + 210)) <> session (computeSession 17 30).
Proof.
  destruct (session_changes_at_nextChangeAt 17 30 ltac:(lia) ltac:(lia))
    as (_ & Hstay & Hleave & _).
  split; [apply (Hstay 209); vm_compute; split; [discriminate|reflexivity]|exact Hleave].
Defined.

Lemma countdown_spec_witness :
  0 < msToNextChange 17 30 15 250 <= 540 * 60000.
Proof.
  exact (proj1 (countdown_spec 17 30 15 250 ltac:(lia) ltac:(lia) ltac:(lia) ltac:(lia))).
Defined.

Lemma dayKeyLocal_inj_witness : 2025 = 2025 /\ 2 = 2 /\ 1 = 1.
Proof.
  apply (dayKeyLocal_inj 2025 2 1 2025 2 1); [lia|lia|lia|lia|reflexivity].
Defined.

Lemma coinbaseCandles_contract_witness :
  Proxy.body (Proxy.handler toUpperCase_stub trim_stub Number_stub threeRows solQuery)
  = Proxy.CandlesBody "SOL" "SOL-USD"
      [{| h := ofZ 101; l := ofZ 97 |}; {| h := ofZ 103; l := ofZ 99 |}].
Proof.
  destruct (coinbaseCandles_contract toUpperCase_stub trim_stub Number_stub threeRows
              solQuery) as (_ & _ & _ & _ & _ & H200 & _).
  destruct (H200 eq_refl) as (rows & Hf & Hb & _).
  injection Hf as <-. exact Hb.
Defined.

Lemma computeMicro_excursions_witness :
  le (dropFromHigh6h (computeMicro toFixed_stub dumpSeries)) zero = true /\
  ge (spikeFromLow6h (computeMicro toFixed_stub dumpSeries)) zero = true.
Proof.
  destruct (computeMicro_excursions toFixed_stub dumpSeries) as (_ & _ & H1 & H2).
  - discriminate.
  - unfold dumpSeries. repeat (constructor; [repeat split|]). constructor.
  - split; assumption.
Defined.

Lemma computeMicro_flat_witness :
  entryQuality (computeMicro toFixed_stub flatDay) = VALID.
Proof.
  destruct (computeMicro_flat toFixed_stub flatDay (ofZ 150)) as [H _].
  - discriminate.
  - repeat split.
  - intros p Hp. exact (repeat_spec _ _ _ Hp).
  - exact H.
Defined.

Lemma sizing_one_sided_witness :
  positionSizeShort (ofZ 1000) (ofZ 2) (ofZ 100) (ofZ 95) = zero /\
  positionSizeLong (ofZ 1000) (ofZ 2) (ofZ 100) (ofZ 95)
  = div (riskAmount (ofZ 1000) (ofZ 2)) (sub (ofZ 100) (ofZ 95)).
Proof.
  destruct (proj1 (sizing_one_sided (ofZ 1000) (ofZ 2) (ofZ 100) (ofZ 95)
                     eq_refl eq_refl eq_refl eq_refl) eq_refl)
    as (_ & _ & HL & _ & HS & _).
  split; [exact HS|exact HL].
Defined.

Lemma log10_stub_valid (x : number) : valid (log10_stub x) = true.
Proof.
  destruct x as [s|s| |s m e]; try destruct s; cbn [log10_stub]; try reflexivity.
  apply mul_valid; [apply ofZ_valid|vm_compute; reflexivity].
Qed.

Lemma threeRows_scorable : Forall scorable [solRow; dogeRow; xrpRow].
Proof. repeat (constructor; [repeat split; vm_compute; reflexivity|]). constructor. Qed.

Lemma setups_best_first_witness :
  bestFirst (fun s => combinedScore (SetupRow.score s))
            (setups log10_stub scannedDesk [solRow; dogeRow; xrpRow]).
Proof.
  exact (proj1 (setups_best_first log10_stub log10_stub_defined log10_stub_valid
                  scannedDesk [solRow; dogeRow; xrpRow] threeRows_scorable)).
Defined.

Lemma rankedTemp_top10_witness :
  bestFirst Ranked.combined (rankedTemp log10_stub [solRow; dogeRow; xrpRow]).
Proof.
  exact (proj1 (rankedTemp_top10 log10_stub log10_stub_defined log10_stub_valid
                  [solRow; dogeRow; xrpRow] threeRows_scorable)).
Defined.
